(** * A shallow embedding of the chess rules engine

    The definitions below follow [src/js/chess-engine.js] (class
    [ChessEngine]) method by method, and the notation parser of
    [src/js/ui-manager.js] ([findPieceForMove], [handlePieceMove],
    [executePromotion], [getPromotionNotation]).  They are followed by the
    rest of what [UIManager] does to the engine (module [UI]: the text
    field, the clicks on the board, the promotion dialog) and by
    [generateFEN] and [executeStockfishMove] of the application (module
    [ChessApp]).

    Conventions of the embedding:
    - row and column numbers are [Z]; the board is the array of arrays of
      the source, a [list (list (option Piece))];
    - [this] is an explicit [State] record that every method receives and,
      when it assigns a field, returns;
    - a JavaScript [TypeError] raised by indexing [undefined] is the
      outcome [Threw];
    - strings ([fenEnPassant], move notation, position keys) are
      [String.string];
    - piece objects are never modified once created, so the sharing of a
      piece between two boards cannot be observed; boards are copied where
      the source copies them ([deepCopyBoard]).

    The first part holds the definitions; the second part the proofs:
    general facts about the engine first, then one section for each
    property of the specification that is examined (C1 to C10), then
    further properties of the code (numbered from X1). *)

From Stdlib Require Import ZArith List Bool String Ascii Lia DecimalString.
From Stdlib Require Import Sorted.
Import ListNotations.

#[local] Open Scope string_scope.
#[local] Open Scope Z_scope.

(** ** Pieces and board *)

Inductive Color := White | Black.

Inductive PieceType := Pawn | Knight | Bishop | Rook | Queen | King.

(** The twelve glyphs stored in the [symbol] field of a piece. *)
Inductive Symbol :=
| SymWK | SymWQ | SymWR | SymWB | SymWN | SymWP
| SymBK | SymBQ | SymBR | SymBB | SymBN | SymBP.

Record Piece := mkPiece { symbol : Symbol; type : PieceType; color : Color }.

Definition Color_eqb (a b : Color) : bool :=
  match a, b with White, White | Black, Black => true | _, _ => false end.

Definition PieceType_eqb (a b : PieceType) : bool :=
  match a, b with
  | Pawn, Pawn | Knight, Knight | Bishop, Bishop
  | Rook, Rook | Queen, Queen | King, King => true
  | _, _ => false
  end.

Definition Symbol_eqb (a b : Symbol) : bool :=
  match a, b with
  | SymWK, SymWK | SymWQ, SymWQ | SymWR, SymWR | SymWB, SymWB
  | SymWN, SymWN | SymWP, SymWP | SymBK, SymBK | SymBQ, SymBQ
  | SymBR, SymBR | SymBB, SymBB | SymBN, SymBN | SymBP, SymBP => true
  | _, _ => false
  end.

(** [color === 'white' ? 'black' : 'white'] *)
Definition opponent (c : Color) : Color :=
  match c with White => Black | Black => White end.

Definition Board := list (list (option Piece)).

(** [board[r]]: [undefined] (here [None]) outside the array. *)
Definition row_at (b : Board) (r : Z) : option (list (option Piece)) :=
  if r <? 0 then None else nth_error b (Z.to_nat r).

(** [board[r][c]] for a row [r] that exists: the piece, or a falsy value
    ([null] on an empty square, [undefined] for a column outside the row).
    Indexing a row that does not exist throws; the only read of the source
    that can do so is the first one of [makeMove], which is modelled with
    [row_at].  Every other read is made after the bounds check of
    [isValidMove], inside a loop over 0..7, or at a square computed from
    such squares, and [cell] is used for them. *)
Definition cell (b : Board) (r c : Z) : option Piece :=
  match row_at b r with
  | Some row =>
      if c <? 0 then None
      else match nth_error row (Z.to_nat c) with
           | Some p => p
           | None => None
           end
  | None => None
  end.

Fixpoint list_set {A : Type} (l : list A) (n : nat) (v : A) : list A :=
  match l, n with
  | [], _ => []
  | _ :: t, O => v :: t
  | h :: t, S n' => h :: list_set t n' v
  end.

(** [board[r][c] = v].  Every assignment of the source targets a square of
    the 8x8 grid; outside it this function leaves the board alone. *)
Definition set_cell (b : Board) (r c : Z) (v : option Piece) : Board :=
  if (r <? 0) || (c <? 0) then b
  else match nth_error b (Z.to_nat r) with
       | Some row => list_set b (Z.to_nat r) (list_set row (Z.to_nat c) v)
       | None => b
       end.

(** [board.map(row => row.map(piece => piece ? { ...piece } : null))] *)
Definition deepCopyBoard (b : Board) : Board :=
  map (fun row => map (fun p : option Piece =>
                         match p with
                         | Some q => Some (mkPiece (symbol q) (type q) (color q))
                         | None => None
                         end) row) b.

(** The index pairs visited by
    [for (row = 0; row < 8; row++) for (col = 0; col < 8; col++)]. *)
Definition range8 : list Z := [0; 1; 2; 3; 4; 5; 6; 7].

Definition squares : list (Z * Z) :=
  flat_map (fun r => map (fun c => (r, c)) range8) range8.

(** ** Engine state *)

Record SideRights := mkSideRights
  { king : bool; rookQueen : bool; rookKing : bool }.

Record CastlingRights := mkCastlingRights
  { white : SideRights; black : SideRights }.

Record FenCastling := mkFenCastling
  { fenK : bool; fenQ : bool; fenk : bool; fenq : bool }.

(** The object stored in [pendingPromotion]; its field [color] is called
    [promoColor] here. *)
Record Promotion := mkPromotion
  { fromRow : Z; fromCol : Z; toRow : Z; toCol : Z; promoColor : Color }.

Inductive Winner := WinnerWhite | WinnerBlack | WinnerDraw.

(** An entry of [gameStateHistory], pushed by [saveGameState]. *)
Record Snapshot := mkSnapshot
  { snapBoard : Board;
    snapCurrentPlayer : Color;
    snapCastlingRights : CastlingRights;
    snapFenCastling : FenCastling;
    snapFenEnPassant : string;
    snapHalfmoveClock : Z;
    snapMoveHistory : list string }.

Record State := mkState
  { board : Board;
    currentPlayer : Color;
    selectedSquare : option (Z * Z);
    moveHistory : list string;
    gameStateHistory : list Snapshot;
    isGameOver : bool;
    gameWinner : option Winner;
    pendingPromotion : option Promotion;
    castlingRights : CastlingRights;
    fenCastling : FenCastling;
    fenEnPassant : string;
    halfmoveClock : Z;
    positionHistory : list string }.

Definition set_board (s : State) (b : Board) : State :=
  mkState b (currentPlayer s) (selectedSquare s) (moveHistory s)
    (gameStateHistory s) (isGameOver s) (gameWinner s) (pendingPromotion s)
    (castlingRights s) (fenCastling s) (fenEnPassant s) (halfmoveClock s)
    (positionHistory s).

Definition set_currentPlayer (s : State) (c : Color) : State :=
  mkState (board s) c (selectedSquare s) (moveHistory s)
    (gameStateHistory s) (isGameOver s) (gameWinner s) (pendingPromotion s)
    (castlingRights s) (fenCastling s) (fenEnPassant s) (halfmoveClock s)
    (positionHistory s).

Definition set_moveHistory (s : State) (h : list string) : State :=
  mkState (board s) (currentPlayer s) (selectedSquare s) h
    (gameStateHistory s) (isGameOver s) (gameWinner s) (pendingPromotion s)
    (castlingRights s) (fenCastling s) (fenEnPassant s) (halfmoveClock s)
    (positionHistory s).

Definition set_gameStateHistory (s : State) (h : list Snapshot) : State :=
  mkState (board s) (currentPlayer s) (selectedSquare s) (moveHistory s)
    h (isGameOver s) (gameWinner s) (pendingPromotion s)
    (castlingRights s) (fenCastling s) (fenEnPassant s) (halfmoveClock s)
    (positionHistory s).

(** [this.isGameOver = true; this.gameWinner = w] *)
Definition set_gameOver (s : State) (w : Winner) : State :=
  mkState (board s) (currentPlayer s) (selectedSquare s) (moveHistory s)
    (gameStateHistory s) true (Some w) (pendingPromotion s)
    (castlingRights s) (fenCastling s) (fenEnPassant s) (halfmoveClock s)
    (positionHistory s).

Definition set_pendingPromotion (s : State) (p : option Promotion) : State :=
  mkState (board s) (currentPlayer s) (selectedSquare s) (moveHistory s)
    (gameStateHistory s) (isGameOver s) (gameWinner s) p
    (castlingRights s) (fenCastling s) (fenEnPassant s) (halfmoveClock s)
    (positionHistory s).

Definition set_castling (s : State) (cr : CastlingRights) (fc : FenCastling)
  : State :=
  mkState (board s) (currentPlayer s) (selectedSquare s) (moveHistory s)
    (gameStateHistory s) (isGameOver s) (gameWinner s) (pendingPromotion s)
    cr fc (fenEnPassant s) (halfmoveClock s) (positionHistory s).

Definition set_fenEnPassant (s : State) (e : string) : State :=
  mkState (board s) (currentPlayer s) (selectedSquare s) (moveHistory s)
    (gameStateHistory s) (isGameOver s) (gameWinner s) (pendingPromotion s)
    (castlingRights s) (fenCastling s) e (halfmoveClock s)
    (positionHistory s).

Definition set_halfmoveClock (s : State) (n : Z) : State :=
  mkState (board s) (currentPlayer s) (selectedSquare s) (moveHistory s)
    (gameStateHistory s) (isGameOver s) (gameWinner s) (pendingPromotion s)
    (castlingRights s) (fenCastling s) (fenEnPassant s) n
    (positionHistory s).

Definition set_positionHistory (s : State) (h : list string) : State :=
  mkState (board s) (currentPlayer s) (selectedSquare s) (moveHistory s)
    (gameStateHistory s) (isGameOver s) (gameWinner s) (pendingPromotion s)
    (castlingRights s) (fenCastling s) (fenEnPassant s) (halfmoveClock s) h.

(** [this.castlingRights[color]] *)
Definition rights_of (cr : CastlingRights) (c : Color) : SideRights :=
  match c with White => white cr | Black => black cr end.

(** ** [initializeBoard] *)

Definition allRights : CastlingRights :=
  mkCastlingRights (mkSideRights true true true) (mkSideRights true true true).

Definition allFen : FenCastling := mkFenCastling true true true true.

Definition emptyBoard : Board := repeat (repeat None 8) 8.

Definition backRank (c : Color) : list (Z * Piece) :=
  match c with
  | Black =>
      [ (0, mkPiece SymBR Rook Black); (1, mkPiece SymBN Knight Black);
        (2, mkPiece SymBB Bishop Black); (3, mkPiece SymBQ Queen Black);
        (4, mkPiece SymBK King Black); (5, mkPiece SymBB Bishop Black);
        (6, mkPiece SymBN Knight Black); (7, mkPiece SymBR Rook Black) ]
  | White =>
      [ (0, mkPiece SymWR Rook White); (1, mkPiece SymWN Knight White);
        (2, mkPiece SymWB Bishop White); (3, mkPiece SymWQ Queen White);
        (4, mkPiece SymWK King White); (5, mkPiece SymWB Bishop White);
        (6, mkPiece SymWN Knight White); (7, mkPiece SymWR Rook White) ]
  end.

Definition initialBoard : Board :=
  let withPawns :=
    fold_left (fun b i =>
                 set_cell (set_cell b 1 i (Some (mkPiece SymBP Pawn Black)))
                          6 i (Some (mkPiece SymWP Pawn White)))
              range8 emptyBoard in
  let withBlack :=
    fold_left (fun b cp => set_cell b 0 (fst cp) (Some (snd cp)))
              (backRank Black) withPawns in
  fold_left (fun b cp => set_cell b 7 (fst cp) (Some (snd cp)))
            (backRank White) withBlack.

(** The engine after [new ChessEngine()] followed by [initializeBoard()]. *)
Definition initialState : State :=
  mkState initialBoard White None [] [] false None None
          allRights allFen "-" 0 [].

(** ** Reading the en-passant string *)

(** [s.charCodeAt(0)]; [NaN] (here [None]) on the empty string. *)
Definition charCodeAt0 (s : string) : option Z :=
  match s with
  | String a _ => Some (Z.of_nat (nat_of_ascii a))
  | EmptyString => None
  end.

(** [parseInt] of a one-character string: the digit, or [NaN]. *)
Definition parseDigit (a : ascii) : option Z :=
  let n := Z.of_nat (nat_of_ascii a) in
  if (48 <=? n) && (n <=? 57) then Some (n - 48) else None.

(** [parseInt(s.charAt(1))] *)
Definition parseIntCharAt1 (s : string) : option Z :=
  match s with
  | String _ (String a _) => parseDigit a
  | _ => None
  end.

(** The test shared by [isValidPawnMove] and [handleEnPassant]:
[[
   if (this.fenEnPassant !== '-') {
       const epFile = this.fenEnPassant.charCodeAt(0) - 97;
       const epRank = 8 - parseInt(this.fenEnPassant.charAt(1));
       if (toCol === epFile && toRow === epRank) ...
]]
    A comparison with [NaN] is false. *)
Definition isEnPassantSquare (e : string) (toRow toCol : Z) : bool :=
  if String.eqb e "-" then false
  else match charCodeAt0 e, parseIntCharAt1 e with
       | Some code, Some d => (toCol =? code - 97) && (toRow =? 8 - d)
       | _, _ => false
       end.

(** [String.fromCharCode(n)] for the codes the engine produces (97..104). *)
Definition fromCharCode (n : Z) : string :=
  String (ascii_of_nat (Z.to_nat n)) EmptyString.

(** A number appended to a string: its decimal digits. *)
Definition numToString (n : Z) : string :=
  NilZero.string_of_int (Z.to_int n).

(** ** Piece geometry *)

(** [!board[r][c]] *)
Definition isEmpty (b : Board) (r c : Z) : bool :=
  match cell b r c with Some _ => false | None => true end.

Definition direction (c : Color) : Z :=
  match c with White => -1 | Black => 1 end.

Definition startRow (c : Color) : Z :=
  match c with White => 6 | Black => 1 end.

Definition isValidPawnMove (s : State) (piece : Piece)
  (fromRow fromCol toRow toCol : Z) : bool :=
  let direction := direction (color piece) in
  let startRow := startRow (color piece) in
  let rowDiff := toRow - fromRow in
  let colDiff := Z.abs (toCol - fromCol) in
  if (colDiff =? 0)
     && (((rowDiff =? direction) && isEmpty (board s) toRow toCol)
         || ((fromRow =? startRow) && (rowDiff =? 2 * direction)
             && isEmpty (board s) toRow toCol
             && isEmpty (board s) (fromRow + direction) fromCol))
  then true
  else if (colDiff =? 1) && (rowDiff =? direction) then
    match cell (board s) toRow toCol with
    | Some targetPiece =>
        if negb (Color_eqb (color targetPiece) (color piece)) then true
        else isEnPassantSquare (fenEnPassant s) toRow toCol
    | None => isEnPassantSquare (fenEnPassant s) toRow toCol
    end
  else false.

(** The [while] loop of [isPathClear], with the number of iterations left.
    Eight iterations are enough between two squares of the grid that share a
    row, a column or a diagonal (lemma [isPathClear_loop_fuel] below). *)
Fixpoint isPathClear_loop (fuel : nat) (b : Board)
  (row col toRow toCol rowStep colStep : Z) : bool :=
  match fuel with
  | O => true
  | S fuel' =>
      if negb (row =? toRow) || negb (col =? toCol) then
        if negb (isEmpty b row col) then false
        else isPathClear_loop fuel' b (row + rowStep) (col + colStep)
                              toRow toCol rowStep colStep
      else true
  end.

Definition step (from to : Z) : Z :=
  if to >? from then 1 else if to <? from then -1 else 0.

Definition isPathClear (b : Board) (fromRow fromCol toRow toCol : Z) : bool :=
  let rowStep := step fromRow toRow in
  let colStep := step fromCol toCol in
  isPathClear_loop 8 b (fromRow + rowStep) (fromCol + colStep)
                   toRow toCol rowStep colStep.

Definition isValidRookMove (b : Board) (fromRow fromCol toRow toCol : Z)
  : bool :=
  if negb (fromRow =? toRow) && negb (fromCol =? toCol) then false
  else isPathClear b fromRow fromCol toRow toCol.

Definition isValidBishopMove (b : Board) (fromRow fromCol toRow toCol : Z)
  : bool :=
  if negb (Z.abs (toRow - fromRow) =? Z.abs (toCol - fromCol)) then false
  else isPathClear b fromRow fromCol toRow toCol.

Definition isValidKingMove (piece : Piece) (fromRow fromCol toRow toCol : Z)
  : bool :=
  let rowDiff := Z.abs (toRow - fromRow) in
  let colDiff := Z.abs (toCol - fromCol) in
  if (rowDiff <=? 1) && (colDiff <=? 1) then true else false.

Definition isValidPieceMove (s : State) (piece : Piece)
  (fromRow fromCol toRow toCol : Z) : bool :=
  let rowDiff := Z.abs (toRow - fromRow) in
  let colDiff := Z.abs (toCol - fromCol) in
  match type piece with
  | Pawn => isValidPawnMove s piece fromRow fromCol toRow toCol
  | Rook => isValidRookMove (board s) fromRow fromCol toRow toCol
  | Knight =>
      ((rowDiff =? 2) && (colDiff =? 1)) || ((rowDiff =? 1) && (colDiff =? 2))
  | Bishop => isValidBishopMove (board s) fromRow fromCol toRow toCol
  | Queen =>
      isValidRookMove (board s) fromRow fromCol toRow toCol
      || isValidBishopMove (board s) fromRow fromCol toRow toCol
  | King => isValidKingMove piece fromRow fromCol toRow toCol
  end.

(** ** Check detection *)

(** [canPieceAttack] installs [board] as [this.board] for the duration of
    the call to [isValidPieceMove]. *)
Definition canPieceAttack (s : State) (piece : Piece)
  (fromRow fromCol targetRow targetCol : Z) (board : Board) : bool :=
  isValidPieceMove (set_board s board) piece fromRow fromCol targetRow targetCol.

(** The first loop nest of [isInCheckOnBoard] and [isInCheckSimple]: the
    first square, in row-major order, holding a king of [color]. *)
Definition findKing (b : Board) (color0 : Color) : option (Z * Z) :=
  find (fun rc =>
          match cell b (fst rc) (snd rc) with
          | Some piece =>
              PieceType_eqb (type piece) King && Color_eqb (color piece) color0
          | None => false
          end) squares.

Definition isInCheckOnBoard (s : State) (color0 : Color) (b : Board) : bool :=
  match findKing b color0 with
  | None => false
  | Some (kingRow, kingCol) =>
      let opponentColor := opponent color0 in
      existsb (fun rc =>
                 match cell b (fst rc) (snd rc) with
                 | Some piece =>
                     Color_eqb (color piece) opponentColor
                     && canPieceAttack s piece (fst rc) (snd rc)
                                       kingRow kingCol b
                 | None => false
                 end) squares
  end.

Definition isInCheck (s : State) (color0 : Color) : bool :=
  isInCheckOnBoard s color0 (board s).

(** ** [isValidMove] *)

Definition inBounds (fromRow fromCol toRow toCol : Z) : bool :=
  negb ((fromRow <? 0) || (fromRow >? 7) || (fromCol <? 0) || (fromCol >? 7)
        || (toRow <? 0) || (toRow >? 7) || (toCol <? 0) || (toCol >? 7)).

(** The scratch board of [isValidMove]: a copy of the board on which the
    piece is put on its destination and its origin is emptied. *)
Definition testBoard (b : Board) (piece : Piece)
  (fromRow fromCol toRow toCol : Z) : Board :=
  set_cell (set_cell (deepCopyBoard b) toRow toCol (Some piece))
           fromRow fromCol None.

Definition isValidMove (s : State) (fromRow fromCol toRow toCol : Z) : bool :=
  if negb (inBounds fromRow fromCol toRow toCol) then false
  else
    match cell (board s) fromRow fromCol with
    | None => false
    | Some piece =>
        if negb (Color_eqb (color piece) (currentPlayer s)) then false
        else
          let ownTarget :=
            match cell (board s) toRow toCol with
            | Some targetPiece => Color_eqb (color targetPiece) (color piece)
            | None => false
            end in
          if ownTarget then false
          else if negb (isValidPieceMove s piece fromRow fromCol toRow toCol)
          then false
          else if isInCheckOnBoard s (color piece)
                    (testBoard (board s) piece fromRow fromCol toRow toCol)
          then false
          else true
    end.

(** [getAllLegalMovesForColor(color)]; [getAllLegalMoves()] is the same loop
    with [this.currentPlayer] for [color]. *)
Definition getAllLegalMovesForColor (s : State) (color0 : Color)
  : list ((Z * Z) * (Z * Z)) :=
  flat_map (fun from =>
              match cell (board s) (fst from) (snd from) with
              | Some piece =>
                  if Color_eqb (color piece) color0 then
                    flat_map (fun to =>
                                if isValidMove s (fst from) (snd from)
                                               (fst to) (snd to)
                                then [(from, to)] else [])
                             squares
                  else []
              | None => []
              end) squares.

Definition getAllLegalMoves (s : State) : list ((Z * Z) * (Z * Z)) :=
  getAllLegalMovesForColor s (currentPlayer s).

(** ** Position keys and game end *)

(** [piece.color[0]] and [piece.type[0]]: the first letter of the name. *)
Definition colorInitial (c : Color) : string :=
  match c with White => "w" | Black => "b" end.

Definition typeInitial (t : PieceType) : string :=
  match t with
  | Pawn => "p" | Knight => "k" | Bishop => "b"
  | Rook => "r" | Queen => "q" | King => "k"
  end.

Definition generatePositionKey (s : State) : string :=
  let key :=
    fold_left (fun key rc =>
                 key ++ match cell (board s) (fst rc) (snd rc) with
                        | Some piece =>
                            colorInitial (color piece) ++ typeInitial (type piece)
                        | None => "--"
                        end)%string
              squares "" in
  let key := (key ++ colorInitial (currentPlayer s))%string in
  let key :=
    (key ++ ((((if fenK (fenCastling s) then "K" else "")
               ++ (if fenQ (fenCastling s) then "Q" else ""))
              ++ (if fenk (fenCastling s) then "k" else ""))
             ++ (if fenq (fenCastling s) then "q" else "")))%string in
  (key ++ fenEnPassant s)%string.

(** The loop of [isThreefoldRepetition]: [count] is incremented on every
    match and the function returns as soon as it reaches 3. *)
Fixpoint repetition_loop (current : string) (history : list string)
  (count : Z) : bool :=
  match history with
  | [] => false
  | position :: rest =>
      if String.eqb position current then
        if count + 1 >=? 3 then true
        else repetition_loop current rest (count + 1)
      else repetition_loop current rest count
  end.

Definition isThreefoldRepetition (s : State) : bool :=
  repetition_loop (generatePositionKey s) (positionHistory s) 0.

Inductive GameEnd := Checkmate | Stalemate | FiftyMoves | Repetition.

Definition winnerOf (c : Color) : Winner :=
  match c with White => WinnerWhite | Black => WinnerBlack end.

Definition checkGameEndConditions (s : State) : option GameEnd * State :=
  let legalMoves := getAllLegalMoves s in
  if (Z.of_nat (List.length legalMoves) =? 0) then
    if isInCheck s (currentPlayer s) then
      (Some Checkmate, set_gameOver s (winnerOf (opponent (currentPlayer s))))
    else (Some Stalemate, set_gameOver s WinnerDraw)
  else if halfmoveClock s >=? 100 then
    (Some FiftyMoves, set_gameOver s WinnerDraw)
  else if isThreefoldRepetition s then
    (Some Repetition, set_gameOver s WinnerDraw)
  else (None, s).

(** ** Castling *)

Inductive Side := kingside | queenside.

Definition homeRow (c : Color) : Z :=
  match c with White => 7 | Black => 0 end.

(** [isCastlingMove]; [piece] is whatever [board[fromRow][fromCol]] held. *)
Definition isCastlingMove (piece : option Piece)
  (fromRow fromCol toRow toCol : Z) : bool :=
  match piece with
  | Some piece =>
      PieceType_eqb (type piece) King
      && (fromCol =? 4) && ((toCol =? 6) || (toCol =? 2))
      && (fromRow =? toRow)
      && ((Color_eqb (color piece) White && (fromRow =? 7))
          || (Color_eqb (color piece) Black && (fromRow =? 0)))
  | None => false
  end.

Definition canPieceAttackSimple (b : Board) (piece : Piece)
  (fromRow fromCol targetRow targetCol : Z) : bool :=
  match type piece with
  | Pawn =>
      let direction := direction (color piece) in
      let rowDiff := targetRow - fromRow in
      let colDiff := Z.abs (targetCol - fromCol) in
      if (colDiff =? 1) && (rowDiff =? direction) then true else false
  | Rook =>
      ((fromRow =? targetRow) || (fromCol =? targetCol))
      && isPathClear b fromRow fromCol targetRow targetCol
  | Bishop =>
      (Z.abs (fromRow - targetRow) =? Z.abs (fromCol - targetCol))
      && isPathClear b fromRow fromCol targetRow targetCol
  | Queen =>
      (((fromRow =? targetRow) || (fromCol =? targetCol))
       || (Z.abs (fromRow - targetRow) =? Z.abs (fromCol - targetCol)))
      && isPathClear b fromRow fromCol targetRow targetCol
  | King =>
      (Z.abs (fromRow - targetRow) <=? 1) && (Z.abs (fromCol - targetCol) <=? 1)
  | Knight =>
      let rowDiff := Z.abs (fromRow - targetRow) in
      let colDiff := Z.abs (fromCol - targetCol) in
      ((rowDiff =? 2) && (colDiff =? 1)) || ((rowDiff =? 1) && (colDiff =? 2))
  end.

Definition isSquareUnderAttackSimple (s : State) (row col : Z)
  (defenderColor : Color) : bool :=
  let attackerColor := opponent defenderColor in
  existsb (fun rc =>
             match cell (board s) (fst rc) (snd rc) with
             | Some piece =>
                 Color_eqb (color piece) attackerColor
                 && canPieceAttackSimple (board s) piece (fst rc) (snd rc)
                                         row col
             | None => false
             end) squares.

Definition isInCheckSimple (s : State) (color0 : Color) : bool :=
  match findKing (board s) color0 with
  | None => false
  | Some (kingRow, kingCol) =>
      let opponentColor := opponent color0 in
      existsb (fun rc =>
                 match cell (board s) (fst rc) (snd rc) with
                 | Some piece =>
                     Color_eqb (color piece) opponentColor
                     && canPieceAttackSimple (board s) piece (fst rc) (snd rc)
                                             kingRow kingCol
                 | None => false
                 end) squares
  end.

Definition canCastle (s : State) (color0 : Color) (side : Side) : bool :=
  let row := homeRow color0 in
  let rights := rights_of (castlingRights s) color0 in
  if negb (king rights) then false
  else if match side with
          | kingside => negb (rookKing rights)
          | queenside => negb (rookQueen rights)
          end then false
  else if isInCheckSimple s color0 then false
  else
    match side with
    | kingside =>
        forallb (fun col =>
                   isEmpty (board s) row col
                   && negb (isSquareUnderAttackSimple s row col color0))
                [5; 6]
    | queenside =>
        forallb (fun col =>
                   isEmpty (board s) row col
                   && negb ((col >=? 2)
                            && isSquareUnderAttackSimple s row col color0))
                [1; 2; 3]
    end.

Definition noRights : SideRights := mkSideRights false false false.

Definition handleCastling (s : State) (side : Side) (prevBoard : Board)
  : bool * State :=
  let row := homeRow (currentPlayer s) in
  let king0 := cell (board s) row 4 in
  if negb (canCastle s (currentPlayer s) side) then (false, s)
  else
    let b := board s in
    let s1 :=
      match side with
      | kingside =>
          let b := set_cell b row 6 king0 in
          let b := set_cell b row 5 (cell b row 7) in
          let b := set_cell b row 4 None in
          let b := set_cell b row 7 None in
          set_moveHistory (set_board s b) (moveHistory s ++ ["O-O"])%list
      | queenside =>
          let b := set_cell b row 2 king0 in
          let b := set_cell b row 3 (cell b row 0) in
          let b := set_cell b row 4 None in
          let b := set_cell b row 0 None in
          set_moveHistory (set_board s b) (moveHistory s ++ ["O-O-O"])%list
      end in
    let s2 :=
      match currentPlayer s1 with
      | White =>
          set_castling s1
            (mkCastlingRights noRights (black (castlingRights s1)))
            (mkFenCastling false false
               (fenk (fenCastling s1)) (fenq (fenCastling s1)))
      | Black =>
          set_castling s1
            (mkCastlingRights (white (castlingRights s1)) noRights)
            (mkFenCastling (fenK (fenCastling s1)) (fenQ (fenCastling s1))
               false false)
      end in
    (true, set_currentPlayer s2 (opponent (currentPlayer s2))).

Definition updateCastlingRights (s : State) (piece : Piece)
  (fromRow fromCol : Z) : State :=
  let cr := castlingRights s in
  let fc := fenCastling s in
  match type piece, color piece with
  | King, White =>
      set_castling s
        (mkCastlingRights
           (mkSideRights false (rookQueen (white cr)) (rookKing (white cr)))
           (black cr))
        (mkFenCastling false false (fenk fc) (fenq fc))
  | King, Black =>
      set_castling s
        (mkCastlingRights
           (white cr)
           (mkSideRights false (rookQueen (black cr)) (rookKing (black cr))))
        (mkFenCastling (fenK fc) (fenQ fc) false false)
  | Rook, White =>
      if fromCol =? 0 then
        set_castling s
          (mkCastlingRights
             (mkSideRights (king (white cr)) false (rookKing (white cr)))
             (black cr))
          (mkFenCastling (fenK fc) false (fenk fc) (fenq fc))
      else if fromCol =? 7 then
        set_castling s
          (mkCastlingRights
             (mkSideRights (king (white cr)) (rookQueen (white cr)) false)
             (black cr))
          (mkFenCastling false (fenQ fc) (fenk fc) (fenq fc))
      else s
  | Rook, Black =>
      if fromCol =? 0 then
        set_castling s
          (mkCastlingRights
             (white cr)
             (mkSideRights (king (black cr)) false (rookKing (black cr))))
          (mkFenCastling (fenK fc) (fenQ fc) (fenk fc) false)
      else if fromCol =? 7 then
        set_castling s
          (mkCastlingRights
             (white cr)
             (mkSideRights (king (black cr)) (rookQueen (black cr)) false))
          (mkFenCastling (fenK fc) (fenQ fc) false (fenq fc))
      else s
  | _, _ => s
  end.

(** ** En passant and promotion *)

Definition handleEnPassant (s : State) (piece : Piece)
  (fromRow fromCol toRow toCol : Z) : bool * State :=
  if PieceType_eqb (type piece) Pawn
     && isEmpty (board s) toRow toCol
     && (Z.abs (toCol - fromCol) =? 1)
     && isEnPassantSquare (fenEnPassant s) toRow toCol
  then
    let capturedPawnRow :=
      match color piece with White => toRow + 1 | Black => toRow - 1 end in
    (true, set_board s (set_cell (board s) capturedPawnRow toCol None))
  else (false, s).

Definition updateEnPassantTarget (s : State) (piece : Piece)
  (fromRow fromCol toRow toCol : Z) : State :=
  let s := set_fenEnPassant s "-" in
  if PieceType_eqb (type piece) Pawn && (Z.abs (toRow - fromRow) =? 2) then
    let epCol := fromCol in
    let epRow := (fromRow + toRow) / 2 in
    set_fenEnPassant s (fromCharCode (97 + epCol) ++ numToString (8 - epRow))
  else s.

Definition isPawnPromotion (s : State) (fromRow fromCol toRow toCol : Z)
  : bool :=
  match cell (board s) fromRow fromCol with
  | Some piece =>
      if PieceType_eqb (type piece) Pawn then
        (Color_eqb (color piece) White && (toRow =? 0))
        || (Color_eqb (color piece) Black && (toRow =? 7))
      else false
  | None => false
  end.

Definition saveGameState (s : State) : State :=
  set_gameStateHistory s
    (gameStateHistory s ++
       [ mkSnapshot (deepCopyBoard (board s)) (currentPlayer s)
           (castlingRights s) (fenCastling s) (fenEnPassant s)
           (halfmoveClock s) (moveHistory s) ])%list.

(** ** Move notation *)

Definition pieceLetter (t : PieceType) : string :=
  match t with
  | Knight => "N" | King => "K" | Queen => "Q" | Rook => "R" | Bishop => "B"
  | Pawn => "P"
  end.

(** [getDisambiguation]: [prevBoard] is installed as [this.board] while the
    other pieces of the same type and colour are tested with [isValidMove]. *)
Definition getDisambiguation (s : State) (piece : Piece)
  (fromRow fromCol toRow toCol : Z) (prevBoard : Board) : string :=
  let sameTypePieces :=
    filter (fun rc =>
              match cell prevBoard (fst rc) (snd rc) with
              | Some otherPiece =>
                  PieceType_eqb (type otherPiece) (type piece)
                  && Color_eqb (color otherPiece) (color piece)
                  && (negb (fst rc =? fromRow) || negb (snd rc =? fromCol))
                  && isValidMove (set_board s prevBoard)
                                 (fst rc) (snd rc) toRow toCol
              | None => false
              end) squares in
  if Z.of_nat (List.length sameTypePieces) =? 0 then ""
  else
    let sameFile := filter (fun p => snd p =? fromCol) sameTypePieces in
    if Z.of_nat (List.length sameFile) =? 0 then fromCharCode (97 + fromCol)
    else
      let sameRank := filter (fun p => fst p =? fromRow) sameTypePieces in
      if Z.of_nat (List.length sameRank) =? 0 then numToString (8 - fromRow)
      else (fromCharCode (97 + fromCol) ++ numToString (8 - fromRow))%string.

(** [getAlgebraicNotation(fromRow, fromCol, toRow, toCol,
      { isCapture, promotion, prevBoard, isEnPassant })]; [promotion], which
    [makeMove] never passes, stands for [promotion.toUpperCase()]. *)
Definition getAlgebraicNotation (s : State) (fromRow fromCol toRow toCol : Z)
  (isCapture : bool) (promotion : option string) (prevBoard : Board)
  (isEnPassant : bool) : string :=
  let actualPiece :=
    match cell (board s) fromRow fromCol with
    | Some piece => Some piece
    | None => cell prevBoard fromRow fromCol
    end in
  match actualPiece with
  | None => "??"
  | Some actualPiece =>
      let fromFile := fromCharCode (97 + fromCol) in
      let toFile := fromCharCode (97 + toCol) in
      let toRank := numToString (8 - toRow) in
      let notation :=
        match type actualPiece with
        | Pawn =>
            let notation :=
              if isCapture || isEnPassant
              then (fromFile ++ "x" ++ toFile ++ toRank)%string
              else (toFile ++ toRank)%string in
            let notation :=
              match promotion with
              | Some p => (notation ++ "=" ++ p)%string
              | None => notation
              end in
            if isEnPassant then (notation ++ " e.p.")%string else notation
        | t =>
            let notation := pieceLetter t in
            let notation :=
              (notation ++ getDisambiguation s actualPiece fromRow fromCol
                             toRow toCol prevBoard)%string in
            let notation :=
              if isCapture then (notation ++ "x")%string else notation in
            (notation ++ toFile ++ toRank)%string
        end in
      let opponentColor := opponent (color actualPiece) in
      if isInCheck s opponentColor then
        if Z.of_nat (List.length (getAllLegalMovesForColor s opponentColor)) =? 0
        then (notation ++ "#")%string
        else (notation ++ "+")%string
      else notation
  end.

(** ** The results of [makeMove] *)

(** [false], [true] and ['promotion']. *)
Inductive MoveResult := RFalse | RTrue | RPromotion.

(** What a call does: it returns a value, or a [TypeError] leaves it. *)
Inductive Outcome (A : Type) := Threw | Returned (a : A).
Arguments Threw {A}.
Arguments Returned {A} a.

Definition sideOf (toCol : Z) : Side :=
  if toCol =? 6 then kingside else queenside.

Definition resultOf (b : bool) : MoveResult := if b then RTrue else RFalse.

(** The part of [makeMove] after the validation of a move of [piece]. *)
Definition executeMove (s : State) (piece : Piece)
  (fromRow fromCol toRow toCol : Z) : MoveResult * State :=
  let s := saveGameState s in
  let prevBoard := deepCopyBoard (board s) in
  if isCastlingMove (Some piece) fromRow fromCol toRow toCol then
    let r := handleCastling s (sideOf toCol) prevBoard in
    (resultOf (fst r), snd r)
  else
    let s := updateCastlingRights s piece fromRow fromCol in
    let ep := handleEnPassant s piece fromRow fromCol toRow toCol in
    let isEnPassant := fst ep in
    let s := snd ep in
    let s := updateEnPassantTarget s piece fromRow fromCol toRow toCol in
    let isCapture :=
      match cell (board s) toRow toCol with
      | Some target => negb (Color_eqb (color target) (color piece))
      | None => false
      end in
    let s :=
      if PieceType_eqb (type piece) Pawn || isCapture || isEnPassant
      then set_halfmoveClock s 0
      else set_halfmoveClock s (halfmoveClock s + 1) in
    if isPawnPromotion s fromRow fromCol toRow toCol then
      (RPromotion,
       set_pendingPromotion s
         (Some (mkPromotion fromRow fromCol toRow toCol (color piece))))
    else
      let s :=
        set_board s (set_cell (set_cell (board s) toRow toCol (Some piece))
                              fromRow fromCol None) in
      let algebraicNotation :=
        getAlgebraicNotation s fromRow fromCol toRow toCol
          (isCapture || isEnPassant) None prevBoard isEnPassant in
      let s := set_moveHistory s (moveHistory s ++ [algebraicNotation])%list in
      let s := set_currentPlayer s (opponent (currentPlayer s)) in
      let positionKey := generatePositionKey s in
      let s := set_positionHistory s (positionHistory s ++ [positionKey])%list in
      (RTrue, snd (checkGameEndConditions s)).

(** [makeMove].  [board[fromRow]] is [undefined] for a row outside the
    board and reading [[fromCol]] of it throws.  When the square read holds
    no piece [isCastlingMove] is falsy and [isValidMove] is false, so the
    last branch, where [piece.type] would be read on [null], is never
    taken. *)
Definition makeMove (s : State) (fromRow fromCol toRow toCol : Z)
  : Outcome (MoveResult * State) :=
  if (match pendingPromotion s with Some _ => true | None => false end)
     || isGameOver s
  then Returned (RFalse, s)
  else
    match row_at (board s) fromRow with
    | None => Threw
    | Some _ =>
        let piece := cell (board s) fromRow fromCol in
        match piece with
        | Some king0 =>
            if isCastlingMove piece fromRow fromCol toRow toCol then
              let side := sideOf toCol in
              if canCastle s (color king0) side then
                let r := handleCastling s side (deepCopyBoard (board s)) in
                Returned (resultOf (fst r), snd r)
              else Returned (RFalse, s)
            else if negb (isValidMove s fromRow fromCol toRow toCol)
            then Returned (RFalse, s)
            else Returned (executeMove s king0 fromRow fromCol toRow toCol)
        | None =>
            if negb (isValidMove s fromRow fromCol toRow toCol)
            then Returned (RFalse, s)
            else Threw
        end
    end.

(** ** Promotion, as the user interface completes it *)

Inductive PromotionChoice := ToQueen | ToRook | ToBishop | ToKnight.

Definition choiceType (c : PromotionChoice) : PieceType :=
  match c with
  | ToQueen => Queen | ToRook => Rook | ToBishop => Bishop | ToKnight => Knight
  end.

Definition choiceSymbol (c : PromotionChoice) (col : Color) : Symbol :=
  match c, col with
  | ToQueen, White => SymWQ | ToQueen, Black => SymBQ
  | ToRook, White => SymWR | ToRook, Black => SymBR
  | ToBishop, White => SymWB | ToBishop, Black => SymBB
  | ToKnight, White => SymWN | ToKnight, Black => SymBN
  end.

Definition getPromotionNotation (promotion : Promotion)
  (pieceType : PromotionChoice) : string :=
  let fromFile := fromCharCode (97 + fromCol promotion) in
  let toFile := fromCharCode (97 + toCol promotion) in
  let toRank := numToString (8 - toRow promotion) in
  (fromFile ++ toFile ++ toRank ++ "=" ++ pieceLetter (choiceType pieceType))%string.

(** [UIManager.executePromotion(pieceType)], restricted to what it does to
    the engine. *)
Definition executePromotion (s : State) (pieceType : PromotionChoice)
  : Outcome State :=
  match pendingPromotion s with
  | None => Returned s
  | Some promotion =>
      match cell (board s) (fromRow promotion) (fromCol promotion) with
      | None => Threw
      | Some piece =>
          let b :=
            set_cell (board s) (toRow promotion) (toCol promotion)
              (Some (mkPiece (choiceSymbol pieceType (color piece))
                             (choiceType pieceType) (color piece))) in
          let b := set_cell b (fromRow promotion) (fromCol promotion) None in
          let s := set_board s b in
          let notation := getPromotionNotation promotion pieceType in
          let s := set_moveHistory s (moveHistory s ++ [notation])%list in
          let s := set_currentPlayer s (opponent (currentPlayer s)) in
          let s := set_pendingPromotion s None in
          Returned (snd (checkGameEndConditions s))
      end
  end.

(** ** Playing a sequence of moves *)

(** Feeds the moves to [makeMove] one after the other, as long as each is
    completed ([true]); [None] when a call does anything else. *)
Fixpoint play (s : State) (moves : list (Z * Z * Z * Z)) : option State :=
  match moves with
  | [] => Some s
  | (fr, fc, tr, tc) :: rest =>
      match makeMove s fr fc tr tc with
      | Returned (RTrue, s') => play s' rest
      | _ => None
      end
  end.

(** ** The piece-move parser of the user interface *)

(** [parseInt(s)] on the strings the parser's regular expressions let
    through (letters [a-h] and digits [1-8]): the number written by the
    leading digits, [NaN] (here [None]) when there is none. *)
Fixpoint parseInt_digits (s : string) (acc : option Z) : option Z :=
  match s with
  | EmptyString => acc
  | String a rest =>
      match parseDigit a with
      | Some d =>
          parseInt_digits rest
            (Some (10 * match acc with Some n => n | None => 0 end + d))
      | None => acc
      end
  end.

Definition parseInt (s : string) : option Z := parseInt_digits s None.

(** [pieceSymbols[pieceType]] of [findPieceForMove], for the player to move. *)
Definition pieceSymbols (currentPlayer : Color) (pieceType : PieceType)
  : Symbol :=
  match pieceType, currentPlayer with
  | King, White => SymWK | King, Black => SymBK
  | Queen, White => SymWQ | Queen, Black => SymBQ
  | Rook, White => SymWR | Rook, Black => SymBR
  | Bishop, White => SymWB | Bishop, Black => SymBB
  | Knight, White => SymWN | Knight, Black => SymBN
  | Pawn, White => SymWP | Pawn, Black => SymBP
  end.

(** The body of the collecting loop of [findPieceForMove]: what the square
    [rc] adds to [candidates]. *)
Definition candidateAt (s : State) (targetSymbol : Symbol) (rc : Z * Z)
  : list (Z * Z * Piece) :=
  match cell (board s) (fst rc) (snd rc) with
  | Some piece =>
      if Color_eqb (color piece) (currentPlayer s)
         && Symbol_eqb (symbol piece) targetSymbol
      then [(fst rc, snd rc, piece)] else []
  | None => []
  end.

(** The candidates of [findPieceForMove]: the squares, in row-major order,
    that hold a piece of the player to move with the wanted glyph, narrowed
    by the disambiguation text when there is one. *)
Definition candidatesFor (s : State) (pieceType : PieceType)
  (disambiguation : string) : list (Z * Z * Piece) :=
  let targetSymbol := pieceSymbols (currentPlayer s) pieceType in
  let candidates := flat_map (candidateAt s targetSymbol) squares in
  if String.eqb disambiguation "" then candidates
  else if Z.of_nat (String.length disambiguation) =? 1 then
    filter (fun c =>
              match charCodeAt0 disambiguation with
              | Some code => snd (fst c) =? code - 97
              | None => false
              end) candidates
  else
    filter (fun c =>
              match parseInt disambiguation with
              | Some n => fst (fst c) =? 8 - n
              | None => false
              end) candidates.

(** The final loop of [findPieceForMove]. *)
Fixpoint firstLegal (s : State) (candidates : list (Z * Z * Piece))
  (toRow toCol : Z) : option (Z * Z * Piece) :=
  match candidates with
  | [] => None
  | candidate :: rest =>
      let ownTarget :=
        match cell (board s) toRow toCol with
        | Some targetPiece => Color_eqb (color targetPiece) (currentPlayer s)
        | None => false
        end in
      if ownTarget then firstLegal s rest toRow toCol
      else if isValidMove s (fst (fst candidate)) (snd (fst candidate))
                          toRow toCol
      then Some candidate
      else firstLegal s rest toRow toCol
  end.

Definition findPieceForMove (s : State) (pieceType : PieceType)
  (disambiguation : string) (toRow toCol : Z) : option (Z * Z * Piece) :=
  firstLegal s (candidatesFor s pieceType disambiguation) toRow toCol.

(** [handlePieceMove(match)] with [match[1]], [match[2]] and the square
    named by [match[3]], a file letter and a rank digit. *)
Definition handlePieceMove (s : State) (pieceType : PieceType)
  (disambiguation : string) (toRow toCol : Z) : Outcome (MoveResult * State) :=
  match findPieceForMove s pieceType disambiguation toRow toCol with
  | Some piece => makeMove s (fst (fst piece)) (snd (fst piece)) toRow toCol
  | None => Returned (RFalse, s)
  end.

(** Runs a game from the starting position; the starting position itself
    when some move of the game is not completed. *)
Definition replay (moves : list (Z * Z * Z * Z)) : State :=
  match play initialState moves with
  | Some s => s
  | None => initialState
  end.

(** ** Games used as concrete inputs

    A move is [(fromRow, fromCol, toRow, toCol)]; the comments give the
    moves in algebraic notation. *)

(** 1. e4 a5 2. e5 a4 3. Ke2 Ra5 4. Kf3 b6 5. Kg4 c6 6. Kh5 d5:
    white king h5, white pawn e5, black pawn d5 and black rook a5 share the
    fifth rank; the en-passant target is d6. *)
Definition game_enPassantPin : list (Z * Z * Z * Z) :=
  [ (6,4,4,4); (1,0,3,0); (4,4,3,4); (3,0,4,0); (7,4,6,4); (0,0,3,0);
    (6,4,5,5); (1,1,2,1); (5,5,4,6); (1,2,2,2); (4,6,3,7); (1,3,3,3) ].

(** 1. d4 d5 2. Bf4 Bf5 3. Qd3 Qd6: c1 and d1 are empty, the knight is
    still on b1. *)
Definition game_queensideBlocked : list (Z * Z * Z * Z) :=
  [ (6,3,4,3); (1,3,3,3); (7,2,4,5); (0,2,3,5); (7,3,5,3); (0,3,2,3) ].

(** 1. Nh3 b6 2. g4 Bb7 3. Bg2 Bxg2 4. a3 Bxh1: the rook of h1 has been
    captured on its home square and a black bishop stands there. *)
Definition game_rookCaptured : list (Z * Z * Z * Z) :=
  [ (7,6,5,7); (1,1,2,1); (6,6,4,6); (0,2,1,1); (7,5,6,6); (1,1,6,6);
    (6,0,5,0); (6,6,7,7) ].

(** 1. e4 e5 2. Nf3 Nc6 3. Bc4 h5: black has just advanced a pawn two
    squares and white can castle. *)
Definition game_doubleStepThenCastle : list (Z * Z * Z * Z) :=
  [ (6,4,4,4); (1,4,3,4); (7,6,5,5); (0,1,2,2); (7,5,4,2); (1,7,3,7) ].

(** 1. e4 e5 2. Nf3 Nc6 3. Bc4 Bc5 *)
Definition game_italian : list (Z * Z * Z * Z) :=
  [ (6,4,4,4); (1,4,3,4); (7,6,5,5); (0,1,2,2); (7,5,4,2); (0,5,3,2) ].

(** Ed. Lasker - Thomas, London 1912, up to 17... Kg1:
    1. d4 e6 2. Nf3 f5 3. Nc3 Nf6 4. Bg5 Be7 5. Bxf6 Bxf6 6. e4 fxe4
    7. Nxe4 b6 8. Ne5 O-O 9. Bd3 Bb7 10. Qh5 Qe7 11. Qxh7+ Kxh7
    12. Nxf6+ Kh6 13. Neg4+ Kg5 14. h4+ Kf4 15. g3+ Kf3 16. Be2+ Kg2
    17. Rh2+ Kg1; castling queenside now mates. *)
Definition game_laskerThomas : list (Z * Z * Z * Z) :=
  [ (6,3,4,3); (1,4,2,4); (7,6,5,5); (1,5,3,5); (7,1,5,2); (0,6,2,5);
    (7,2,3,6); (0,5,1,4); (3,6,2,5); (1,4,2,5); (6,4,4,4); (3,5,4,4);
    (5,2,4,4); (1,1,2,1); (5,5,3,4); (0,4,0,6); (7,5,5,3); (0,2,1,1);
    (7,3,3,7); (0,3,1,4); (3,7,1,7); (0,6,1,7); (4,4,2,5); (1,7,2,7);
    (3,4,4,6); (2,7,3,6); (6,7,4,7); (3,6,4,5); (6,6,5,6); (4,5,5,5);
    (5,3,6,4); (5,5,6,6); (7,7,6,7); (6,6,7,6) ].

(** 1. e3 a5 2. Ke2 Nf6 3. Nf3 Ng8: white king e2, white knight f3. *)
Definition game_kingE2 : list (Z * Z * Z * Z) :=
  [ (6,4,5,4); (1,0,3,0); (7,4,6,4); (0,6,2,5); (7,6,5,5); (2,5,0,6) ].

(** 1. e3 a6 2. Ke2 a5 3. Kf3 Nf6 4. Ne2 Ng8: white knight e2, white king
    f3, everything else as after [game_kingE2]. *)
Definition game_knightE2 : list (Z * Z * Z * Z) :=
  [ (6,4,5,4); (1,0,2,0); (7,4,6,4); (2,0,3,0); (6,4,5,5); (0,6,2,5);
    (7,6,6,4); (2,5,0,6) ].

(** 1. d4 d5 2. Nf3 Nf6: the white knights of b1 and f3 can both go to d2. *)
Definition game_twoKnights : list (Z * Z * Z * Z) :=
  [ (6,3,4,3); (1,3,3,3); (7,6,5,5); (0,6,2,5) ].

(** 1. a4 b5 2. axb5 a6 3. bxa6 Bb7 4. a7 Bc6: the white pawn of a7 can
    capture on b8. *)
Definition game_promotion : list (Z * Z * Z * Z) :=
  [ (6,0,4,0); (1,1,3,1); (4,0,3,1); (1,0,2,0); (3,1,2,0); (0,2,1,1);
    (2,0,1,0); (1,1,2,2) ].

(** The states reached by these games, computed once. *)
Definition after_enPassantPin : State :=
  Eval vm_compute in replay game_enPassantPin.
Definition after_queensideBlocked : State :=
  Eval vm_compute in replay game_queensideBlocked.
Definition after_rookCaptured : State :=
  Eval vm_compute in replay game_rookCaptured.
Definition after_doubleStepThenCastle : State :=
  Eval vm_compute in replay game_doubleStepThenCastle.
Definition after_italian : State :=
  Eval vm_compute in replay game_italian.
Definition after_laskerThomas : State :=
  Eval vm_compute in replay game_laskerThomas.
Definition after_kingE2 : State :=
  Eval vm_compute in replay game_kingE2.
Definition after_knightE2 : State :=
  Eval vm_compute in replay game_knightE2.
Definition after_twoKnights : State :=
  Eval vm_compute in replay game_twoKnights.
Definition after_promotion : State :=
  Eval vm_compute in replay game_promotion.

(** The state in which the capture a7xb8 is suspended after
    [game_promotion]. *)
Definition after_promotionPending : State :=
  Eval vm_compute in
    match makeMove after_promotion 1 0 0 1 with
    | Returned (_, s) => s
    | Threw => after_promotion
    end.

(** 1. a4 b5 2. axb5 a6 3. bxa6 Bb7 4. a7 h5: the pawn of a7 can capture on
    b8 while h6 is the en-passant target. *)
Definition game_promotionWithTarget : list (Z * Z * Z * Z) :=
  [ (6,0,4,0); (1,1,3,1); (4,0,3,1); (1,0,2,0); (3,1,2,0); (0,2,1,1);
    (2,0,1,0); (1,7,3,7) ].

Definition after_promotionWithTarget : State :=
  Eval vm_compute in replay game_promotionWithTarget.

(** The state in which the capture a7xb8 is suspended after
    [game_promotionWithTarget]. *)
Definition after_promotionWithTargetPending : State :=
  Eval vm_compute in
    match makeMove after_promotionWithTarget 1 0 0 1 with
    | Returned (_, s) => s
    | Threw => after_promotionWithTarget
    end.

(** A sequence of calls of [makeMove], whatever they return: the results
    in order and the final state. *)
Fixpoint attempts (s : State) (moves : list (Z * Z * Z * Z))
  : Outcome (list MoveResult * State) :=
  match moves with
  | [] => Returned ([], s)
  | (fr, fc, tr, tc) :: rest =>
      match makeMove s fr fc tr tc with
      | Threw => Threw
      | Returned (r, s') =>
          match attempts s' rest with
          | Threw => Threw
          | Returned (rs, s'') => Returned (r :: rs, s'')
          end
      end
  end.

(** The moves completed in a game, each with the player who made it, the
    type of the piece that stood on the square of origin (for a castling,
    the king) and that square. *)
Fixpoint movesMade (s : State) (moves : list (Z * Z * Z * Z))
  : list (Color * PieceType * (Z * Z)) :=
  match moves with
  | [] => []
  | (fr, fc, tr, tc) :: rest =>
      match makeMove s fr fc tr tc, cell (board s) fr fc with
      | Returned (RTrue, s'), Some piece =>
          (currentPlayer s, type piece, (fr, fc)) :: movesMade s' rest
      | Returned (RTrue, s'), None => movesMade s' rest
      | _, _ => []
      end
  end.

(** ** Notions used in the statements *)

Definition onBoard (r c : Z) : Prop := 0 <= r <= 7 /\ 0 <= c <= 7.

(** The far rank of a colour: row 0 for white, row 7 for black. *)
Definition farRank (c : Color) : Z :=
  match c with White => 0 | Black => 7 end.














(** The en-passant string is ["-"] or names a square of rank 3 or 6. *)
Definition enPassantWellFormed (e : string) : Prop :=
  e = "-" \/
  exists a : ascii, e = String a "3" \/ e = String a "6".

(** The states the engine goes through: from the starting position (also
    restored by [initializeBoard]), by calls of [makeMove], by promotions
    completed by the interface, and by the calls that the interface and the
    application make to [checkGameEndConditions] and [handleCastling]. *)
Inductive reachable : State -> Prop :=
| reachable_initial : reachable initialState
| reachable_makeMove : forall s fromRow fromCol toRow toCol r s',
    reachable s ->
    makeMove s fromRow fromCol toRow toCol = Returned (r, s') ->
    reachable s'
| reachable_promotion : forall s choice s',
    reachable s ->
    executePromotion s choice = Returned s' ->
    reachable s'
| reachable_checkGameEnd : forall s,
    reachable s ->
    reachable (snd (checkGameEndConditions s))
| reachable_handleCastling : forall s side prevBoard,
    reachable s ->
    reachable (snd (handleCastling s side prevBoard)).

(** ** [isSquareUnderAttack] *)

Definition isSquareUnderAttack (s : State) (row col : Z)
  (defenderColor : Color) : bool :=
  let attackerColor := opponent defenderColor in
  existsb (fun rc =>
             match cell (board s) (fst rc) (snd rc) with
             | Some piece =>
                 Color_eqb (color piece) attackerColor
                 && canPieceAttack s piece (fst rc) (snd rc) row col (board s)
             | None => false
             end) squares.

(** ** Notions used in the further properties *)

(** Two squares on a common row, column or diagonal, and the number of
    steps from one to the other. *)
Definition aligned (fromRow fromCol toRow toCol : Z) : Prop :=
  fromRow = toRow \/ fromCol = toCol
  \/ Z.abs (toRow - fromRow) = Z.abs (toCol - fromCol).

Definition distance (fromRow fromCol toRow toCol : Z) : Z :=
  Z.max (Z.abs (toRow - fromRow)) (Z.abs (toCol - fromCol)).

(** A short game in which white gives a check that is not a mate:
    1. e4 f5 2. Qh5+. *)
Definition game_beforeCheck : list (Z * Z * Z * Z) :=
  [ (6, 4, 4, 4); (1, 5, 3, 5) ].

Definition before_check : State :=
  Eval vm_compute in
    match play initialState game_beforeCheck with
    | Some s => s
    | None => initialState
    end.

Definition after_check : State :=
  Eval vm_compute in
    match makeMove before_check 7 3 3 7 with
    | Returned (_, s) => s
    | Threw => before_check
    end.

(** Every piece on the board satisfies [P]. *)
Definition allPieces (P : Piece -> Prop) (b : Board) : Prop :=
  forall r c p, cell b r c = Some p -> P p.

(** The glyph of a piece is the one of its type and colour. *)
Definition wellGlyphed (p : Piece) : Prop :=
  symbol p = pieceSymbols (color p) (type p).

(** The state after white castles kingside following [game_italian]. *)
Definition after_italianCastled : State :=
  Eval vm_compute in
    match makeMove after_italian 7 4 7 6 with
    | Returned (_, s) => s
    | Threw => after_italian
    end.

(** A pending promotion names a square of the seventh or second rank that
    holds a piece. *)
Definition pendingWellFormed (s : State) : Prop :=
  match pendingPromotion s with
  | None => True
  | Some promotion =>
      (fromRow promotion = 1 \/ fromRow promotion = 6) /\
      exists piece,
        cell (board s) (fromRow promotion) (fromCol promotion) = Some piece
  end.

(** The castling letters that correspond to a record of castling rights:
    a letter stands for an unmoved king together with the unmoved rook of
    that side. *)
Definition fenCastlingOf (cr : CastlingRights) : FenCastling :=
  mkFenCastling (king (white cr) && rookKing (white cr))
                (king (white cr) && rookQueen (white cr))
                (king (black cr) && rookKing (black cr))
                (king (black cr) && rookQueen (black cr)).

Definition castlingConsistent (s : State) : Prop :=
  fenCastling s = fenCastlingOf (castlingRights s).

(** The position after 1. e4. *)
Definition after_e4 : State :=
  Eval vm_compute in replay [ (6, 4, 4, 4) ].

(** 1. e4 e5 2. Nf3 Nf6 3. Bc4 Bc5: white is to move and both players can
    castle on the king's side. *)
Definition game_bothCanCastle : list (Z * Z * Z * Z) :=
  [ (6,4,4,4); (1,4,3,4); (7,6,5,5); (0,6,2,5); (7,5,4,2); (0,5,3,2) ].

Definition after_bothCanCastle : State :=
  Eval vm_compute in replay game_bothCanCastle.

(** White is to move exactly when an even number of moves is recorded. *)
Definition turnMatchesHistory (s : State) : Prop :=
  currentPlayer s
  = if Nat.even (List.length (moveHistory s)) then White else Black.

(** What a call of [makeMove] with result [r] does to the move history and
    to the turn. *)
Definition recordedAs (r : MoveResult) (s s' : State) : Prop :=
  match r with
  | RTrue =>
      (exists notation,
          moveHistory s' = (moveHistory s ++ [notation])%list) /\
      currentPlayer s' = opponent (currentPlayer s)
  | RPromotion | RFalse =>
      moveHistory s' = moveHistory s /\ currentPlayer s' = currentPlayer s
  end.

(** * The user interface

    The part of [UIManager] that decides which calls the engine receives:
    the text field, the clicks on the board and the promotion dialog.
    Rendering and messages are left out.  A text is a string of code units
    below 256. *)

(** ** Texts *)

Definition codeOf (a : ascii) : Z := Z.of_nat (nat_of_ascii a).

(** The white space and line terminators that [String.prototype.trim]
    removes, among the code units below 256. *)
Definition isWhiteSpace (a : ascii) : bool :=
  ((9 <=? codeOf a) && (codeOf a <=? 13))
  || (codeOf a =? 32) || (codeOf a =? 160).

Fixpoint trimStart (s : string) : string :=
  match s with
  | EmptyString => EmptyString
  | String a rest => if isWhiteSpace a then trimStart rest else s
  end.

Fixpoint trimEnd (s : string) : string :=
  match s with
  | EmptyString => EmptyString
  | String a rest =>
      match trimEnd rest with
      | EmptyString => if isWhiteSpace a then EmptyString else String a EmptyString
      | rest' => String a rest'
      end
  end.

Definition trim (s : string) : string := trimEnd (trimStart s).

(** [String.prototype.toLowerCase] on the code units below 256: the
    letters A-Z and the accented capitals 192-222, the sign 215 apart. *)
Definition toLowerChar (a : ascii) : ascii :=
  if ((65 <=? codeOf a) && (codeOf a <=? 90))
     || ((192 <=? codeOf a) && (codeOf a <=? 222) && negb (codeOf a =? 215))
  then ascii_of_nat (nat_of_ascii a + 32)
  else a.

Fixpoint toLowerCase (s : string) : string :=
  match s with
  | EmptyString => EmptyString
  | String a rest => String (toLowerChar a) (toLowerCase rest)
  end.

(** [s.includes(a)] for a one-character [a]. *)
Fixpoint includes (s : string) (a : ascii) : bool :=
  match s with
  | EmptyString => false
  | String b rest => Ascii.eqb b a || includes rest a
  end.

(** ** The regular expressions of the parser *)

(** [[a-h]], [[1-8]], [[kqrbn]] and [[qrbn]]. *)
Definition isFileChar (a : ascii) : bool :=
  (97 <=? codeOf a) && (codeOf a <=? 104).

Definition isRankChar (a : ascii) : bool :=
  (49 <=? codeOf a) && (codeOf a <=? 56).

Definition isPromotionChar (a : ascii) : bool :=
  Ascii.eqb a "q" || Ascii.eqb a "r" || Ascii.eqb a "b" || Ascii.eqb a "n".

Definition isPieceChar (a : ascii) : bool :=
  Ascii.eqb a "k" || isPromotionChar a.

(** A square as a regular expression captures it: a file letter and a rank
    digit. *)
Definition SquareText : Type := ascii * ascii.

(** [8 - parseInt(square[1])] and [square.charCodeAt(0) - 97], for a
    captured square. *)
Definition rowOf (square : SquareText) : Z := 8 - (codeOf (snd square) - 48).
Definition colOf (square : SquareText) : Z := codeOf (fst square) - 97.

(** [/^([a-h][1-8])([a-h][1-8])([qrbn])?$/] *)
Definition coordinateMatch (move : string)
  : option (SquareText * SquareText * option ascii) :=
  match move with
  | String f1 (String r1 (String f2 (String r2 rest))) =>
      if isFileChar f1 && isRankChar r1 && isFileChar f2 && isRankChar r2
      then
        match rest with
        | EmptyString => Some ((f1, r1), (f2, r2), None)
        | String p EmptyString =>
            if isPromotionChar p then Some ((f1, r1), (f2, r2), Some p)
            else None
        | _ => None
        end
      else None
  | _ => None
  end.

(** The common end of the two other expressions, read from the right.
    [(?:=([qrbn]))?$] *)
Definition promotionEnd (rest : string) : option (option ascii) :=
  match rest with
  | EmptyString => Some None
  | String e (String p EmptyString) =>
      if Ascii.eqb e "=" && isPromotionChar p then Some (Some p) else None
  | _ => None
  end.

(** [([a-h][1-8])(?:=([qrbn]))?$] *)
Definition squareEnd (rest : string) : option (SquareText * option ascii) :=
  match rest with
  | String f (String r rest') =>
      if isFileChar f && isRankChar r then
        match promotionEnd rest' with
        | Some promotion => Some ((f, r), promotion)
        | None => None
        end
      else None
  | _ => None
  end.

(** [x?([a-h][1-8])(?:=([qrbn]))?$]: the optional letter is tried first
    present, then absent. *)
Definition captureEnd (rest : string) : option (SquareText * option ascii) :=
  let withX :=
    match rest with
    | String x rest' => if Ascii.eqb x "x" then squareEnd rest' else None
    | EmptyString => None
    end in
  match withX with
  | Some m => Some m
  | None => squareEnd rest
  end.

(** The first alternative that matches, in the order in which a
    backtracking matcher tries them. *)
Fixpoint firstMatch {A : Type} (alternatives : list (option A)) : option A :=
  match alternatives with
  | [] => None
  | Some m :: _ => Some m
  | None :: rest => firstMatch rest
  end.

(** [/^([kqrbn])([a-h]?[1-8]?)?x?([a-h][1-8])(?:=([qrbn]))?$/].  The second
    group is tried with a file and a rank, with a file alone, with a rank
    alone, and last left out; left out, it is [undefined], which
    [findPieceForMove] treats like the empty string returned here. *)
Definition pieceMatch (move : string)
  : option (ascii * string * SquareText * option ascii) :=
  match move with
  | String p rest =>
      if isPieceChar p then
        let group2 (d : string) (rest' : string) :=
          match captureEnd rest' with
          | Some m => Some (p, d, fst m, snd m)
          | None => None
          end in
        firstMatch
          [ match rest with
            | String f (String k rest') =>
                if isFileChar f && isRankChar k
                then group2 (String f (String k EmptyString)) rest'
                else None
            | _ => None
            end;
            match rest with
            | String f rest' =>
                if isFileChar f then group2 (String f EmptyString) rest'
                else None
            | EmptyString => None
            end;
            match rest with
            | String k rest' =>
                if isRankChar k then group2 (String k EmptyString) rest'
                else None
            | EmptyString => None
            end;
            group2 EmptyString rest ]
      else None
  | EmptyString => None
  end.

(** [/^([a-h])?x?([a-h][1-8])(?:=([qrbn]))?$/] *)
Definition pawnMatch (move : string)
  : option (option ascii * SquareText * option ascii) :=
  firstMatch
    [ match move with
      | String f rest =>
          if isFileChar f then
            match captureEnd rest with
            | Some m => Some (Some f, fst m, snd m)
            | None => None
            end
          else None
      | EmptyString => None
      end;
      match captureEnd move with
      | Some m => Some (None, fst m, snd m)
      | None => None
      end ].

(** [/^([a-h][1-8])$/] *)
Definition simplePawnMatch (move : string) : option SquareText :=
  match move with
  | String f (String r EmptyString) =>
      if isFileChar f && isRankChar r then Some (f, r) else None
  | _ => None
  end.

(** The piece named by the letter that [pieceMatch] captured. *)
Definition pieceOfChar (a : ascii) : PieceType :=
  if Ascii.eqb a "k" then King
  else if Ascii.eqb a "q" then Queen
  else if Ascii.eqb a "r" then Rook
  else if Ascii.eqb a "b" then Bishop
  else Knight.

(** ** The interface and its page *)

(** The elements and the callback that the functions below look up:
    [true] when [document.getElementById] finds the element, and when
    [ChessApp] has installed [handleMoveComplete] as [onMoveComplete]. *)
Record Page := mkPage
  { localGameStatusEl : bool;
    promotionModalEl : bool;
    onMoveComplete : bool }.

Module UI.

Record Manager := mkManager
  { gameEngine : State;
    selectedSquare : option (Z * Z);
    promotionModalShown : bool }.

Definition set_gameEngine (u : Manager) (s : State) : Manager :=
  mkManager s (selectedSquare u) (promotionModalShown u).

Definition set_selectedSquare (u : Manager) (sq : option (Z * Z)) : Manager :=
  mkManager (gameEngine u) sq (promotionModalShown u).

(** [showPromotionModal] and [hidePromotionModal] *)
Definition showPromotionModal (page : Page) (u : Manager) : Manager :=
  if promotionModalEl page
  then mkManager (gameEngine u) (selectedSquare u) true
  else u.

Definition hidePromotionModal (page : Page) (u : Manager) : Manager :=
  if promotionModalEl page
  then mkManager (gameEngine u) (selectedSquare u) false
  else u.

(** [updateLocalGameStatus]: its only effect on the engine is the call of
    [checkGameEndConditions], made when the status element exists. *)
Definition updateLocalGameStatus (page : Page) (u : Manager) : Manager :=
  if localGameStatusEl page
  then set_gameEngine u (snd (checkGameEndConditions (gameEngine u)))
  else u.

(** [callbacks.onMoveComplete()], that is [ChessApp.handleMoveComplete]:
    its effect on the engine is the call of [checkGameEndConditions]. *)
Definition moveComplete (page : Page) (u : Manager) : Manager :=
  if onMoveComplete page
  then set_gameEngine u (snd (checkGameEndConditions (gameEngine u)))
  else u.

(** What the text handlers do with the result of [makeMove]: the status is
    updated after [true]. *)
Definition afterTextMove (page : Page) (u : Manager)
  (r : Outcome (MoveResult * State)) : Outcome (MoveResult * Manager) :=
  match r with
  | Threw => Threw
  | Returned (RTrue, s') =>
      Returned (RTrue, updateLocalGameStatus page (set_gameEngine u s'))
  | Returned (result, s') => Returned (result, set_gameEngine u s')
  end.

Definition handleSimplePawnMove (page : Page) (u : Manager)
  (toSquare : SquareText) : Outcome (MoveResult * Manager) :=
  let toRow := rowOf toSquare in
  let toCol := colOf toSquare in
  let pawnRow :=
    match currentPlayer (gameEngine u) with
    | White => toRow + 1
    | Black => toRow - 1
    end in
  let fromCol := toCol in
  if isValidMove (gameEngine u) pawnRow fromCol toRow toCol
  then afterTextMove page u (makeMove (gameEngine u) pawnRow fromCol toRow toCol)
  else Returned (RFalse, u).

Definition handleCastlingMove (page : Page) (u : Manager) (side : Side)
  : Outcome (MoveResult * Manager) :=
  let row := homeRow (currentPlayer (gameEngine u)) in
  match side with
  | kingside => afterTextMove page u (makeMove (gameEngine u) row 4 row 6)
  | queenside => afterTextMove page u (makeMove (gameEngine u) row 4 row 2)
  end.

(** The loop of [handlePawnMove] over [possiblePawnRows]: the first row
    that holds a pawn of the player to move decides. *)
Fixpoint handlePawnMove_loop (page : Page) (u : Manager)
  (possiblePawnRows : list Z) (fromCol toRow toCol : Z) (capture : bool)
  : Outcome (MoveResult * Manager) :=
  match possiblePawnRows with
  | [] => Returned (RFalse, u)
  | pawnRow :: rest =>
      let found :=
        if (pawnRow >=? 0) && (pawnRow <? 8) then
          match cell (board (gameEngine u)) pawnRow fromCol with
          | Some sourcePiece =>
              PieceType_eqb (type sourcePiece) Pawn
              && Color_eqb (color sourcePiece) (currentPlayer (gameEngine u))
          | None => false
          end
        else false in
      if found then
        if capture then
          match makeMove (gameEngine u) pawnRow fromCol toRow toCol with
          | Threw => Threw
          | Returned (RPromotion, s') =>
              Returned (RPromotion,
                        showPromotionModal page (set_gameEngine u s'))
          | Returned (RTrue, s') =>
              Returned (RTrue,
                        updateLocalGameStatus page (set_gameEngine u s'))
          | Returned (RFalse, s') => Returned (RFalse, set_gameEngine u s')
          end
        else
          afterTextMove page u
            (makeMove (gameEngine u) pawnRow fromCol toRow toCol)
      else handlePawnMove_loop page u rest fromCol toRow toCol capture
  end.

(** [handlePawnMove(match)]: [file] is [match[1]], [toSquare] is [match[2]]
    and [capture] is [match[0].includes('x')]. *)
Definition handlePawnMove (page : Page) (u : Manager) (file : option ascii)
  (toSquare : SquareText) (capture : bool) : Outcome (MoveResult * Manager) :=
  let toRow := rowOf toSquare in
  let toCol := colOf toSquare in
  let fromCol :=
    match file with
    | Some f => codeOf f - 97
    | None => toCol
    end in
  let possiblePawnRows :=
    match currentPlayer (gameEngine u) with
    | White => [toRow + 1; toRow + 2]
    | Black => [toRow - 1; toRow - 2]
    end in
  handlePawnMove_loop page u possiblePawnRows fromCol toRow toCol capture.

(** [handlePieceMove(match)], with the update of the status that follows a
    completed move. *)
Definition handlePieceMove (page : Page) (u : Manager) (pieceType : ascii)
  (disambiguation : string) (toSquare : SquareText)
  : Outcome (MoveResult * Manager) :=
  afterTextMove page u
    (handlePieceMove (gameEngine u) (pieceOfChar pieceType) disambiguation
       (rowOf toSquare) (colOf toSquare)).

Definition parseAlgebraicNotation (page : Page) (u : Manager) (move : string)
  : Outcome (MoveResult * Manager) :=
  if String.eqb move "o-o" || String.eqb move "0-0"
  then handleCastlingMove page u kingside
  else if String.eqb move "o-o-o" || String.eqb move "0-0-0"
  then handleCastlingMove page u queenside
  else
    match pieceMatch move with
    | Some (pieceType, disambiguation, toSquare, _) =>
        handlePieceMove page u pieceType disambiguation toSquare
    | None =>
        match pawnMatch move with
        | Some (file, toSquare, _) =>
            handlePawnMove page u file toSquare (includes move "x")
        | None =>
            match simplePawnMatch move with
            | Some toSquare => handleSimplePawnMove page u toSquare
            | None => Returned (RFalse, u)
            end
        end
    end.

Definition parseAndExecuteMove (page : Page) (u : Manager) (notation : string)
  : Outcome (MoveResult * Manager) :=
  let move := toLowerCase (trim notation) in
  match coordinateMatch move with
  | Some (fromSquare, toSquare, _) =>
      match makeMove (gameEngine u) (rowOf fromSquare) (colOf fromSquare)
                     (rowOf toSquare) (colOf toSquare) with
      | Threw => Threw
      | Returned (result, s') => Returned (result, set_gameEngine u s')
      end
  | None => parseAlgebraicNotation page u move
  end.

(** ** Clicks on the board and the promotion dialog *)

(** [highlightLegalMoves(row, col)]: the squares that receive the class
    [highlighted], in the order of the two loops. *)
Definition highlightLegalMoves (u : Manager) (row col : Z)
  : list (Z * Z) :=
  let s := gameEngine u in
  let piece := cell (board s) row col in
  filter (fun to =>
            if isCastlingMove piece row col (fst to) (snd to) then
              match piece with
              | Some king0 => canCastle s (color king0) (sideOf (snd to))
              | None => false
              end
            else isValidMove s row col (fst to) (snd to))
         squares.

(** [executePromotion(pieceType)] with what follows the changes made to the
    engine: the dialog is closed, the status is updated and the callback
    is called.  Without a pending promotion nothing happens. *)
Definition executePromotion (page : Page) (u : Manager)
  (pieceType : PromotionChoice) : Outcome Manager :=
  match pendingPromotion (gameEngine u) with
  | None => Returned u
  | Some _ =>
      match executePromotion (gameEngine u) pieceType with
      | Threw => Threw
      | Returned s' =>
          let u := hidePromotionModal page (set_gameEngine u s') in
          let u := updateLocalGameStatus page u in
          Returned (moveComplete page u)
      end
  end.

(** [handleSquareClick(row, col)].  Reading [board[row]] throws for a row
    outside the board. *)
Definition handleSquareClick (page : Page) (u : Manager) (row col : Z)
  : Outcome Manager :=
  let s := gameEngine u in
  match row_at (board s) row with
  | None => Threw
  | Some _ =>
      let piece := cell (board s) row col in
      match selectedSquare u with
      | Some selected =>
          if (fst selected =? row) && (snd selected =? col)
          then Returned (set_selectedSquare u None)
          else
            match makeMove s (fst selected) (snd selected) row col with
            | Threw => Threw
            | Returned (RTrue, s') =>
                let u := set_selectedSquare (set_gameEngine u s') None in
                let u := updateLocalGameStatus page u in
                Returned (moveComplete page u)
            | Returned (RPromotion, s') =>
                Returned (showPromotionModal page (set_gameEngine u s'))
            | Returned (RFalse, s') =>
                Returned (set_selectedSquare (set_gameEngine u s') None)
            end
      | None =>
          match piece with
          | Some p =>
              if Color_eqb (color p) (currentPlayer s)
              then Returned (set_selectedSquare u (Some (row, col)))
              else Returned (set_selectedSquare u None)
          | None => Returned (set_selectedSquare u None)
          end
      end
  end.

End UI.

(** Every character of a text satisfies [p]. *)
Fixpoint allChars (p : ascii -> bool) (s : string) : bool :=
  match s with
  | EmptyString => true
  | String a rest => p a && allChars p rest
  end.

(** A character that [trim] keeps and [toLowerCase] leaves alone. *)
Definition plainChar (a : ascii) : bool :=
  negb (isWhiteSpace a) && Ascii.eqb (toLowerChar a) a.

(** 1. b4 a5: the white pawn of b4 can capture on a5. *)
Definition after_b4a5 : State :=
  Eval vm_compute in replay [ (6, 1, 4, 1); (1, 0, 3, 0) ].

(** The last character of a text. *)
Fixpoint lastChar (s : string) : option ascii :=
  match s with
  | EmptyString => None
  | String a EmptyString => Some a
  | String _ rest => lastChar rest
  end.

(** The characters on which a text that the parser understands can end: a
    rank digit, a promotion letter, or the last letter of a castling. *)
Definition endsMove (a : ascii) : bool :=
  isRankChar a || isPromotionChar a || Ascii.eqb a "o" || Ascii.eqb a "0".

(** * The application: the position sent to the chess program

    [ChessApp.generateFEN], for an application whose engine exists. *)

Module ChessApp.

(** [piece.color === 'white' ? symbol.toUpperCase() : symbol.toLowerCase()]
    for the letter chosen from [piece.type]. *)
Definition fenSymbol (piece : Piece) : string :=
  match color piece, type piece with
  | White, Pawn => "P" | White, Knight => "N" | White, Bishop => "B"
  | White, Rook => "R" | White, Queen => "Q" | White, King => "K"
  | Black, Pawn => "p" | Black, Knight => "n" | Black, Bishop => "b"
  | Black, Rook => "r" | Black, Queen => "q" | Black, King => "k"
  end.

(** The body of the inner loop: [fen] and [emptyCount] after the square
    [(row, col)]. *)
Definition fenSquare (b : Board) (row : Z) (acc : string * Z) (col : Z)
  : string * Z :=
  let (fen, emptyCount) := acc in
  match cell b row col with
  | Some piece =>
      ((if emptyCount >? 0 then fen ++ numToString emptyCount else fen)
       ++ fenSymbol piece, 0)
  | None => (fen, emptyCount + 1)
  end%string.

(** The body of the outer loop: [fen] after the row [row]. *)
Definition fenRow (b : Board) (fen : string) (row : Z) : string :=
  let (fen, emptyCount) := fold_left (fenSquare b row) range8 (fen, 0) in
  let fen :=
    if emptyCount >? 0 then (fen ++ numToString emptyCount)%string else fen in
  if row <? 7 then (fen ++ "/")%string else fen.

Definition fenPlacement (b : Board) : string :=
  fold_left (fenRow b) range8 EmptyString.

Definition generateFEN (s : State) : string :=
  let fen := fenPlacement (board s) in
  let fen :=
    (fen ++ " " ++ match currentPlayer s with White => "w" | Black => "b" end)
    %string in
  let fen := (fen ++ " KQkq")%string in
  let fen := (fen ++ " -")%string in
  (fen ++ " 0 1")%string.

(** ** Moves of the chess program *)

(** [pieceNames[promotionPiece || 'queen'] || 'queen'] *)
Definition promotionChoiceOf (promotionPiece : option ascii)
  : PromotionChoice :=
  match promotionPiece with
  | Some a =>
      if Ascii.eqb a "q" then ToQueen
      else if Ascii.eqb a "r" then ToRook
      else if Ascii.eqb a "b" then ToBishop
      else if Ascii.eqb a "n" then ToKnight
      else ToQueen
  | None => ToQueen
  end.

(** The end of [executeStockfishMove], reached when the move is not played
    as a castling. *)
Definition playStockfishMove (page : Page) (u : UI.Manager)
  (fromRow fromCol toRow toCol : Z) (promotionPiece : option ascii)
  : Outcome UI.Manager :=
  let s := UI.gameEngine u in
  if negb (isValidMove s fromRow fromCol toRow toCol) then Returned u
  else
    match makeMove s fromRow fromCol toRow toCol with
    | Threw => Threw
    | Returned (RPromotion, s') =>
        UI.executePromotion page (UI.set_gameEngine u s')
          (promotionChoiceOf promotionPiece)
    | Returned (_, s') => Returned (UI.set_gameEngine u s')
    end.

(** [move.length > 4 ? move[4] : null], where [rest] is the move from its
    fifth character on. *)
Definition promotionPieceOf (rest : string) : option ascii :=
  match rest with
  | String a _ => Some a
  | EmptyString => None
  end.

(** [executeStockfishMove] from the test of castling on, when the fourth
    character of the move is a digit and [toRow] a number. *)
Definition executeStockfishMoveAt (page : Page) (u : UI.Manager)
  (fromRow fromCol toRow toCol : Z) (promotionPiece : option ascii)
  : Outcome UI.Manager :=
  let s := UI.gameEngine u in
  let piece := cell (board s) fromRow fromCol in
  if isCastlingMove piece fromRow fromCol toRow toCol then
    let side := sideOf toCol in
    if canCastle s (currentPlayer s) side then
      let result := handleCastling s side (deepCopyBoard (board s)) in
      if fst result then Returned (UI.set_gameEngine u (snd result))
      else
        playStockfishMove page (UI.set_gameEngine u (snd result))
          fromRow fromCol toRow toCol promotionPiece
    else Returned u
  else
    playStockfishMove page u fromRow fromCol toRow toCol promotionPiece.

(** The same when the fourth character is no digit, so that [toRow] is
    [NaN].  [isCastlingMove] is falsy, [fromRow === toRow] being false.  In
    [isValidMove] the comparisons [toRow < 0] and [toRow > 7] are false, so
    the bounds test looks at the three other numbers only; when the square
    of origin holds a piece of the player to move, the read of
    [this.board[toRow][toCol]] throws, [this.board[NaN]] being
    [undefined]. *)
Definition executeStockfishMoveNaN (u : UI.Manager)
  (fromRow fromCol toCol : Z) : Outcome UI.Manager :=
  let s := UI.gameEngine u in
  if (fromRow <? 0) || (fromRow >? 7) || (fromCol <? 0) || (fromCol >? 7)
     || (toCol <? 0) || (toCol >? 7)
  then Returned u
  else
    match cell (board s) fromRow fromCol with
    | None => Returned u
    | Some piece =>
        if negb (Color_eqb (color piece) (currentPlayer s)) then Returned u
        else Threw
    end.

(** [executeStockfishMove(move)].  A move of fewer than four characters is
    refused.  [parseInt] of a character that is no digit is [NaN]: for the
    second character [board[NaN]] is [undefined] and the read of
    [board[fromRow][fromCol]] throws, as it does for a row outside the
    board.  The application and the interface share one engine. *)
Definition executeStockfishMove (page : Page) (u : UI.Manager)
  (move : string) : Outcome UI.Manager :=
  match move with
  | String fromFile (String fromRank (String toFile (String toRank rest))) =>
      let s := UI.gameEngine u in
      let promotionPiece := promotionPieceOf rest in
      match parseDigit fromRank with
      | None => Threw
      | Some fromDigit =>
          let fromRow := 8 - fromDigit in
          let fromCol := codeOf fromFile - 97 in
          let toCol := codeOf toFile - 97 in
          match row_at (board s) fromRow with
          | None => Threw
          | Some _ =>
              match parseDigit toRank with
              | Some toDigit =>
                  executeStockfishMoveAt page u fromRow fromCol
                    (8 - toDigit) toCol promotionPiece
              | None => executeStockfishMoveNaN u fromRow fromCol toCol
              end
          end
      end
  | _ => Returned u
  end.

End ChessApp.

(** ** Reading a placement back

    The first field of a FEN record as the standard defines it: the ranks
    from the eighth to the first, separated by [/]; in a rank a letter is a
    piece, upper case for white, and a digit is that many empty squares. *)

Definition fenPieceOfChar (a : ascii) : option (Color * PieceType) :=
  if Ascii.eqb a "P" then Some (White, Pawn)
  else if Ascii.eqb a "N" then Some (White, Knight)
  else if Ascii.eqb a "B" then Some (White, Bishop)
  else if Ascii.eqb a "R" then Some (White, Rook)
  else if Ascii.eqb a "Q" then Some (White, Queen)
  else if Ascii.eqb a "K" then Some (White, King)
  else if Ascii.eqb a "p" then Some (Black, Pawn)
  else if Ascii.eqb a "n" then Some (Black, Knight)
  else if Ascii.eqb a "b" then Some (Black, Bishop)
  else if Ascii.eqb a "r" then Some (Black, Rook)
  else if Ascii.eqb a "q" then Some (Black, Queen)
  else if Ascii.eqb a "k" then Some (Black, King)
  else None.

Definition readFenChar (a : ascii) : list (option (Color * PieceType)) :=
  match fenPieceOfChar a with
  | Some p => [Some p]
  | None =>
      if isRankChar a then repeat None (Z.to_nat (codeOf a - 48)) else []
  end.

Fixpoint readFenRank (s : string) : list (option (Color * PieceType)) :=
  match s with
  | EmptyString => []
  | String a rest => (readFenChar a ++ readFenRank rest)%list
  end.

(** The parts of a text between the separators [/]. *)
Fixpoint splitRanks (s : string) : list string :=
  match s with
  | EmptyString => [EmptyString]
  | String a rest =>
      if Ascii.eqb a "/" then EmptyString :: splitRanks rest
      else
        match splitRanks rest with
        | h :: t => String a h :: t
        | [] => [String a EmptyString]
        end
  end.

Definition readFenPlacement (s : string)
  : list (list (option (Color * PieceType))) :=
  map readFenRank (splitRanks s).

(** What stands on the squares of a board, rank by rank. *)
Definition squareContents (b : Board)
  : list (list (option (Color * PieceType))) :=
  map (fun row =>
         map (fun col =>
                match cell b row col with
                | Some piece => Some (color piece, type piece)
                | None => None
                end) range8) range8.

(** The text that the inner loop of [generateFEN] produces for the
    contents [cells] of the rest of a rank, entered with [emptyCount]
    empty squares not yet written. *)
Fixpoint rankText (cells : list (option Piece)) (emptyCount : Z) : string :=
  match cells with
  | [] => if emptyCount >? 0 then numToString emptyCount else EmptyString
  | None :: rest => rankText rest (emptyCount + 1)
  | Some piece :: rest =>
      ((if emptyCount >? 0 then numToString emptyCount else EmptyString)
       ++ ChessApp.fenSymbol piece ++ rankText rest 0)%string
  end.

(** Eight rows of eight squares. *)
Definition wellShaped (b : Board) : Prop :=
  List.length b = 8%nat /\ Forall (fun row => List.length row = 8%nat) b.

(** ** The candidates of a piece move, said without the glyphs *)




(** * Basic facts *)

Lemma Color_eqb_eq (a b : Color) : Color_eqb a b = true <-> a = b.
Proof. destruct a, b; simpl; split; congruence. Qed.

Lemma PieceType_eqb_eq (a b : PieceType) : PieceType_eqb a b = true <-> a = b.
Proof. destruct a, b; simpl; split; congruence. Qed.

Lemma Color_eqb_refl (a : Color) : Color_eqb a a = true.
Proof. now destruct a. Qed.

Lemma opponent_neq (c : Color) : opponent c <> c.
Proof. destruct c; discriminate. Qed.

Lemma In_range8 (r : Z) : In r range8 <-> 0 <= r <= 7.
Proof.
  unfold range8; simpl. split.
  - intros H. repeat (destruct H as [H | H]; [lia |]). contradiction.
  - intros H.
    assert (r = 0 \/ r = 1 \/ r = 2 \/ r = 3 \/ r = 4 \/ r = 5 \/ r = 6 \/ r = 7)
      as D by lia.
    intuition auto.
Qed.

Lemma In_squares (r c : Z) : In (r, c) squares <-> onBoard r c.
Proof.
  unfold squares, onBoard. rewrite in_flat_map. split.
  - intros (r' & Hr & Hc). apply in_map_iff in Hc as (c' & E & Hc).
    inversion E; subst. now rewrite <- !In_range8.
  - intros [Hr Hc]. exists r. split; [now apply In_range8 |].
    apply in_map_iff. exists c. split; [reflexivity | now apply In_range8].
Qed.


Lemma findKing_onBoard (b : Board) (c : Color) (kr kc : Z) :
  findKing b c = Some (kr, kc) ->
  onBoard kr kc /\
  exists piece, cell b kr kc = Some piece /\ type piece = King /\ color piece = c.
Proof.
  unfold findKing. intros H. apply find_some in H as [Hin Hk]. simpl in Hk.
  split; [now apply In_squares |].
  destruct (cell b kr kc) as [piece |]; [| discriminate].
  apply andb_true_iff in Hk as [Ht Hc].
  exists piece. split; [reflexivity |].
  split; [now apply PieceType_eqb_eq | now apply Color_eqb_eq].
Qed.

Lemma isEmpty_true (b : Board) (r c : Z) :
  isEmpty b r c = true <-> cell b r c = None.
Proof. unfold isEmpty. destruct (cell b r c); split; congruence. Qed.

(** * Reading and writing squares *)

Lemma nth_error_list_set_other {A : Type} (l : list A) (n m : nat) (v : A) :
  n <> m -> nth_error (list_set l n v) m = nth_error l m.
Proof.
  revert n m. induction l as [| h t IH]; intros n m Hnm; [now destruct n |].
  destruct n, m; simpl; try reflexivity; try congruence.
  apply IH. congruence.
Qed.

Lemma nth_error_list_set_same {A : Type} (l : list A) (n : nat) (v x : A) :
  nth_error l n = Some x -> nth_error (list_set l n v) n = Some v.
Proof.
  revert n. induction l as [| h t IH]; intros n H; [now destruct n |].
  destruct n; simpl in *; [reflexivity | now apply IH].
Qed.

Lemma list_set_length {A : Type} (l : list A) (n : nat) (v : A) :
  List.length (list_set l n v) = List.length l.
Proof.
  revert n. induction l as [| h t IH]; intros [| n]; simpl; auto.
Qed.

Lemma cell_set_cell_other (b : Board) (r c r' c' : Z) (v : option Piece) :
  r <> r' \/ c <> c' -> cell (set_cell b r c v) r' c' = cell b r' c'.
Proof.
  intros Hne. unfold set_cell.
  destruct (r <? 0) eqn:Hr; [reflexivity |].
  destruct (c <? 0) eqn:Hc; [reflexivity |]. simpl.
  destruct (nth_error b (Z.to_nat r)) as [row |] eqn:Hrow; [| reflexivity].
  unfold cell, row_at.
  destruct (r' <? 0) eqn:Hr'; [reflexivity |].
  apply Z.ltb_ge in Hr, Hc, Hr'.
  destruct (Z.eq_dec r r') as [-> | Hrr].
  - rewrite (nth_error_list_set_same _ _ _ _ Hrow), Hrow.
    destruct (c' <? 0) eqn:Hc'; [reflexivity |]. apply Z.ltb_ge in Hc'.
    rewrite nth_error_list_set_other; [reflexivity |].
    intros E. apply Z2Nat.inj in E; try assumption. destruct Hne; congruence.
  - rewrite nth_error_list_set_other; [reflexivity |].
    intros E. apply Z2Nat.inj in E; congruence.
Qed.

Lemma set_cell_length (b : Board) (r c : Z) (v : option Piece) :
  List.length (set_cell b r c v) = List.length b.
Proof.
  unfold set_cell. destruct ((r <? 0) || (c <? 0)); [reflexivity |].
  destruct (nth_error b (Z.to_nat r)); [apply list_set_length | reflexivity].
Qed.

Lemma cell_row_at (b : Board) (r c : Z) (p : Piece) :
  cell b r c = Some p -> exists row, row_at b r = Some row.
Proof.
  unfold cell. destruct (row_at b r) as [row |]; [| discriminate].
  intros _. now exists row.
Qed.

Lemma row_at_None (b : Board) (r : Z) :
  List.length b = 8%nat -> (row_at b r = None <-> r < 0 \/ 7 < r).
Proof.
  intros L. unfold row_at. destruct (r <? 0) eqn:N.
  - apply Z.ltb_lt in N. split; [lia | reflexivity].
  - apply Z.ltb_ge in N. rewrite nth_error_None, L. lia.
Qed.

Lemma deepCopyBoard_id (b : Board) : deepCopyBoard b = b.
Proof.
  unfold deepCopyBoard. rewrite <- (map_id b) at 2. apply map_ext.
  intros row. rewrite <- (map_id row) at 2. apply map_ext.
  intros [[sy ty co] |]; reflexivity.
Qed.

(** * The loop of [isPathClear] ends *)

(** With [k] steps left to the destination the loop gives the same answer
    for every number of iterations allowed that is at least [k]. *)
Lemma isPathClear_loop_steps (b : Board) (toRow toCol rowStep colStep : Z)
  (k : nat) :
  forall (fuel1 fuel2 : nat) (row col : Z),
    (k <= fuel1)%nat -> (k <= fuel2)%nat ->
    row + Z.of_nat k * rowStep = toRow ->
    col + Z.of_nat k * colStep = toCol ->
    isPathClear_loop fuel1 b row col toRow toCol rowStep colStep
    = isPathClear_loop fuel2 b row col toRow toCol rowStep colStep.
Proof.
  induction k as [| k IH]; intros fuel1 fuel2 row col L1 L2 Hr Hc.
  - assert (row = toRow) as -> by lia. assert (col = toCol) as -> by lia.
    destruct fuel1, fuel2; simpl; rewrite ?Z.eqb_refl; reflexivity.
  - destruct fuel1 as [| f1]; [lia |]. destruct fuel2 as [| f2]; [lia |].
    simpl.
    destruct (negb (row =? toRow) || negb (col =? toCol)); [| reflexivity].
    destruct (negb (isEmpty b row col)); [reflexivity |].
    apply IH; lia.
Qed.

(** Between two squares of the board on a common row, column or diagonal
    the loop of [isPathClear] stops within eight iterations: allowing more
    does not change the answer. *)
Lemma isPathClear_loop_fuel (b : Board) (fromRow fromCol toRow toCol : Z)
  (fuel : nat) :
  onBoard fromRow fromCol -> onBoard toRow toCol ->
  fromRow = toRow \/ fromCol = toCol
  \/ Z.abs (toRow - fromRow) = Z.abs (toCol - fromCol) ->
  (8 <= fuel)%nat ->
  isPathClear_loop fuel b (fromRow + step fromRow toRow)
    (fromCol + step fromCol toCol) toRow toCol
    (step fromRow toRow) (step fromCol toCol)
  = isPathClear b fromRow fromCol toRow toCol.
Proof.
  intros [Hr1 Hc1] [Hr2 Hc2] A F. unfold isPathClear.
  set (d := Z.max (Z.abs (toRow - fromRow)) (Z.abs (toCol - fromCol))).
  apply (isPathClear_loop_steps b toRow toCol _ _ (Z.to_nat (Z.max 0 (d - 1))));
    unfold d, step;
    repeat match goal with
           | |- context [if ?c then _ else _] => destruct c eqn:?
           end; lia.
Qed.

(** * What [isValidMove] checks *)

Lemma isValidMove_inv (s : State) (fromRow fromCol toRow toCol : Z) :
  isValidMove s fromRow fromCol toRow toCol = true ->
  inBounds fromRow fromCol toRow toCol = true /\
  exists piece,
    cell (board s) fromRow fromCol = Some piece /\
    color piece = currentPlayer s /\
    isValidPieceMove s piece fromRow fromCol toRow toCol = true /\
    isInCheckOnBoard s (color piece)
      (testBoard (board s) piece fromRow fromCol toRow toCol) = false.
Proof.
  unfold isValidMove.
  destruct (inBounds fromRow fromCol toRow toCol); simpl; [| discriminate].
  destruct (cell (board s) fromRow fromCol) as [piece |]; [| discriminate].
  destruct (Color_eqb (color piece) (currentPlayer s)) eqn:Hc; simpl;
    [| discriminate].
  destruct (match cell (board s) toRow toCol with
            | Some targetPiece => Color_eqb (color targetPiece) (color piece)
            | None => false
            end); [discriminate |].
  destruct (isValidPieceMove s piece fromRow fromCol toRow toCol) eqn:V; simpl;
    [| discriminate].
  destruct (isInCheckOnBoard s (color piece) _) eqn:K; [discriminate |].
  intros _. split; [reflexivity |]. exists piece.
  apply Color_eqb_eq in Hc. repeat split; assumption.
Qed.

Lemma inBounds_onBoard (fromRow fromCol toRow toCol : Z) :
  inBounds fromRow fromCol toRow toCol = true <->
  onBoard fromRow fromCol /\ onBoard toRow toCol.
Proof. unfold inBounds, onBoard. lia. Qed.

(** A pawn move that passes the geometry test goes one row forward, or two
    rows forward from the pawn's starting row. *)
Lemma isValidPawnMove_rows (s : State) (piece : Piece)
  (fromRow fromCol toRow toCol : Z) :
  isValidPawnMove s piece fromRow fromCol toRow toCol = true ->
  toRow - fromRow = direction (color piece) \/
  (fromRow = startRow (color piece) /\
   toRow - fromRow = 2 * direction (color piece)).
Proof.
  intros H.
  destruct (toRow - fromRow =? direction (color piece)) eqn:D1;
    [left; now apply Z.eqb_eq |].
  destruct ((fromRow =? startRow (color piece))
            && (toRow - fromRow =? 2 * direction (color piece))) eqn:D2.
  - apply andb_true_iff in D2 as [A B]. right. split; now apply Z.eqb_eq.
  - exfalso. unfold isValidPawnMove in H. cbv zeta in H.
    rewrite D1, D2 in H. rewrite ?andb_false_r in H. cbn [andb orb] in H.
    rewrite ?andb_false_r in H. discriminate.
Qed.


(** Whether a piece attacks an occupied square of the other colour does not
    depend on the en-passant target, the only field besides the board that
    [isValidPieceMove] reads. *)
Lemma canPieceAttack_occupied (s1 s2 : State) (piece target : Piece)
  (fromRow fromCol targetRow targetCol : Z) (b : Board) :
  cell b targetRow targetCol = Some target ->
  color target <> color piece ->
  canPieceAttack s1 piece fromRow fromCol targetRow targetCol b
  = canPieceAttack s2 piece fromRow fromCol targetRow targetCol b.
Proof.
  intros Ht Hc. unfold canPieceAttack, isValidPieceMove.
  destruct (type piece); try reflexivity.
  unfold isValidPawnMove. cbn [board set_board fenEnPassant].
  rewrite Ht.
  destruct (Color_eqb (color target) (color piece)) eqn:E;
    [apply Color_eqb_eq in E; contradiction |].
  reflexivity.
Qed.

(** [isInCheckOnBoard] is a function of the colour and of the board it is
    given. *)
Lemma isInCheckOnBoard_state (s1 s2 : State) (c : Color) (b : Board) :
  isInCheckOnBoard s1 c b = isInCheckOnBoard s2 c b.
Proof.
  unfold isInCheckOnBoard.
  destruct (findKing b c) as [[kingRow kingCol] |] eqn:K; [| reflexivity].
  apply findKing_onBoard in K as (_ & k & Hk & _ & Hc).
  induction squares as [| rc rest IH]; [reflexivity |].
  simpl. rewrite IH. f_equal.
  destruct (cell b (fst rc) (snd rc)) as [piece |]; [| reflexivity].
  destruct (Color_eqb (color piece) (opponent c)) eqn:E; [| reflexivity].
  apply Color_eqb_eq in E. simpl.
  apply (canPieceAttack_occupied s1 s2 piece k); [assumption |].
  rewrite Hc, E. intros H. symmetry in H. now apply opponent_neq in H.
Qed.

(** * The paths through [makeMove] *)

Lemma makeMove_blocked (s : State) (fromRow fromCol toRow toCol : Z) :
  pendingPromotion s <> None \/ isGameOver s = true ->
  makeMove s fromRow fromCol toRow toCol = Returned (RFalse, s).
Proof.
  unfold makeMove. intros [H | H].
  - destruct (pendingPromotion s); [reflexivity | congruence].
  - rewrite H. now rewrite orb_true_r.
Qed.

Lemma makeMove_cases (s : State) (fromRow fromCol toRow toCol : Z) :
  pendingPromotion s = None ->
  isGameOver s = false ->
  (row_at (board s) fromRow = None /\
   makeMove s fromRow fromCol toRow toCol = Threw)
  \/ (exists piece,
        cell (board s) fromRow fromCol = Some piece /\
        isCastlingMove (Some piece) fromRow fromCol toRow toCol = true /\
        makeMove s fromRow fromCol toRow toCol
        = if canCastle s (color piece) (sideOf toCol)
          then Returned
                 (resultOf (fst (handleCastling s (sideOf toCol)
                                   (deepCopyBoard (board s)))),
                  snd (handleCastling s (sideOf toCol)
                         (deepCopyBoard (board s))))
          else Returned (RFalse, s))
  \/ (isValidMove s fromRow fromCol toRow toCol = false /\
      makeMove s fromRow fromCol toRow toCol = Returned (RFalse, s))
  \/ (exists piece,
        cell (board s) fromRow fromCol = Some piece /\
        isCastlingMove (Some piece) fromRow fromCol toRow toCol = false /\
        isValidMove s fromRow fromCol toRow toCol = true /\
        makeMove s fromRow fromCol toRow toCol
        = Returned (executeMove s piece fromRow fromCol toRow toCol)).
Proof.
  intros Hp Ho. unfold makeMove. rewrite Hp, Ho. simpl orb. cbv iota.
  destruct (row_at (board s) fromRow) as [row |] eqn:Hrow; [| now left].
  right.
  destruct (cell (board s) fromRow fromCol) as [piece |] eqn:Hcell.
  - destruct (isCastlingMove (Some piece) fromRow fromCol toRow toCol) eqn:C.
    + left. exists piece. auto.
    + right.
      destruct (isValidMove s fromRow fromCol toRow toCol) eqn:V; simpl.
      * right. exists piece. auto.
      * left. auto.
  - right. left.
    destruct (isValidMove s fromRow fromCol toRow toCol) eqn:V; simpl;
      [| auto].
    apply isValidMove_inv in V as (_ & piece & E & _). congruence.
Qed.

Lemma handleCastling_cases (s : State) (side : Side) (prevBoard : Board) :
  (canCastle s (currentPlayer s) side = false /\
   handleCastling s side prevBoard = (false, s))
  \/ (canCastle s (currentPlayer s) side = true /\
      fst (handleCastling s side prevBoard) = true /\
      let s' := snd (handleCastling s side prevBoard) in
      currentPlayer s' = opponent (currentPlayer s) /\
      fenEnPassant s' = fenEnPassant s /\
      halfmoveClock s' = halfmoveClock s /\
      positionHistory s' = positionHistory s /\
      isGameOver s' = isGameOver s /\
      gameWinner s' = gameWinner s /\
      pendingPromotion s' = pendingPromotion s).
Proof.
  unfold handleCastling.
  destruct (canCastle s (currentPlayer s) side); simpl; [right | now left].
  split; [reflexivity |]. split; [reflexivity |].
  destruct s as [b cp sq mh gh go gw pp cr fc ep hc ph].
  destruct side, cp; repeat split; reflexivity.
Qed.

Lemma checkGameEndConditions_cases (s : State) :
  snd (checkGameEndConditions s) = s \/
  exists w, snd (checkGameEndConditions s) = set_gameOver s w.
Proof.
  unfold checkGameEndConditions.
  destruct (Z.of_nat (List.length (getAllLegalMoves s)) =? 0).
  - destruct (isInCheck s (currentPlayer s)); right; eexists; reflexivity.
  - destruct (halfmoveClock s >=? 100); [right; eexists; reflexivity |].
    destruct (isThreefoldRepetition s); [right; eexists; reflexivity |].
    now left.
Qed.

(** The fields that [checkGameEndConditions] leaves alone. *)
Lemma checkGameEndConditions_frame (s : State) :
  let s' := snd (checkGameEndConditions s) in
  board s' = board s /\ currentPlayer s' = currentPlayer s /\
  moveHistory s' = moveHistory s /\
  pendingPromotion s' = pendingPromotion s /\
  castlingRights s' = castlingRights s /\ fenCastling s' = fenCastling s /\
  fenEnPassant s' = fenEnPassant s /\ halfmoveClock s' = halfmoveClock s /\
  positionHistory s' = positionHistory s.
Proof.
  destruct (checkGameEndConditions_cases s) as [E | [w E]]; simpl; rewrite E;
    repeat split; reflexivity.
Qed.

(** The state of [executeMove] once the castling rights, the en-passant
    capture, the en-passant target and the halfmove clock have been dealt
    with: the point where the promotion test is made. *)
Lemma executeMove_regular (s : State) (piece : Piece)
  (fromRow fromCol toRow toCol : Z) :
  isCastlingMove (Some piece) fromRow fromCol toRow toCol = false ->
  exists isEnPassant isCapture s3,
    let s1 := updateCastlingRights (saveGameState s) piece fromRow fromCol in
    let ep := handleEnPassant s1 piece fromRow fromCol toRow toCol in
    let s2 := updateEnPassantTarget (snd ep) piece fromRow fromCol toRow toCol in
    isEnPassant = fst ep /\
    isCapture = match cell (board s2) toRow toCol with
                | Some target => negb (Color_eqb (color target) (color piece))
                | None => false
                end /\
    s3 = set_halfmoveClock s2
           (if PieceType_eqb (type piece) Pawn || isCapture || isEnPassant
            then 0 else halfmoveClock s2 + 1) /\
    executeMove s piece fromRow fromCol toRow toCol
    = if isPawnPromotion s3 fromRow fromCol toRow toCol
      then (RPromotion,
            set_pendingPromotion s3
              (Some (mkPromotion fromRow fromCol toRow toCol (color piece))))
      else
        let s4 :=
          set_board s3 (set_cell (set_cell (board s3) toRow toCol (Some piece))
                                 fromRow fromCol None) in
        let s5 :=
          set_moveHistory s4
            (moveHistory s4 ++
               [getAlgebraicNotation s4 fromRow fromCol toRow toCol
                  (isCapture || isEnPassant) None
                  (deepCopyBoard (board (saveGameState s))) isEnPassant])%list in
        let s6 := set_currentPlayer s5 (opponent (currentPlayer s5)) in
        let s7 :=
          set_positionHistory s6
            (positionHistory s6 ++ [generatePositionKey s6])%list in
        (RTrue, snd (checkGameEndConditions s7)).
Proof.
  intros C. unfold executeMove. rewrite C. cbv zeta.
  eexists. eexists. eexists.
  split; [reflexivity |]. split; [reflexivity |]. split; [reflexivity |].
  destruct (PieceType_eqb (type piece) Pawn
            || match cell _ toRow toCol with
               | Some target => negb (Color_eqb (color target) (color piece))
               | None => false
               end
            || fst (handleEnPassant _ piece fromRow fromCol toRow toCol));
    reflexivity.
Qed.

(** * The effects of a regular move *)

Lemma updateCastlingRights_frame (s : State) (piece : Piece)
  (fromRow fromCol : Z) :
  let s' := updateCastlingRights s piece fromRow fromCol in
  board s' = board s /\ fenEnPassant s' = fenEnPassant s /\
  halfmoveClock s' = halfmoveClock s /\ currentPlayer s' = currentPlayer s /\
  pendingPromotion s' = pendingPromotion s /\
  moveHistory s' = moveHistory s /\ positionHistory s' = positionHistory s.
Proof.
  unfold updateCastlingRights.
  destruct (type piece), (color piece); simpl;
    repeat match goal with |- context [if ?c then _ else _] => destruct c end;
    repeat split; reflexivity.
Qed.

Lemma updateCastlingRights_pawn (s : State) (piece : Piece)
  (fromRow fromCol : Z) :
  type piece = Pawn -> updateCastlingRights s piece fromRow fromCol = s.
Proof. intros H. unfold updateCastlingRights. now rewrite H. Qed.

Lemma handleEnPassant_cases (s : State) (piece : Piece)
  (fromRow fromCol toRow toCol : Z) :
  handleEnPassant s piece fromRow fromCol toRow toCol = (false, s)
  \/ (type piece = Pawn /\ cell (board s) toRow toCol = None /\
      Z.abs (toCol - fromCol) = 1 /\
      isEnPassantSquare (fenEnPassant s) toRow toCol = true /\
      handleEnPassant s piece fromRow fromCol toRow toCol
      = (true,
         set_board s
           (set_cell (board s)
              (match color piece with
               | White => toRow + 1
               | Black => toRow - 1
               end) toCol None))).
Proof.
  unfold handleEnPassant.
  destruct (PieceType_eqb (type piece) Pawn) eqn:T; simpl; [| now left].
  destruct (isEmpty (board s) toRow toCol) eqn:E; simpl; [| now left].
  destruct (Z.abs (toCol - fromCol) =? 1) eqn:D; simpl; [| now left].
  destruct (isEnPassantSquare (fenEnPassant s) toRow toCol) eqn:P;
    [| now left].
  right. apply PieceType_eqb_eq in T. apply isEmpty_true in E.
  apply Z.eqb_eq in D. auto.
Qed.

(** The en-passant capture never touches the square the pawn leaves. *)
Lemma handleEnPassant_from (s : State) (piece : Piece)
  (fromRow fromCol toRow toCol : Z) :
  cell (board (snd (handleEnPassant s piece fromRow fromCol toRow toCol)))
       fromRow fromCol
  = cell (board s) fromRow fromCol.
Proof.
  destruct (handleEnPassant_cases s piece fromRow fromCol toRow toCol)
    as [E | (_ & _ & D & _ & E)]; rewrite E; simpl; [reflexivity |].
  apply cell_set_cell_other. right. lia.
Qed.

Lemma handleEnPassant_frame (s : State) (piece : Piece)
  (fromRow fromCol toRow toCol : Z) :
  let s' := snd (handleEnPassant s piece fromRow fromCol toRow toCol) in
  fenEnPassant s' = fenEnPassant s /\ halfmoveClock s' = halfmoveClock s /\
  castlingRights s' = castlingRights s /\ fenCastling s' = fenCastling s /\
  currentPlayer s' = currentPlayer s /\
  pendingPromotion s' = pendingPromotion s.
Proof.
  destruct (handleEnPassant_cases s piece fromRow fromCol toRow toCol)
    as [E | (_ & _ & _ & _ & E)]; simpl; rewrite E; repeat split; reflexivity.
Qed.

Lemma updateEnPassantTarget_frame (s : State) (piece : Piece)
  (fromRow fromCol toRow toCol : Z) :
  let s' := updateEnPassantTarget s piece fromRow fromCol toRow toCol in
  board s' = board s /\ halfmoveClock s' = halfmoveClock s /\
  castlingRights s' = castlingRights s /\ fenCastling s' = fenCastling s /\
  currentPlayer s' = currentPlayer s /\
  pendingPromotion s' = pendingPromotion s.
Proof.
  unfold updateEnPassantTarget.
  destruct (PieceType_eqb (type piece) Pawn && (Z.abs (toRow - fromRow) =? 2));
    repeat split; reflexivity.
Qed.

(** What [updateEnPassantTarget] stores does not depend on the state. *)
Lemma updateEnPassantTarget_value (s : State) (piece : Piece)
  (fromRow fromCol toRow toCol : Z) :
  fenEnPassant (updateEnPassantTarget s piece fromRow fromCol toRow toCol)
  = if PieceType_eqb (type piece) Pawn && (Z.abs (toRow - fromRow) =? 2)
    then (fromCharCode (97 + fromCol)
          ++ numToString (8 - (fromRow + toRow) / 2))%string
    else "-"%string.
Proof.
  unfold updateEnPassantTarget.
  destruct (PieceType_eqb (type piece) Pawn && (Z.abs (toRow - fromRow) =? 2));
    reflexivity.
Qed.

(** After a regular move, completed or suspended for a promotion, the
    en-passant target is the one [updateEnPassantTarget] computes. *)
Lemma executeMove_fenEnPassant (s : State) (piece : Piece)
  (fromRow fromCol toRow toCol : Z) :
  isCastlingMove (Some piece) fromRow fromCol toRow toCol = false ->
  fenEnPassant (snd (executeMove s piece fromRow fromCol toRow toCol))
  = if PieceType_eqb (type piece) Pawn && (Z.abs (toRow - fromRow) =? 2)
    then (fromCharCode (97 + fromCol)
          ++ numToString (8 - (fromRow + toRow) / 2))%string
    else "-"%string.
Proof.
  intros C.
  destruct (executeMove_regular s piece fromRow fromCol toRow toCol C)
    as (isEnPassant & isCapture & s3 & _ & _ & E3 & E).
  assert (F3 : fenEnPassant s3
               = if PieceType_eqb (type piece) Pawn
                    && (Z.abs (toRow - fromRow) =? 2)
                 then (fromCharCode (97 + fromCol)
                       ++ numToString (8 - (fromRow + toRow) / 2))%string
                 else "-"%string).
  { rewrite E3. cbn [fenEnPassant set_halfmoveClock].
    apply updateEnPassantTarget_value. }
  rewrite E.
  destruct (isPawnPromotion s3 fromRow fromCol toRow toCol); cbv zeta.
  - exact F3.
  - cbn [snd].
    match goal with
    | |- fenEnPassant (snd (checkGameEndConditions ?x)) = _ =>
        destruct (checkGameEndConditions_frame x)
          as (_ & _ & _ & _ & _ & _ & F & _)
    end.
    cbv zeta in F. rewrite F. exact F3.
Qed.

(** After a regular move the halfmove clock is 0 when the piece is a pawn,
    when the destination held an enemy piece, or when the move captured en
    passant; it is one more than before otherwise. *)
Lemma executeMove_halfmoveClock (s : State) (piece : Piece)
  (fromRow fromCol toRow toCol : Z) :
  isCastlingMove (Some piece) fromRow fromCol toRow toCol = false ->
  halfmoveClock (snd (executeMove s piece fromRow fromCol toRow toCol))
  = if PieceType_eqb (type piece) Pawn
       || match cell (board s) toRow toCol with
          | Some target => negb (Color_eqb (color target) (color piece))
          | None => false
          end
       || fst (handleEnPassant s piece fromRow fromCol toRow toCol)
    then 0 else halfmoveClock s + 1.
Proof.
  intros C.
  destruct (executeMove_regular s piece fromRow fromCol toRow toCol C)
    as (isEnPassant & isCapture & s3 & Ep & Ec & E3 & E).
  assert (H3 : halfmoveClock s3
               = if PieceType_eqb (type piece) Pawn
                    || match cell (board s) toRow toCol with
                       | Some target =>
                           negb (Color_eqb (color target) (color piece))
                       | None => false
                       end
                    || fst (handleEnPassant s piece fromRow fromCol toRow toCol)
                 then 0 else halfmoveClock s + 1).
  { destruct (updateCastlingRights_frame (saveGameState s) piece
                fromRow fromCol) as (B1 & P1 & H1 & _).
    set (s1 := updateCastlingRights (saveGameState s) piece fromRow fromCol)
      in *.
    destruct (handleEnPassant_frame s1 piece fromRow fromCol toRow toCol)
      as (_ & H2 & _).
    destruct (updateEnPassantTarget_frame
                (snd (handleEnPassant s1 piece fromRow fromCol toRow toCol))
                piece fromRow fromCol toRow toCol) as (B3 & H3 & _).
    cbv zeta in B1, P1, H1, H2, B3, H3.
    assert (Pe : isEnPassant
                 = fst (handleEnPassant s piece fromRow fromCol toRow toCol)).
    { rewrite Ep. unfold handleEnPassant. rewrite B1, P1. cbn [board
        saveGameState set_gameStateHistory fenEnPassant].
      destruct (PieceType_eqb (type piece) Pawn
                && isEmpty (board s) toRow toCol
                && (Z.abs (toCol - fromCol) =? 1)
                && isEnPassantSquare (fenEnPassant s) toRow toCol);
        reflexivity. }
    assert (Pc : isCapture
                 = match cell (board s) toRow toCol with
                   | Some target =>
                       negb (Color_eqb (color target) (color piece))
                   | None => false
                   end).
    { rewrite Ec, B3.
      destruct (handleEnPassant_cases s1 piece fromRow fromCol toRow toCol)
        as [F | (_ & _ & _ & _ & F)]; rewrite F; cbn [snd board set_board].
      - now rewrite B1.
      - rewrite cell_set_cell_other; [now rewrite B1 |].
        left. destruct (color piece); lia. }
    rewrite E3. cbn [halfmoveClock set_halfmoveClock].
    rewrite Pe, Pc, H3, H2, H1. reflexivity. }
  rewrite E.
  destruct (isPawnPromotion s3 fromRow fromCol toRow toCol); cbv zeta.
  - exact H3.
  - cbn [snd].
    match goal with
    | |- halfmoveClock (snd (checkGameEndConditions ?x)) = _ =>
        destruct (checkGameEndConditions_frame x)
          as (_ & _ & _ & _ & _ & _ & _ & F & _)
    end.
    cbv zeta in F. rewrite F. exact H3.
Qed.

Lemma executeMove_castlingRights (s : State) (piece : Piece)
  (fromRow fromCol toRow toCol : Z) :
  isCastlingMove (Some piece) fromRow fromCol toRow toCol = false ->
  castlingRights (snd (executeMove s piece fromRow fromCol toRow toCol))
  = castlingRights (updateCastlingRights s piece fromRow fromCol).
Proof.
  intros C.
  destruct (executeMove_regular s piece fromRow fromCol toRow toCol C)
    as (isEnPassant & isCapture & s3 & _ & _ & E3 & E).
  assert (R3 : castlingRights s3
               = castlingRights (updateCastlingRights s piece fromRow fromCol)).
  { rewrite E3. clear.
    unfold updateEnPassantTarget, handleEnPassant, updateCastlingRights.
    destruct (type piece), (color piece);
      repeat match goal with
             | |- context [if ?c then _ else _] => destruct c
             end;
      reflexivity. }
  rewrite E.
  destruct (isPawnPromotion s3 fromRow fromCol toRow toCol); cbv zeta.
  - exact R3.
  - cbn [snd].
    match goal with
    | |- context [checkGameEndConditions ?x] =>
        destruct (checkGameEndConditions_frame x)
          as (_ & _ & _ & _ & F & _)
    end.
    cbv zeta in F. rewrite F. exact R3.
Qed.

Lemma isPawnPromotion_spec (s : State) (fromRow fromCol toRow toCol : Z) :
  isPawnPromotion s fromRow fromCol toRow toCol = true <->
  exists piece,
    cell (board s) fromRow fromCol = Some piece /\
    type piece = Pawn /\ toRow = farRank (color piece).
Proof.
  unfold isPawnPromotion. split.
  - destruct (cell (board s) fromRow fromCol) as [piece |]; [| discriminate].
    destruct (PieceType_eqb (type piece) Pawn) eqn:T; [| discriminate].
    apply PieceType_eqb_eq in T. intros H. exists piece.
    split; [reflexivity |]. split; [assumption |].
    destruct (color piece); simpl in *; lia.
  - intros (piece & -> & T & ->). rewrite T. simpl.
    destruct (color piece); reflexivity.
Qed.

(** When the promotion test of [executeMove] is made, the square the piece
    leaves still holds it. *)
Lemma executeMove_result (s : State) (piece : Piece)
  (fromRow fromCol toRow toCol : Z) :
  isCastlingMove (Some piece) fromRow fromCol toRow toCol = false ->
  cell (board s) fromRow fromCol = Some piece ->
  (type piece = Pawn /\ toRow = farRank (color piece) /\
   exists s3,
     executeMove s piece fromRow fromCol toRow toCol
     = (RPromotion,
        set_pendingPromotion s3
          (Some (mkPromotion fromRow fromCol toRow toCol (color piece)))) /\
     board s3
     = board (snd (handleEnPassant s piece fromRow fromCol toRow toCol)) /\
     halfmoveClock s3 = 0)
  \/ (~ (type piece = Pawn /\ toRow = farRank (color piece)) /\
      fst (executeMove s piece fromRow fromCol toRow toCol) = RTrue).
Proof.
  intros C Hcell.
  destruct (executeMove_regular s piece fromRow fromCol toRow toCol C)
    as (isEnPassant & isCapture & s3 & Ep & Ec & E3 & E).
  destruct (updateCastlingRights_frame (saveGameState s) piece
              fromRow fromCol) as (B1 & P1 & _).
  set (s1 := updateCastlingRights (saveGameState s) piece fromRow fromCol)
    in *.
  destruct (updateEnPassantTarget_frame
              (snd (handleEnPassant s1 piece fromRow fromCol toRow toCol))
              piece fromRow fromCol toRow toCol) as (B3 & _).
  cbv zeta in B1, P1, B3.
  assert (Hb : board s3
               = board (snd (handleEnPassant s piece
                               fromRow fromCol toRow toCol))).
  { rewrite E3. cbn [board set_halfmoveClock]. rewrite B3.
    unfold handleEnPassant. rewrite B1, P1.
    cbn [board saveGameState set_gameStateHistory fenEnPassant].
    destruct (PieceType_eqb (type piece) Pawn
              && isEmpty (board s) toRow toCol
              && (Z.abs (toCol - fromCol) =? 1)
              && isEnPassantSquare (fenEnPassant s) toRow toCol);
      cbn [snd board set_board]; rewrite ?B1; reflexivity. }
  assert (Hfrom : cell (board s3) fromRow fromCol = Some piece).
  { rewrite Hb, handleEnPassant_from. exact Hcell. }
  rewrite E.
  destruct (isPawnPromotion s3 fromRow fromCol toRow toCol) eqn:P.
  - left. apply isPawnPromotion_spec in P as (q & Hq & T & R).
    rewrite Hfrom in Hq. inversion Hq; subst q.
    split; [assumption |]. split; [assumption |].
    exists s3. split; [reflexivity |]. split; [assumption |].
    rewrite E3. cbn [halfmoveClock set_halfmoveClock].
    apply PieceType_eqb_eq in T. rewrite T. reflexivity.
  - right. split; [| reflexivity].
    intros [T R].
    assert (isPawnPromotion s3 fromRow fromCol toRow toCol = true)
      by (apply isPawnPromotion_spec; now exists piece).
    congruence.
Qed.

(** The state in which a move is suspended for a promotion. *)
Lemma executeMove_promotion (s : State) (piece : Piece)
  (fromRow fromCol toRow toCol : Z) (s' : State) :
  isCastlingMove (Some piece) fromRow fromCol toRow toCol = false ->
  cell (board s) fromRow fromCol = Some piece ->
  executeMove s piece fromRow fromCol toRow toCol = (RPromotion, s') ->
  type piece = Pawn /\ toRow = farRank (color piece) /\
  s' = set_pendingPromotion
         (set_halfmoveClock
            (updateEnPassantTarget
               (snd (handleEnPassant (saveGameState s) piece
                       fromRow fromCol toRow toCol))
               piece fromRow fromCol toRow toCol) 0)
         (Some (mkPromotion fromRow fromCol toRow toCol (color piece))).
Proof.
  intros C Hcell H.
  destruct (executeMove_result s piece fromRow fromCol toRow toCol C Hcell)
    as [(T & R & _) | (_ & F)]; [| rewrite H in F; discriminate].
  split; [assumption |]. split; [assumption |].
  destruct (executeMove_regular s piece fromRow fromCol toRow toCol C)
    as (isEnPassant & isCapture & s3 & _ & _ & E3 & E).
  rewrite H in E.
  destruct (isPawnPromotion s3 fromRow fromCol toRow toCol);
    [| discriminate].
  inversion E; subst s'. rewrite E3.
  rewrite (updateCastlingRights_pawn _ _ _ _ T), T. reflexivity.
Qed.

Lemma executeMove_not_rejected (s : State) (piece : Piece)
  (fromRow fromCol toRow toCol : Z) :
  isCastlingMove (Some piece) fromRow fromCol toRow toCol = false ->
  fst (executeMove s piece fromRow fromCol toRow toCol) <> RFalse.
Proof.
  intros C.
  destruct (executeMove_regular s piece fromRow fromCol toRow toCol C)
    as (isEnPassant & isCapture & s3 & _ & _ & _ & E).
  rewrite E. destruct (isPawnPromotion s3 fromRow fromCol toRow toCol);
    discriminate.
Qed.

Lemma isCastlingMove_not_king (piece : Piece)
  (fromRow fromCol toRow toCol : Z) :
  type piece <> King ->
  isCastlingMove (Some piece) fromRow fromCol toRow toCol = false.
Proof.
  intros H. unfold isCastlingMove.
  destruct (PieceType_eqb (type piece) King) eqn:T; [| reflexivity].
  now apply PieceType_eqb_eq in T.
Qed.


(** * Reachable states *)

Lemma handleCastling_board_length (s : State) (side : Side)
  (prevBoard : Board) :
  List.length (board (snd (handleCastling s side prevBoard)))
  = List.length (board s).
Proof.
  unfold handleCastling.
  destruct (canCastle s (currentPlayer s) side); [| reflexivity].
  destruct s as [b cp sq mh gh go gw pp cr fc ep hc ph].
  destruct side, cp; cbn [snd board set_board set_moveHistory set_castling
                          set_currentPlayer currentPlayer negb];
    now rewrite !set_cell_length.
Qed.

Lemma executeMove_board_length (s : State) (piece : Piece)
  (fromRow fromCol toRow toCol : Z) :
  isCastlingMove (Some piece) fromRow fromCol toRow toCol = false ->
  List.length (board (snd (executeMove s piece fromRow fromCol toRow toCol)))
  = List.length (board s).
Proof.
  intros C.
  destruct (executeMove_regular s piece fromRow fromCol toRow toCol C)
    as (isEnPassant & isCapture & s3 & _ & _ & E3 & E).
  assert (L3 : List.length (board s3) = List.length (board s)).
  { rewrite E3. cbn [board set_halfmoveClock].
    match goal with
    | |- context [updateEnPassantTarget ?x piece fromRow fromCol toRow toCol] =>
        destruct (updateEnPassantTarget_frame x piece
                    fromRow fromCol toRow toCol) as (B & _)
    end.
    cbv zeta in B. rewrite B.
    destruct (updateCastlingRights_frame (saveGameState s) piece
                fromRow fromCol) as (B1 & _).
    cbv zeta in B1.
    match goal with
    | |- context [handleEnPassant ?x piece fromRow fromCol toRow toCol] =>
        destruct (handleEnPassant_cases x piece fromRow fromCol toRow toCol)
          as [F | (_ & _ & _ & _ & F)]; rewrite F; cbn [snd board set_board]
    end.
    - now rewrite B1.
    - now rewrite set_cell_length, B1. }
  rewrite E.
  destruct (isPawnPromotion s3 fromRow fromCol toRow toCol); cbv zeta.
  - exact L3.
  - cbn [snd].
    match goal with
    | |- context [checkGameEndConditions ?x] =>
        destruct (checkGameEndConditions_frame x) as (F & _)
    end.
    cbv zeta in F. rewrite F.
    cbn [board set_positionHistory set_currentPlayer set_moveHistory
         set_board].
    now rewrite !set_cell_length.
Qed.

Lemma reachable_board_length (s : State) :
  reachable s -> List.length (board s) = 8%nat.
Proof.
  induction 1 as [| s fr fc tr tc r s' _ IH M | s choice s' _ IH E
                 | s _ IH | s side prevBoard _ IH].
  - reflexivity.
  - destruct (pendingPromotion s) as [pp |] eqn:Hp.
    { rewrite makeMove_blocked in M by (left; congruence).
      now inversion M; subst. }
    destruct (isGameOver s) eqn:Ho.
    { rewrite makeMove_blocked in M by (now right). now inversion M; subst. }
    destruct (makeMove_cases s fr fc tr tc Hp Ho)
      as [[_ F] | [(q & Hq & Cq & F) | [[_ F] | (q & Hq & Cq & V & F)]]];
      rewrite F in M.
    + discriminate.
    + destruct (canCastle s (color q) (sideOf tc)).
      * inversion M; subst. now rewrite handleCastling_board_length.
      * now inversion M; subst.
    + now inversion M; subst.
    + inversion M as [Ex].
      pose proof (executeMove_board_length s q fr fc tr tc Cq) as L.
      rewrite Ex in L. cbn [snd] in L. now rewrite L.
  - unfold executePromotion in E.
    destruct (pendingPromotion s) as [promotion |];
      [| now inversion E; subst].
    destruct (cell (board s) (fromRow promotion) (fromCol promotion))
      as [piece |]; [| discriminate].
    cbv zeta in E. inversion E as [Es].
    match goal with
    | |- context [checkGameEndConditions ?x] =>
        destruct (checkGameEndConditions_frame x) as (F & _)
    end.
    cbv zeta in F. rewrite F.
    cbn [board set_pendingPromotion set_currentPlayer set_moveHistory
         set_board].
    now rewrite !set_cell_length.
  - destruct (checkGameEndConditions_frame s) as (F & _).
    cbv zeta in F. now rewrite F.
  - now rewrite handleCastling_board_length.
Qed.

Lemma isEnPassantSquare_rank (e : string) (toRow toCol : Z) :
  enPassantWellFormed e ->
  isEnPassantSquare e toRow toCol = true ->
  toRow = 5 \/ toRow = 2.
Proof.
  intros [-> | [a [-> | ->]]]; unfold isEnPassantSquare.
  - discriminate.
  - cbn [String.eqb]. destruct (Ascii.eqb a "-");
      cbn [charCodeAt0 parseIntCharAt1];
      change (parseDigit "3") with (Some 3); try discriminate;
      intros H; apply andb_true_iff in H as [_ H]; apply Z.eqb_eq in H; lia.
  - cbn [String.eqb]. destruct (Ascii.eqb a "-");
      cbn [charCodeAt0 parseIntCharAt1];
      change (parseDigit "6") with (Some 6); try discriminate;
      intros H; apply andb_true_iff in H as [_ H]; apply Z.eqb_eq in H; lia.
Qed.

(** A legal pawn move of two rows starts on the pawn's starting row, so
    the square stored as en-passant target lies on rank 3 or rank 6. *)
Lemma updateEnPassantTarget_wellFormed (s : State) (piece : Piece)
  (fromRow fromCol toRow toCol : Z) :
  (type piece = Pawn ->
   isValidPawnMove s piece fromRow fromCol toRow toCol = true) ->
  enPassantWellFormed
    (if PieceType_eqb (type piece) Pawn && (Z.abs (toRow - fromRow) =? 2)
     then (fromCharCode (97 + fromCol)
           ++ numToString (8 - (fromRow + toRow) / 2))%string
     else "-"%string).
Proof.
  intros H.
  destruct (PieceType_eqb (type piece) Pawn) eqn:T; [| now left].
  destruct (Z.abs (toRow - fromRow) =? 2) eqn:D; [| now left].
  apply PieceType_eqb_eq in T. apply Z.eqb_eq in D.
  apply H, isValidPawnMove_rows in T. simpl andb. cbv iota.
  right. exists (ascii_of_nat (Z.to_nat (97 + fromCol))).
  destruct (color piece); simpl in T.
  - left. assert (fromRow = 6 /\ toRow = 4) as [-> ->] by lia. reflexivity.
  - right. assert (fromRow = 1 /\ toRow = 3) as [-> ->] by lia. reflexivity.
Qed.

Lemma makeMove_enPassantWellFormed (s : State)
  (fromRow fromCol toRow toCol : Z) (r : MoveResult) (s' : State) :
  enPassantWellFormed (fenEnPassant s) ->
  makeMove s fromRow fromCol toRow toCol = Returned (r, s') ->
  enPassantWellFormed (fenEnPassant s').
Proof.
  intros W M.
  destruct (pendingPromotion s) as [pp |] eqn:Hp.
  { rewrite makeMove_blocked in M by (left; congruence).
    now inversion M; subst. }
  destruct (isGameOver s) eqn:Ho.
  { rewrite makeMove_blocked in M by (now right). now inversion M; subst. }
  destruct (makeMove_cases s fromRow fromCol toRow toCol Hp Ho)
    as [[_ E] | [(q & Hq & Cq & E) | [[_ E] | (q & Hq & Cq & V & E)]]];
    rewrite E in M.
  - discriminate.
  - destruct (canCastle s (color q) (sideOf toCol)).
    + inversion M; subst.
      destruct (handleCastling_cases s (sideOf toCol)
                  (deepCopyBoard (board s)))
        as [[_ F] | (_ & _ & _ & F & _)]; rewrite F; exact W.
    + now inversion M; subst.
  - now inversion M; subst.
  - inversion M as [Ex].
    assert (F := executeMove_fenEnPassant s q fromRow fromCol toRow toCol Cq).
    rewrite Ex in F. cbn [snd] in F. rewrite F.
    apply (updateEnPassantTarget_wellFormed s q fromRow fromCol toRow toCol).
    intros T.
    apply isValidMove_inv in V as (_ & q' & Hq' & _ & G & _).
    rewrite Hq in Hq'. inversion Hq'; subst q'.
    unfold isValidPieceMove in G. now rewrite T in G.
Qed.

Lemma executePromotion_fenEnPassant (s : State) (choice : PromotionChoice)
  (s' : State) :
  executePromotion s choice = Returned s' -> fenEnPassant s' = fenEnPassant s.
Proof.
  unfold executePromotion.
  destruct (pendingPromotion s) as [promotion |];
    [| intros E; now inversion E].
  destruct (cell (board s) (fromRow promotion) (fromCol promotion))
    as [piece |]; [| discriminate].
  cbv zeta. intros E. inversion E as [Es].
  match goal with
  | |- fenEnPassant (snd (checkGameEndConditions ?x)) = _ =>
      destruct (checkGameEndConditions_frame x)
        as (_ & _ & _ & _ & _ & _ & F & _)
  end.
  cbv zeta in F. rewrite F. reflexivity.
Qed.

Lemma reachable_enPassantWellFormed (s : State) :
  reachable s -> enPassantWellFormed (fenEnPassant s).
Proof.
  induction 1 as [| s fr fc tr tc r s' _ IH M | s choice s' _ IH E
                 | s _ IH | s side prevBoard _ IH].
  - now left.
  - exact (makeMove_enPassantWellFormed s fr fc tr tc r s' IH M).
  - now rewrite (executePromotion_fenEnPassant s choice s' E).
  - destruct (checkGameEndConditions_frame s)
      as (_ & _ & _ & _ & _ & _ & F & _).
    cbv zeta in F. now rewrite F.
  - destruct (handleCastling_cases s side prevBoard)
      as [[_ F] | (_ & _ & _ & F & _)]; rewrite F; exact IH.
Qed.

Lemma play_reachable (moves : list (Z * Z * Z * Z)) (s s' : State) :
  reachable s -> play s moves = Some s' -> reachable s'.
Proof.
  revert s. induction moves as [| [[[fr fc] tr] tc] rest IH]; intros s R P.
  - simpl in P. now inversion P; subst.
  - simpl in P.
    destruct (makeMove s fr fc tr tc) as [| [r s1]] eqn:M; [discriminate |].
    destruct r; try discriminate.
    apply (IH s1); [| assumption].
    exact (reachable_makeMove s fr fc tr tc RTrue s1 R M).
Qed.

(** Every game used as a concrete input is played from the starting
    position to its end, each move being completed by [makeMove]. *)
Lemma games_completed :
  play initialState game_enPassantPin = Some after_enPassantPin /\
  play initialState game_queensideBlocked = Some after_queensideBlocked /\
  play initialState game_rookCaptured = Some after_rookCaptured /\
  play initialState game_doubleStepThenCastle
  = Some after_doubleStepThenCastle /\
  play initialState game_italian = Some after_italian /\
  play initialState game_laskerThomas = Some after_laskerThomas /\
  play initialState game_kingE2 = Some after_kingE2 /\
  play initialState game_knightE2 = Some after_knightE2 /\
  play initialState game_twoKnights = Some after_twoKnights /\
  play initialState game_promotion = Some after_promotion.
Proof. repeat split; vm_compute; reflexivity. Qed.

(** * Check safety of the accepted moves (C1, X18) *)

(** X18.  Every completed move that is neither a castling nor an en-passant
    capture leaves the king of the player who moved out of check: the board
    after the move is the scratch board that [isValidMove] examined. *)
Lemma regular_move_keeps_king_safe (s : State) (piece : Piece)
  (fromRow fromCol toRow toCol : Z) (s' : State) :
  cell (board s) fromRow fromCol = Some piece ->
  isCastlingMove (Some piece) fromRow fromCol toRow toCol = false ->
  fst (handleEnPassant s piece fromRow fromCol toRow toCol) = false ->
  makeMove s fromRow fromCol toRow toCol = Returned (RTrue, s') ->
  board s' = testBoard (board s) piece fromRow fromCol toRow toCol /\
  isInCheck s' (color piece) = false.
Proof.
  intros Hc C Hep M.
  destruct (pendingPromotion s) as [pp |] eqn:Hp.
  { rewrite makeMove_blocked in M by (left; congruence). discriminate. }
  destruct (isGameOver s) eqn:Ho.
  { rewrite makeMove_blocked in M by (now right). discriminate. }
  destruct (makeMove_cases s fromRow fromCol toRow toCol Hp Ho)
    as [[_ E] | [(q & Hq & Cq & E) | [[_ E] | (q & Hq & Cq & V & E)]]];
    rewrite E in M; try discriminate;
    rewrite Hc in Hq; inversion Hq; subst q; [congruence |].
  injection M as Ex.
  assert (B : board s' = testBoard (board s) piece fromRow fromCol toRow toCol).
  { destruct (executeMove_regular s piece fromRow fromCol toRow toCol C)
      as (isEnPassant & isCapture & s3 & _ & _ & E3 & Er).
    destruct (isPawnPromotion s3 fromRow fromCol toRow toCol);
      [rewrite Er in Ex; discriminate |].
    cbv zeta in Er. rewrite Ex in Er. injection Er as ->.
    match goal with
    | |- context [checkGameEndConditions ?x] =>
        destruct (checkGameEndConditions_frame x) as (F & _)
    end.
    cbv zeta in F. rewrite F.
    cbn [board set_positionHistory set_currentPlayer set_moveHistory
         set_board].
    unfold testBoard. rewrite deepCopyBoard_id.
    assert (B3 : board s3 = board s).
    { rewrite E3. cbn [board set_halfmoveClock].
      match goal with
      | |- context [updateEnPassantTarget ?x piece fromRow fromCol
                      toRow toCol] =>
          destruct (updateEnPassantTarget_frame x piece
                      fromRow fromCol toRow toCol) as (G & _)
      end.
      cbv zeta in G. rewrite G.
      destruct (updateCastlingRights_frame (saveGameState s) piece
                  fromRow fromCol) as (B1 & P1 & _).
      cbv zeta in B1, P1.
      unfold handleEnPassant in *. rewrite B1, P1.
      cbn [board fenEnPassant saveGameState set_gameStateHistory].
      destruct (PieceType_eqb (type piece) Pawn
                && isEmpty (board s) toRow toCol
                && (Z.abs (toCol - fromCol) =? 1)
                && isEnPassantSquare (fenEnPassant s) toRow toCol);
        [discriminate |].
      cbn [snd]. exact B1. }
    now rewrite B3. }
  split; [exact B |].
  apply isValidMove_inv in V as (_ & q & Hq' & _ & _ & K).
  rewrite Hc in Hq'. inversion Hq'; subst q.
  unfold isInCheck. rewrite B.
  rewrite (isInCheckOnBoard_state s' s). exact K.
Qed.

(** C1, failing input.  After 1. e4 a5 2. e5 a4 3. Ke2 Ra5 4. Kf3 b6
    5. Kg4 c6 6. Kh5 d5 the capture e5xd6 en passant passes [isValidMove]:
    its scratch board still holds the black pawn of d5, which shields the
    king of h5 from the rook of a5.  [makeMove] completes the capture,
    removes that pawn, and the white king is in check on the resulting
    board, white having just moved. *)
Theorem enPassant_capture_exposes_king :
  play initialState game_enPassantPin = Some after_enPassantPin /\
  currentPlayer after_enPassantPin = White /\
  isValidMove after_enPassantPin 3 4 2 3 = true /\
  cell (testBoard (board after_enPassantPin) (mkPiece SymWP Pawn White)
          3 4 2 3) 3 3
  = Some (mkPiece SymBP Pawn Black) /\
  exists s',
    makeMove after_enPassantPin 3 4 2 3 = Returned (RTrue, s') /\
    cell (board s') 3 3 = None /\
    isInCheck s' White = true.
Proof.
  split; [vm_compute; reflexivity |]. split; [vm_compute; reflexivity |].
  split; [vm_compute; reflexivity |]. split; [vm_compute; reflexivity |].
  eexists. split; [vm_compute; reflexivity |].
  split; vm_compute; reflexivity.
Qed.

(** * Castling eligibility (C2, X17) *)




(** A castling right is never given back: a flag set after a call of
    [makeMove] was set before it. *)
Lemma makeMove_rights_monotone (s : State)
  (fromRow fromCol toRow toCol : Z) (r : MoveResult) (s' : State) (c : Color) :
  makeMove s fromRow fromCol toRow toCol = Returned (r, s') ->
  (king (rights_of (castlingRights s') c) = true ->
   king (rights_of (castlingRights s) c) = true) /\
  (rookQueen (rights_of (castlingRights s') c) = true ->
   rookQueen (rights_of (castlingRights s) c) = true) /\
  (rookKing (rights_of (castlingRights s') c) = true ->
   rookKing (rights_of (castlingRights s) c) = true).
Proof.
  intros M.
  destruct (pendingPromotion s) as [pp |] eqn:Hp.
  { rewrite makeMove_blocked in M by (left; congruence).
    injection M as _ <-. auto. }
  destruct (isGameOver s) eqn:Ho.
  { rewrite makeMove_blocked in M by (now right). injection M as _ <-. auto. }
  destruct (makeMove_cases s fromRow fromCol toRow toCol Hp Ho)
    as [[_ E] | [(q & Hq & Cq & E) | [[_ E] | (q & Hq & Cq & V & E)]]];
    rewrite E in M.
  - discriminate.
  - destruct (canCastle s (color q) (sideOf toCol));
      [| injection M as _ <-; auto].
    injection M as _ <-. unfold handleCastling.
    destruct (canCastle s (currentPlayer s) (sideOf toCol)); [| simpl; auto].
    destruct s as [b cp sq mh gh go gw pp cr fc ep hc ph].
    destruct (sideOf toCol), cp, c; simpl; auto; repeat split; discriminate.
  - injection M as _ <-. auto.
  - injection M as Ex.
    pose proof (executeMove_castlingRights s q fromRow fromCol toRow toCol Cq)
      as F.
    rewrite Ex in F. cbn [snd] in F. rewrite F.
    unfold updateCastlingRights.
    destruct (type q), (color q), c; simpl; auto;
      repeat match goal with
             | |- context [if ?x then _ else _] => destruct x
             end;
      simpl; auto; repeat split; auto; discriminate.
Qed.

(** A completed move of a king, a castling included, clears the king flag
    of the player who moved; a completed move of a rook that leaves column
    0 or column 7 clears the corresponding rook flag of that player. *)
Lemma moved_piece_loses_right (s : State) (piece : Piece)
  (fromRow fromCol toRow toCol : Z) (s' : State) :
  cell (board s) fromRow fromCol = Some piece ->
  makeMove s fromRow fromCol toRow toCol = Returned (RTrue, s') ->
  (type piece = King ->
   king (rights_of (castlingRights s') (currentPlayer s)) = false) /\
  (type piece = Rook -> fromCol = 0 ->
   rookQueen (rights_of (castlingRights s') (currentPlayer s)) = false) /\
  (type piece = Rook -> fromCol = 7 ->
   rookKing (rights_of (castlingRights s') (currentPlayer s)) = false).
Proof.
  intros Hc M.
  destruct (pendingPromotion s) as [pp |] eqn:Hp.
  { rewrite makeMove_blocked in M by (left; congruence). discriminate. }
  destruct (isGameOver s) eqn:Ho.
  { rewrite makeMove_blocked in M by (now right). discriminate. }
  destruct (makeMove_cases s fromRow fromCol toRow toCol Hp Ho)
    as [[_ E] | [(q & Hq & Cq & E) | [[_ E] | (q & Hq & Cq & V & E)]]];
    rewrite E in M; try discriminate;
    rewrite Hc in Hq; inversion Hq; subst q.
  - assert (T : type piece = King).
    { unfold isCastlingMove in Cq.
      destruct (PieceType_eqb (type piece) King) eqn:T; [| discriminate].
      now apply PieceType_eqb_eq. }
    destruct (canCastle s (color piece) (sideOf toCol)); [| discriminate].
    injection M as Er <-. unfold handleCastling in *.
    destruct (canCastle s (currentPlayer s) (sideOf toCol));
      [| discriminate].
    destruct s as [b cp sq mh gh go gw pp cr fc ep hc ph].
    destruct (sideOf toCol), cp; simpl; repeat split; congruence.
  - injection M as Ex.
    pose proof (executeMove_castlingRights s piece
                  fromRow fromCol toRow toCol Cq) as F.
    rewrite Ex in F. cbn [snd] in F. rewrite F.
    apply isValidMove_inv in V as (_ & q & Hq' & Hcol & _).
    rewrite Hc in Hq'. inversion Hq'; subst q. rewrite <- Hcol.
    unfold updateCastlingRights.
    repeat split; intros T; rewrite T; try intros ->;
      destruct (color piece); reflexivity.
Qed.

Lemma play_rights_monotone (moves : list (Z * Z * Z * Z)) (s s' : State)
  (c : Color) :
  play s moves = Some s' ->
  (king (rights_of (castlingRights s') c) = true ->
   king (rights_of (castlingRights s) c) = true) /\
  (rookQueen (rights_of (castlingRights s') c) = true ->
   rookQueen (rights_of (castlingRights s) c) = true) /\
  (rookKing (rights_of (castlingRights s') c) = true ->
   rookKing (rights_of (castlingRights s) c) = true).
Proof.
  revert s. induction moves as [| [[[fr fc] tr] tc] rest IH]; intros s P.
  - simpl in P. injection P as <-. auto.
  - simpl in P.
    destruct (makeMove s fr fc tr tc) as [| [r s1]] eqn:M; [discriminate |].
    destruct r; try discriminate.
    destruct (IH s1 P) as (K1 & Q1 & R1).
    destruct (makeMove_rights_monotone s fr fc tr tc RTrue s1 c M)
      as (K0 & Q0 & R0).
    auto.
Qed.

(** X17.  The flags of [castlingRights] are sound for the history of the game:
    a king flag still set means that no completed move of the game was made
    with that player's king, a rook flag still set that no rook of that player
    ever left the corresponding column, in particular not the rook of the home
    square.  (A flag says nothing about captures: see
    [castling_after_rook_capture].) *)
Lemma castlingRights_sound (moves : list (Z * Z * Z * Z)) (s s' : State)
  (c : Color) :
  play s moves = Some s' ->
  (king (rights_of (castlingRights s') c) = true ->
   forall sq, ~ In (c, King, sq) (movesMade s moves)) /\
  (rookQueen (rights_of (castlingRights s') c) = true ->
   forall r, ~ In (c, Rook, (r, 0)) (movesMade s moves)) /\
  (rookKing (rights_of (castlingRights s') c) = true ->
   forall r, ~ In (c, Rook, (r, 7)) (movesMade s moves)).
Proof.
  revert s. induction moves as [| [[[fr fc] tr] tc] rest IH]; intros s P.
  - simpl. auto.
  - simpl in P. simpl movesMade.
    destruct (makeMove s fr fc tr tc) as [| [r s1]] eqn:M; [discriminate |].
    destruct r; try discriminate.
    destruct (IH s1 P) as (K1 & Q1 & R1).
    destruct (play_rights_monotone rest s1 s' c P) as (K0 & Q0 & R0).
    destruct (cell (board s) fr fc) as [piece |] eqn:Hc;
      [| split; [| split]; assumption].
    destruct (moved_piece_loses_right s piece fr fc tr tc s1 Hc M)
      as (LK & LQ & LR).
    split; [| split].
    + intros F sq [E | H]; [| now apply (K1 F sq)].
      injection E as Ec Et _. subst c. apply K0 in F.
      rewrite (LK Et) in F. discriminate.
    + intros F r [E | H]; [| now apply (Q1 F r)].
      injection E as Ec Et _ Ecol. subst c. apply Q0 in F.
      rewrite (LQ Et Ecol) in F. discriminate.
    + intros F r [E | H]; [| now apply (R1 F r)].
      injection E as Ec Et _ Ecol. subst c. apply R0 in F.
      rewrite (LR Et Ecol) in F. discriminate.
Qed.




(** The slip next to C2: a rook captured on its home square leaves the
    rook flag set.  After 1. Nh3 b6 2. g4 Bb7 3. Bg2 Bxg2 4. a3 Bxh1 white
    castles king's side although the rook of h1 is gone, and the black
    bishop that captured it is carried from h1 to f1. *)
Theorem castling_after_rook_capture :
  exists s',
    makeMove (after_rookCaptured) 7 4 7 6 = Returned (RTrue, s') /\
    cell (board (after_rookCaptured)) 7 7
      = Some (mkPiece SymBB Bishop Black) /\
    cell (board s') 7 6 = Some (mkPiece SymWK King White) /\
    cell (board s') 7 5 = Some (mkPiece SymBB Bishop Black) /\
    cell (board s') 7 7 = None.
Proof.
  eexists. split; [vm_compute; reflexivity |].
  repeat split; vm_compute; reflexivity.
Qed.

(** * Promotion suspends the move (C3) *)

Lemma attempts_blocked (s : State) (moves : list (Z * Z * Z * Z)) :
  pendingPromotion s <> None \/ isGameOver s = true ->
  attempts s moves = Returned (map (fun _ => RFalse) moves, s).
Proof.
  intros H. induction moves as [| [[[fr fc] tr] tc] rest IH];
    [reflexivity |].
  simpl. rewrite (makeMove_blocked s fr fc tr tc H), IH. reflexivity.
Qed.

(** C3.  With no promotion pending and the game not over, a pawn move that
    passes the legality check and lands on the far rank makes [makeMove]
    return the promotion result and record the pending promotion; as long
    as it is recorded every further call of [makeMove] is rejected and
    leaves the state as it is. *)
Theorem pawn_on_far_rank_suspends (s : State) (piece : Piece)
  (fromRow fromCol toRow toCol : Z) :
  pendingPromotion s = None ->
  isGameOver s = false ->
  cell (board s) fromRow fromCol = Some piece ->
  type piece = Pawn ->
  isValidMove s fromRow fromCol toRow toCol = true ->
  toRow = farRank (color piece) ->
  exists s',
    makeMove s fromRow fromCol toRow toCol = Returned (RPromotion, s') /\
    pendingPromotion s'
    = Some (mkPromotion fromRow fromCol toRow toCol (color piece)) /\
    (forall a b c d, makeMove s' a b c d = Returned (RFalse, s')) /\
    (forall moves,
        attempts s' moves = Returned (map (fun _ => RFalse) moves, s')).
Proof.
  intros Hp Ho Hcell Ht Hv Hr.
  assert (C : isCastlingMove (Some piece) fromRow fromCol toRow toCol = false)
    by (apply isCastlingMove_not_king; congruence).
  destruct (makeMove_cases s fromRow fromCol toRow toCol Hp Ho)
    as [[R _] | [(q & Hq & Cq & _) | [[V _] | (q & Hq & _ & _ & M)]]].
  - destruct (cell_row_at _ _ _ _ Hcell) as [row Hrow]. congruence.
  - rewrite Hcell in Hq. inversion Hq; subst q. congruence.
  - congruence.
  - rewrite Hcell in Hq. inversion Hq; subst q.
    destruct (executeMove_result s piece fromRow fromCol toRow toCol C Hcell)
      as [(_ & _ & s3 & E & _) | [N _]]; [| now elim N].
    exists (set_pendingPromotion s3
              (Some (mkPromotion fromRow fromCol toRow toCol (color piece)))).
    rewrite M, E. split; [reflexivity |]. split; [reflexivity |].
    split.
    + intros a b c d. apply makeMove_blocked. left. discriminate.
    + intros moves. apply attempts_blocked. left. discriminate.
Qed.

(** Witness of [pawn_on_far_rank_suspends]: after 1. a4 b5 2. axb5 a6
    3. bxa6 Bb7 4. a7 Bc6 the pawn of a7 captures on b8. *)
Lemma pawn_on_far_rank_suspends_witness :
  pendingPromotion after_promotion = None /\
  isGameOver after_promotion = false /\
  cell (board after_promotion) 1 0 = Some (mkPiece SymWP Pawn White) /\
  isValidMove after_promotion 1 0 0 1 = true /\
  exists s',
    makeMove after_promotion 1 0 0 1 = Returned (RPromotion, s') /\
    pendingPromotion s' = Some (mkPromotion 1 0 0 1 White) /\
    (forall a b c d, makeMove s' a b c d = Returned (RFalse, s')) /\
    (forall moves,
        attempts s' moves = Returned (map (fun _ => RFalse) moves, s')).
Proof.
  split; [vm_compute; reflexivity |]. split; [vm_compute; reflexivity |].
  split; [vm_compute; reflexivity |]. split; [vm_compute; reflexivity |].
  apply (pawn_on_far_rank_suspends after_promotion
           (mkPiece SymWP Pawn White) 1 0 0 1);
    vm_compute; reflexivity.
Defined.

(** * Rejections and faults (C4, X15, X16) *)

(** X15.  Whenever [makeMove] answers [false], no field of the engine has
    changed: the state after the call is the state before it. *)
Lemma makeMove_rejection_frame (s : State)
  (fromRow fromCol toRow toCol : Z) (s' : State) :
  makeMove s fromRow fromCol toRow toCol = Returned (RFalse, s') -> s' = s.
Proof.
  intros M.
  destruct (pendingPromotion s) as [pp |] eqn:Hp.
  { rewrite makeMove_blocked in M by (left; congruence).
    now inversion M. }
  destruct (isGameOver s) eqn:Ho.
  { rewrite makeMove_blocked in M by (now right). now inversion M. }
  destruct (makeMove_cases s fromRow fromCol toRow toCol Hp Ho)
    as [[_ E] | [(q & Hq & Cq & E) | [[_ E] | (q & Hq & Cq & V & E)]]];
    rewrite E in M.
  - discriminate.
  - destruct (canCastle s (color q) (sideOf toCol)); [| now inversion M].
    destruct (handleCastling_cases s (sideOf toCol) (deepCopyBoard (board s)))
      as [[_ F] | (_ & F & _)]; rewrite F in M.
    + now inversion M.
    + discriminate.
  - now inversion M.
  - inversion M as [Ex].
    pose proof (executeMove_not_rejected s q fromRow fromCol toRow toCol Cq)
      as N.
    rewrite Ex in N. now elim N.
Qed.

(** X16.  In a reachable state [makeMove] throws exactly when no promotion is
    pending, the game is not over, and the row of origin is outside the board;
    every other call returns a result. *)
Lemma makeMove_throws_iff (s : State) (fromRow fromCol toRow toCol : Z) :
  reachable s ->
  (makeMove s fromRow fromCol toRow toCol = Threw <->
   pendingPromotion s = None /\ isGameOver s = false /\
   (fromRow < 0 \/ 7 < fromRow)).
Proof.
  intros R. pose proof (reachable_board_length s R) as L.
  destruct (pendingPromotion s) as [pp |] eqn:Hp.
  { rewrite makeMove_blocked by (left; congruence).
    split; [discriminate | intros [H _]; discriminate]. }
  destruct (isGameOver s) eqn:Ho.
  { rewrite makeMove_blocked by (now right).
    split; [discriminate | intros (_ & H & _); discriminate]. }
  rewrite <- (row_at_None _ fromRow L).
  destruct (makeMove_cases s fromRow fromCol toRow toCol Hp Ho)
    as [[N E] | [(q & Hq & Cq & E) | [[V E] | (q & Hq & Cq & V & E)]]];
    rewrite E.
  - tauto.
  - destruct (cell_row_at _ _ _ _ Hq) as [row Hrow].
    destruct (canCastle s (color q) (sideOf toCol));
      (split; [discriminate | intros (_ & _ & H); congruence]).
  - split; [discriminate |]. intros (_ & _ & H).
    unfold makeMove in E. rewrite Hp, Ho, H in E. discriminate.
  - destruct (cell_row_at _ _ _ _ Hq) as [row Hrow].
    split; [discriminate | intros (_ & _ & H); congruence].
Qed.

(** C4, failing input.  From the starting position a call with a row of
    origin outside the board raises the [TypeError] of [board[8][0]]
    instead of returning a rejection. *)
Theorem makeMove_throws_on_row_out_of_range :
  makeMove initialState 8 0 0 0 = Threw /\
  makeMove initialState (-1) 0 0 0 = Threw.
Proof. split; vm_compute; reflexivity. Qed.

(** * Bookkeeping of completed moves (C5, C6, C7, X19, X20) *)

(** X19.  For a completed move that is not a castling: the en-passant target
    is the square passed over when the piece is a pawn that advanced two rows
    and ["-"] otherwise; the halfmove clock is 0 for a pawn move, a capture or
    an en-passant capture and one more than before otherwise; and the state
    returned is the one [checkGameEndConditions] produces for the new
    position, whose key has been appended to the position history. *)
Lemma regular_move_bookkeeping (s : State) (piece : Piece)
  (fromRow fromCol toRow toCol : Z) (s' : State) :
  cell (board s) fromRow fromCol = Some piece ->
  isCastlingMove (Some piece) fromRow fromCol toRow toCol = false ->
  makeMove s fromRow fromCol toRow toCol = Returned (RTrue, s') ->
  fenEnPassant s'
  = (if PieceType_eqb (type piece) Pawn && (Z.abs (toRow - fromRow) =? 2)
     then (fromCharCode (97 + fromCol)
           ++ numToString (8 - (fromRow + toRow) / 2))%string
     else "-"%string) /\
  halfmoveClock s'
  = (if PieceType_eqb (type piece) Pawn
        || match cell (board s) toRow toCol with
           | Some target => negb (Color_eqb (color target) (color piece))
           | None => false
           end
        || fst (handleEnPassant s piece fromRow fromCol toRow toCol)
     then 0 else halfmoveClock s + 1) /\
  exists s7,
    s' = snd (checkGameEndConditions s7) /\
    currentPlayer s7 = opponent (currentPlayer s) /\
    positionHistory s7
    = (positionHistory s ++ [generatePositionKey s7])%list.
Proof.
  intros Hc C M.
  destruct (pendingPromotion s) as [pp |] eqn:Hp.
  { rewrite makeMove_blocked in M by (left; congruence). discriminate. }
  destruct (isGameOver s) eqn:Ho.
  { rewrite makeMove_blocked in M by (now right). discriminate. }
  destruct (makeMove_cases s fromRow fromCol toRow toCol Hp Ho)
    as [[_ E] | [(q & Hq & Cq & E) | [[_ E] | (q & Hq & Cq & V & E)]]];
    rewrite E in M; try discriminate.
  - rewrite Hc in Hq. inversion Hq; subst q. congruence.
  - rewrite Hc in Hq. inversion Hq; subst q. injection M as Ex.
    pose proof (executeMove_fenEnPassant s piece fromRow fromCol toRow toCol C)
      as F1.
    pose proof (executeMove_halfmoveClock s piece fromRow fromCol toRow toCol C)
      as F2.
    rewrite Ex in F1, F2. cbn [snd] in F1, F2.
    split; [exact F1 |]. split; [exact F2 |].
    destruct (executeMove_regular s piece fromRow fromCol toRow toCol C)
      as (isEnPassant & isCapture & s3 & _ & _ & E3 & Er).
    destruct (isPawnPromotion s3 fromRow fromCol toRow toCol);
      [rewrite Er in Ex; discriminate |].
    cbv zeta in Er.
    match type of Er with
    | _ = (RTrue, snd (checkGameEndConditions ?x)) => set (s7 := x) in *
    end.
    exists s7. split; [rewrite Ex in Er; now injection Er |].
    assert (P3 : currentPlayer s3 = currentPlayer s /\
                 positionHistory s3 = positionHistory s).
    { rewrite E3. clear.
      unfold updateEnPassantTarget, handleEnPassant, updateCastlingRights.
      destruct (type piece), (color piece);
        repeat match goal with
               | |- context [if ?c then _ else _] => destruct c
               end;
        split; reflexivity. }
    destruct P3 as [P3 H3].
    split.
    + unfold s7. cbn [currentPlayer set_positionHistory set_currentPlayer
                      set_moveHistory set_board].
      now rewrite P3.
    + unfold s7 at 1.
      cbn [positionHistory set_positionHistory set_currentPlayer
           set_moveHistory set_board].
      rewrite H3. reflexivity.
Qed.

(** The decision of [checkGameEndConditions]: the game is marked as over
    exactly when it already was, or the player to move has no legal move,
    or the halfmove clock has reached 100, or the position key occurs three
    times in the position history; the last two also when legal moves
    exist. *)
Lemma checkGameEndConditions_gameOver (s : State) :
  isGameOver (snd (checkGameEndConditions s)) = true <->
  isGameOver s = true \/ getAllLegalMoves s = [] \/
  100 <= halfmoveClock s \/ isThreefoldRepetition s = true.
Proof.
  unfold checkGameEndConditions.
  destruct (getAllLegalMoves s) as [| m rest] eqn:L.
  - simpl. destruct (isInCheck s (currentPlayer s)); simpl; tauto.
  - assert ((Z.of_nat (List.length (m :: rest)) =? 0) = false) as ->
      by (apply Z.eqb_neq; simpl List.length; lia).
    destruct (halfmoveClock s >=? 100) eqn:F.
    + simpl. split; [| reflexivity]. intros _. right. right. left. lia.
    + destruct (isThreefoldRepetition s) eqn:T; simpl.
      * tauto.
      * split; [tauto |].
        intros [H | [H | [H | H]]]; try congruence; lia.
Qed.

Lemma checkGameEndConditions_draws (s : State) :
  getAllLegalMoves s <> [] ->
  (100 <= halfmoveClock s ->
   checkGameEndConditions s = (Some FiftyMoves, set_gameOver s WinnerDraw))
  /\ (halfmoveClock s < 100 -> isThreefoldRepetition s = true ->
      checkGameEndConditions s = (Some Repetition, set_gameOver s WinnerDraw)).
Proof.
  intros L. unfold checkGameEndConditions.
  destruct (getAllLegalMoves s) as [| m rest]; [now elim L |].
  assert ((Z.of_nat (List.length (m :: rest)) =? 0) = false) as ->
    by (apply Z.eqb_neq; simpl List.length; lia).
  split.
  - intros H. assert ((halfmoveClock s >=? 100) = true) as -> by lia.
    reflexivity.
  - intros H T. assert ((halfmoveClock s >=? 100) = false) as -> by lia.
    now rewrite T.
Qed.

(** Completing a promotion ends with [checkGameEndConditions] for the other
    player; unlike a regular move it appends nothing to the position
    history. *)
Lemma executePromotion_checks_game_end (s : State) (promotion : Promotion)
  (piece : Piece) (choice : PromotionChoice) :
  pendingPromotion s = Some promotion ->
  cell (board s) (fromRow promotion) (fromCol promotion) = Some piece ->
  exists s7,
    executePromotion s choice = Returned (snd (checkGameEndConditions s7)) /\
    currentPlayer s7 = opponent (currentPlayer s) /\
    pendingPromotion s7 = None /\
    positionHistory s7 = positionHistory s.
Proof.
  intros Hp Hc. unfold executePromotion. rewrite Hp, Hc. cbv zeta.
  eexists. split; [reflexivity |]. repeat split; reflexivity.
Qed.

(** X20.  A castling completed by [makeMove] switches the player to move; the
    en-passant target, the halfmove clock, the position history and the
    game-over flag are those of before the move: [handleCastling] updates none
    of them and does not call [checkGameEndConditions]. *)
Lemma castling_bookkeeping (s : State) (piece : Piece)
  (fromRow fromCol toRow toCol : Z) (s' : State) :
  cell (board s) fromRow fromCol = Some piece ->
  isCastlingMove (Some piece) fromRow fromCol toRow toCol = true ->
  makeMove s fromRow fromCol toRow toCol = Returned (RTrue, s') ->
  currentPlayer s' = opponent (currentPlayer s) /\
  fenEnPassant s' = fenEnPassant s /\
  halfmoveClock s' = halfmoveClock s /\
  positionHistory s' = positionHistory s /\
  isGameOver s' = false /\
  gameWinner s' = gameWinner s.
Proof.
  intros Hc C M.
  destruct (pendingPromotion s) as [pp |] eqn:Hp.
  { rewrite makeMove_blocked in M by (left; congruence). discriminate. }
  destruct (isGameOver s) eqn:Ho.
  { rewrite makeMove_blocked in M by (now right). discriminate. }
  destruct (makeMove_cases s fromRow fromCol toRow toCol Hp Ho)
    as [[_ E] | [(q & Hq & Cq & E) | [[_ E] | (q & Hq & Cq & V & E)]]];
    rewrite E in M; try discriminate.
  - destruct (canCastle s (color q) (sideOf toCol)); [| discriminate].
    destruct (handleCastling_cases s (sideOf toCol) (deepCopyBoard (board s)))
      as [[_ F] | (_ & _ & F)]; [rewrite F in M; discriminate |].
    injection M as Er Es. subst s'. cbv zeta in F.
    destruct F as (F1 & F2 & F3 & F4 & F5 & F6 & _).
    rewrite F1, F2, F3, F4, F5, F6. repeat split; auto.
  - rewrite Hc in Hq. inversion Hq; subst q. congruence.
Qed.

(** C5, failing input.  After 1. e4 e5 2. Nf3 Nc6 3. Bc4 h5 the en-passant
    target is h6.  White castles; the target is still h6 although the move
    just completed is not a pawn move, and black may then play g7-h6, a
    diagonal pawn move to an empty square that captures nothing. *)
Theorem castling_keeps_enPassant_target :
  play initialState game_doubleStepThenCastle
  = Some after_doubleStepThenCastle /\
  fenEnPassant after_doubleStepThenCastle = "h6" /\
  exists s',
    makeMove after_doubleStepThenCastle 7 4 7 6 = Returned (RTrue, s') /\
    fenEnPassant s' = "h6" /\
    cell (board s') 2 7 = None /\ cell (board s') 1 7 = None /\
    isValidMove s' 1 6 2 7 = true.
Proof.
  split; [vm_compute; reflexivity |]. split; [vm_compute; reflexivity |].
  eexists. split; [vm_compute; reflexivity |].
  repeat split; vm_compute; reflexivity.
Qed.

(** C6, failing input.  After 1. e4 e5 2. Nf3 Nc6 3. Bc4 Bc5 the halfmove
    clock is 4; white castles, which is neither a pawn move nor a capture,
    and the clock is still 4. *)
Theorem castling_leaves_halfmoveClock :
  play initialState game_italian = Some after_italian /\
  halfmoveClock after_italian = 4 /\
  exists s',
    makeMove after_italian 7 4 7 6 = Returned (RTrue, s') /\
    halfmoveClock s' = 4.
Proof.
  split; [vm_compute; reflexivity |]. split; [vm_compute; reflexivity |].
  eexists. split; vm_compute; reflexivity.
Qed.

(** C7, failing input.  In Ed. Lasker - Thomas after 17... Kg1 white
    castles queen's side.  Black, now to move, is in check and has no legal
    move, but the engine has not looked: the game is not marked as over and
    nothing was added to the position history.  [checkGameEndConditions],
    had it been called, reports checkmate. *)
Theorem castling_skips_game_end_check :
  play initialState game_laskerThomas = Some after_laskerThomas /\
  exists s',
    makeMove after_laskerThomas 7 4 7 2 = Returned (RTrue, s') /\
    currentPlayer s' = Black /\
    getAllLegalMoves s' = [] /\
    isInCheck s' Black = true /\
    isGameOver s' = false /\ gameWinner s' = None /\
    positionHistory s' = positionHistory after_laskerThomas /\
    fst (checkGameEndConditions s') = Some Checkmate.
Proof.
  split; [vm_compute; reflexivity |].
  eexists. split; [vm_compute; reflexivity |].
  repeat split; vm_compute; reflexivity.
Qed.

(** * Position keys (C8) *)

Lemma fold_left_ext_in {A B : Type} (f g : A -> B -> A) (l : list B) (a : A) :
  (forall x y, In y l -> f x y = g x y) -> fold_left f l a = fold_left g l a.
Proof.
  revert a. induction l as [| y l IH]; intros a H; [reflexivity |].
  simpl. rewrite (H a y (or_introl eq_refl)). apply IH.
  intros x z Hz. apply H. now right.
Qed.

(** Two states that agree on every square of the board, on the player to
    move, on the castling availability and on the en-passant target have
    the same key, whatever their histories and clocks. *)
Lemma generatePositionKey_ext (s1 s2 : State) :
  (forall r c, onBoard r c -> cell (board s1) r c = cell (board s2) r c) ->
  currentPlayer s1 = currentPlayer s2 ->
  fenCastling s1 = fenCastling s2 ->
  fenEnPassant s1 = fenEnPassant s2 ->
  generatePositionKey s1 = generatePositionKey s2.
Proof.
  intros Hb Hp Hc He. unfold generatePositionKey.
  rewrite Hp, Hc, He. do 3 f_equal.
  apply fold_left_ext_in. intros key [r c] Hin.
  apply In_squares in Hin. simpl. now rewrite (Hb r c Hin).
Qed.

(** C8, failing input.  The games 1. e3 a5 2. Ke2 Nf6 3. Nf3 Ng8 and
    1. e3 a6 2. Ke2 a5 3. Kf3 Nf6 4. Ne2 Ng8 end in positions that differ
    on e2 and f3, where a white king and a white knight have changed
    places; king and knight are both written [k] and the two positions
    have the same key. *)
Theorem positionKey_confuses_king_and_knight :
  play initialState game_kingE2 = Some after_kingE2 /\
  play initialState game_knightE2 = Some after_knightE2 /\
  cell (board after_kingE2) 6 4 = Some (mkPiece SymWK King White) /\
  cell (board after_knightE2) 6 4 = Some (mkPiece SymWN Knight White) /\
  generatePositionKey after_kingE2 = generatePositionKey after_knightE2.
Proof.
  split; [vm_compute; reflexivity |]. split; [vm_compute; reflexivity |].
  split; [vm_compute; reflexivity |]. split; [vm_compute; reflexivity |].
  vm_compute; reflexivity.
Qed.

(** * The piece-move parser (C9) *)




Lemma candidateAt_position (s : State) (targetSymbol : Symbol)
  (rc : Z * Z) (x : Z * Z * Piece) :
  In x (candidateAt s targetSymbol rc) -> fst x = rc.
Proof.
  unfold candidateAt. destruct (cell (board s) (fst rc) (snd rc)) as [p |];
    [| contradiction].
  destruct (_ && _); [| contradiction].
  intros [<- | []]. now destruct rc.
Qed.







(** What the parser does with the token Nd2 of the counterexample: it
    plays the knight of f3, the first of the two in row-major order. *)
Theorem ambiguous_Nd2_plays_first_candidate :
  exists s',
    handlePieceMove after_twoKnights Knight "" 6 3 = Returned (RTrue, s') /\
    cell (board s') 6 3 = Some (mkPiece SymWN Knight White) /\
    cell (board s') 5 5 = None /\
    cell (board s') 7 1 = Some (mkPiece SymWN Knight White).
Proof.
  eexists. split; [vm_compute; reflexivity |].
  repeat split; vm_compute; reflexivity.
Qed.

(** * The board while a promotion is pending (C10) *)

(** What resolving a pending promotion does to the board. *)
Lemma executePromotion_board (s : State) (promotion : Promotion)
  (piece : Piece) (choice : PromotionChoice) :
  pendingPromotion s = Some promotion ->
  cell (board s) (fromRow promotion) (fromCol promotion) = Some piece ->
  exists s'',
    executePromotion s choice = Returned s'' /\
    board s''
    = set_cell
        (set_cell (board s) (toRow promotion) (toCol promotion)
           (Some (mkPiece (choiceSymbol choice (color piece))
                          (choiceType choice) (color piece))))
        (fromRow promotion) (fromCol promotion) None.
Proof.
  intros Hp Hc. unfold executePromotion. rewrite Hp, Hc. cbv zeta.
  eexists. split; [reflexivity |].
  match goal with
  | |- board (snd (checkGameEndConditions ?x)) = _ =>
      destruct (checkGameEndConditions_frame x) as (F & _)
  end.
  cbv zeta in F. rewrite F. reflexivity.
Qed.

(** C10.  In a reachable state, when [makeMove] returns the promotion
    result the board is the board of before the call: the pawn is still on
    its square of origin and the destination holds what it held.  The
    bookkeeping of the suspended move is done: the castling rights are those
    of before the call, which the move of a pawn does not change, the
    en-passant target is cleared to [-] whatever it was, the halfmove clock
    is 0, and the promotion is recorded as pending.  The board changes when
    the promotion is resolved: the chosen piece is put on the destination
    and the square of origin is emptied. *)
Theorem promotion_result_leaves_board (s : State)
  (fromRow fromCol toRow toCol : Z) (s' : State) :
  reachable s ->
  makeMove s fromRow fromCol toRow toCol = Returned (RPromotion, s') ->
  exists pawn,
    type pawn = Pawn /\
    board s' = board s /\
    cell (board s') fromRow fromCol = Some pawn /\
    cell (board s') toRow toCol = cell (board s) toRow toCol /\
    castlingRights s' = castlingRights s /\
    fenCastling s' = fenCastling s /\
    fenEnPassant s' = "-"%string /\
    halfmoveClock s' = 0 /\
    pendingPromotion s'
    = Some (mkPromotion fromRow fromCol toRow toCol (color pawn)) /\
    forall choice, exists s'',
      executePromotion s' choice = Returned s'' /\
      board s''
      = set_cell
          (set_cell (board s) toRow toCol
             (Some (mkPiece (choiceSymbol choice (color pawn))
                            (choiceType choice) (color pawn))))
          fromRow fromCol None.
Proof.
  intros R M.
  assert (W := reachable_enPassantWellFormed s R).
  destruct (pendingPromotion s) as [pp |] eqn:Hp.
  { rewrite makeMove_blocked in M by (left; congruence). discriminate. }
  destruct (isGameOver s) eqn:Ho.
  { rewrite makeMove_blocked in M by (now right). discriminate. }
  destruct (makeMove_cases s fromRow fromCol toRow toCol Hp Ho)
    as [[_ E] | [(q & Hq & Cq & E) | [[_ E] | (q & Hq & Cq & V & E)]]];
    rewrite E in M.
  - discriminate.
  - destruct (canCastle s (color q) (sideOf toCol)); [| discriminate].
    destruct (fst (handleCastling s (sideOf toCol) (deepCopyBoard (board s))));
      discriminate.
  - discriminate.
  - inversion M as [Ex].
    destruct (executeMove_promotion s q fromRow fromCol toRow toCol s' Cq Hq Ex)
      as (T & Far & Es).
    assert (Hep : handleEnPassant (saveGameState s) q
                    fromRow fromCol toRow toCol
                  = (false, saveGameState s)).
    { destruct (handleEnPassant_cases (saveGameState s) q
                  fromRow fromCol toRow toCol)
        as [F | (_ & _ & _ & P & _)]; [exact F |].
      apply (isEnPassantSquare_rank _ _ _ W) in P.
      destruct (color q); simpl in Far; lia. }
    rewrite Hep in Es. cbn [snd] in Es.
    assert (Step : (PieceType_eqb (type q) Pawn
                    && (Z.abs (toRow - fromRow) =? 2)) = false).
    { apply isValidMove_inv in V as (_ & q' & Hq' & _ & Vp & _).
      rewrite Hq in Hq'. inversion Hq'; subst q'.
      unfold isValidPieceMove in Vp. rewrite T in Vp.
      apply isValidPawnMove_rows in Vp.
      apply andb_false_iff. right. apply Z.eqb_neq.
      unfold direction, startRow, farRank in *.
      destruct (color q); lia. }
    assert (U : updateEnPassantTarget (saveGameState s) q
                  fromRow fromCol toRow toCol
                = set_fenEnPassant (saveGameState s) "-").
    { unfold updateEnPassantTarget. cbv zeta. now rewrite Step. }
    rewrite U in Es.
    exists q. subst s'.
    split; [assumption |].
    split; [reflexivity |].
    split; [exact Hq |].
    split; [reflexivity |].
    split; [reflexivity |].
    split; [reflexivity |].
    split; [reflexivity |].
    split; [reflexivity |].
    split; [reflexivity |].
    intros choice.
    match goal with
    | |- context [executePromotion ?x choice] =>
        destruct (executePromotion_board x
                    (mkPromotion fromRow fromCol toRow toCol (color q))
                    q choice) as (s'' & Hs & Hb);
          [reflexivity | exact Hq |]
    end.
    exists s''. split; [exact Hs |].
    rewrite Hb. reflexivity.
Qed.

(** Witness of [promotion_result_leaves_board]: the capture a7xb8 after
    1. a4 b5 2. axb5 a6 3. bxa6 Bb7 4. a7 h5, which clears the target h6. *)
Lemma promotion_result_leaves_board_witness :
  reachable after_promotionWithTarget /\
  fenEnPassant after_promotionWithTarget = "h6"%string /\
  makeMove after_promotionWithTarget 1 0 0 1
  = Returned (RPromotion, after_promotionWithTargetPending) /\
  exists pawn,
    type pawn = Pawn /\
    board after_promotionWithTargetPending = board after_promotionWithTarget /\
    cell (board after_promotionWithTargetPending) 1 0 = Some pawn /\
    cell (board after_promotionWithTargetPending) 0 1
    = cell (board after_promotionWithTarget) 0 1 /\
    castlingRights after_promotionWithTargetPending
    = castlingRights after_promotionWithTarget /\
    fenCastling after_promotionWithTargetPending
    = fenCastling after_promotionWithTarget /\
    fenEnPassant after_promotionWithTargetPending = "-"%string /\
    halfmoveClock after_promotionWithTargetPending = 0 /\
    pendingPromotion after_promotionWithTargetPending
    = Some (mkPromotion 1 0 0 1 (color pawn)) /\
    forall choice, exists s'',
      executePromotion after_promotionWithTargetPending choice = Returned s'' /\
      board s''
      = set_cell
          (set_cell (board after_promotionWithTarget) 0 1
             (Some (mkPiece (choiceSymbol choice (color pawn))
                            (choiceType choice) (color pawn))))
          1 0 None.
Proof.
  assert (R : reachable after_promotionWithTarget).
  { apply (play_reachable game_promotionWithTarget initialState);
      [apply reachable_initial | vm_compute; reflexivity]. }
  split; [exact R |]. split; [vm_compute; reflexivity |].
  split; [vm_compute; reflexivity |].
  apply (promotion_result_leaves_board after_promotionWithTarget 1 0 0 1
           after_promotionWithTargetPending);
    [exact R | vm_compute; reflexivity].
Defined.

(** * The path test (X1) *)

(** With [k] steps left the loop answers [true] exactly when the [k]
    squares it still has to visit are empty. *)
Lemma isPathClear_loop_spec (b : Board) (toRow toCol rowStep colStep : Z)
  (k : nat) :
  forall (fuel : nat) (row col : Z),
    (k <= fuel)%nat ->
    row + Z.of_nat k * rowStep = toRow ->
    col + Z.of_nat k * colStep = toCol ->
    k = 0%nat \/ rowStep <> 0 \/ colStep <> 0 ->
    (isPathClear_loop fuel b row col toRow toCol rowStep colStep = true <->
     forall j, 0 <= j < Z.of_nat k ->
               cell b (row + j * rowStep) (col + j * colStep) = None).
Proof.
  induction k as [| k IH]; intros fuel row col L Hr Hc Hs.
  - assert (row = toRow) as -> by lia. assert (col = toCol) as -> by lia.
    split; [intros _ j Hj; lia |]. intros _.
    destruct fuel; simpl; rewrite ?Z.eqb_refl; reflexivity.
  - destruct fuel as [| fuel]; [lia |]. simpl isPathClear_loop.
    assert (N : negb (row =? toRow) || negb (col =? toCol) = true).
    { apply orb_true_iff. rewrite !negb_true_iff, !Z.eqb_neq. nia. }
    rewrite N.
    destruct (isEmpty b row col) eqn:E; simpl.
    + apply isEmpty_true in E.
      rewrite (IH fuel (row + rowStep) (col + colStep)); try lia.
      split.
      * intros H j Hj. destruct (Z.eq_dec j 0) as [-> | Hn].
        -- now rewrite !Z.mul_0_l, !Z.add_0_r.
        -- replace (row + j * rowStep)
             with (row + rowStep + (j - 1) * rowStep) by ring.
           replace (col + j * colStep)
             with (col + colStep + (j - 1) * colStep) by ring.
           apply H. lia.
      * intros H j Hj.
        replace (row + rowStep + j * rowStep)
          with (row + (j + 1) * rowStep) by ring.
        replace (col + colStep + j * colStep)
          with (col + (j + 1) * colStep) by ring.
        apply H. lia.
    + split; [discriminate |]. intros H.
      specialize (H 0 ltac:(lia)). rewrite !Z.mul_0_l, !Z.add_0_r in H.
      apply isEmpty_true in H. congruence.
Qed.

(** X1.  Between two squares of the board that share a row, a column or a
    diagonal, [isPathClear] answers [true] exactly when every square strictly
    between them is empty; the two end squares are not looked at. *)
Theorem isPathClear_spec (b : Board) (fromRow fromCol toRow toCol : Z) :
  onBoard fromRow fromCol -> onBoard toRow toCol ->
  aligned fromRow fromCol toRow toCol ->
  (isPathClear b fromRow fromCol toRow toCol = true <->
   forall j, 0 < j < distance fromRow fromCol toRow toCol ->
             cell b (fromRow + j * step fromRow toRow)
                    (fromCol + j * step fromCol toCol) = None).
Proof.
  intros [Hr1 Hc1] [Hr2 Hc2] A. unfold isPathClear.
  set (d := distance fromRow fromCol toRow toCol).
  rewrite (isPathClear_loop_spec b toRow toCol _ _ (Z.to_nat (Z.max 0 (d - 1)))).
  - split.
    + intros H j Hj.
      replace (fromRow + j * step fromRow toRow)
        with (fromRow + step fromRow toRow + (j - 1) * step fromRow toRow)
        by ring.
      replace (fromCol + j * step fromCol toCol)
        with (fromCol + step fromCol toCol + (j - 1) * step fromCol toCol)
        by ring.
      apply H. lia.
    + intros H j Hj.
      replace (fromRow + step fromRow toRow + j * step fromRow toRow)
        with (fromRow + (j + 1) * step fromRow toRow) by ring.
      replace (fromCol + step fromCol toCol + j * step fromCol toCol)
        with (fromCol + (j + 1) * step fromCol toCol) by ring.
      apply H. lia.
  - unfold d, distance. lia.
  - unfold d, distance, aligned, step in *.
    repeat match goal with
           | |- context [if ?c then _ else _] => destruct c eqn:?
           end; lia.
  - unfold d, distance, aligned, step in *.
    repeat match goal with
           | |- context [if ?c then _ else _] => destruct c eqn:?
           end; lia.
  - unfold d, distance, aligned, step in *.
    repeat match goal with
           | |- context [if ?c then _ else _] => destruct c eqn:?
           end; lia.
Qed.

(** Witness of [isPathClear_spec]: on the starting position the way from
    a1 to a8 is not clear. *)
Lemma isPathClear_spec_witness :
  onBoard 7 0 /\ onBoard 0 0 /\ aligned 7 0 0 0 /\
  (isPathClear initialBoard 7 0 0 0 = true <->
   forall j, 0 < j < distance 7 0 0 0 ->
             cell initialBoard (7 + j * step 7 0) (0 + j * step 0 0) = None).
Proof.
  split; [unfold onBoard; lia |]. split; [unfold onBoard; lia |].
  split; [right; left; reflexivity |].
  apply (isPathClear_spec initialBoard 7 0 0 0);
    [unfold onBoard; lia | unfold onBoard; lia | right; left; reflexivity].
Defined.

(** * The two attack tests (X2, X3) *)

(** On a square that holds a piece of the other colour the movement rules
    of [canPieceAttack] and the attack patterns of [canPieceAttackSimple]
    coincide. *)
Lemma canPieceAttack_simple (s : State) (b : Board) (piece target : Piece)
  (fromRow fromCol targetRow targetCol : Z) :
  cell b targetRow targetCol = Some target ->
  color target <> color piece ->
  canPieceAttack s piece fromRow fromCol targetRow targetCol b
  = canPieceAttackSimple b piece fromRow fromCol targetRow targetCol.
Proof.
  intros T N.
  assert (Nb : Color_eqb (color target) (color piece) = false).
  { destruct (Color_eqb (color target) (color piece)) eqn:E; [| reflexivity].
    apply Color_eqb_eq in E. contradiction. }
  unfold canPieceAttack, canPieceAttackSimple, isValidPieceMove.
  replace (Z.abs (targetRow - fromRow)) with (Z.abs (fromRow - targetRow))
    by lia.
  replace (Z.abs (targetCol - fromCol)) with (Z.abs (fromCol - targetCol))
    by lia.
  destruct (type piece); try reflexivity.
  - unfold isValidPawnMove, isEmpty. cbn [board set_board].
    rewrite T, Nb. cbn [negb].
    repeat first [rewrite andb_false_r | rewrite andb_false_l
                 | rewrite orb_false_l].
    replace (Z.abs (targetCol - fromCol)) with (Z.abs (fromCol - targetCol))
      by lia.
    destruct ((Z.abs (fromCol - targetCol) =? 1)
              && (targetRow - fromRow =? direction (color piece)));
      reflexivity.
  - unfold isValidBishopMove. cbn [board set_board].
    replace (Z.abs (targetRow - fromRow)) with (Z.abs (fromRow - targetRow))
      by lia.
    replace (Z.abs (targetCol - fromCol)) with (Z.abs (fromCol - targetCol))
      by lia.
    destruct (Z.abs (fromRow - targetRow) =? Z.abs (fromCol - targetCol));
      reflexivity.
  - unfold isValidRookMove. cbn [board set_board].
    destruct (fromRow =? targetRow), (fromCol =? targetCol); reflexivity.
  - unfold isValidRookMove, isValidBishopMove. cbn [board set_board].
    replace (Z.abs (targetRow - fromRow)) with (Z.abs (fromRow - targetRow))
      by lia.
    replace (Z.abs (targetCol - fromCol)) with (Z.abs (fromCol - targetCol))
      by lia.
    destruct (fromRow =? targetRow), (fromCol =? targetCol),
      (Z.abs (fromRow - targetRow) =? Z.abs (fromCol - targetCol)),
      (isPathClear b fromRow fromCol targetRow targetCol); reflexivity.
  - unfold isValidKingMove.
    replace (Z.abs (targetRow - fromRow)) with (Z.abs (fromRow - targetRow))
      by lia.
    replace (Z.abs (targetCol - fromCol)) with (Z.abs (fromCol - targetCol))
      by lia.
    destruct ((Z.abs (fromRow - targetRow) <=? 1)
              && (Z.abs (fromCol - targetCol) <=? 1)); reflexivity.
Qed.

Lemma existsb_ext_in {A : Type} (f g : A -> bool) (l : list A) :
  (forall x, In x l -> f x = g x) -> existsb f l = existsb g l.
Proof.
  induction l as [| a l IH]; intros H; [reflexivity |]. simpl.
  rewrite (H a (or_introl eq_refl)), IH; [reflexivity |].
  intros x Hx. apply H. now right.
Qed.

Lemma findKing_cell (b : Board) (c : Color) (r k : Z) :
  findKing b c = Some (r, k) ->
  exists p, cell b r k = Some p /\ type p = King /\ color p = c.
Proof.
  unfold findKing. intros F. apply find_some in F as [_ F]. simpl in F.
  destruct (cell b r k) as [p |]; [| discriminate].
  apply andb_true_iff in F as [F1 F2].
  exists p. repeat split.
  - now apply PieceType_eqb_eq.
  - now apply Color_eqb_eq.
Qed.

Lemma attackers_agree (s : State) (b : Board) (target : Piece)
  (row col : Z) :
  cell b row col = Some target ->
  existsb (fun rc =>
             match cell b (fst rc) (snd rc) with
             | Some piece =>
                 Color_eqb (color piece) (opponent (color target))
                 && canPieceAttack s piece (fst rc) (snd rc) row col b
             | None => false
             end) squares
  = existsb (fun rc =>
               match cell b (fst rc) (snd rc) with
               | Some piece =>
                   Color_eqb (color piece) (opponent (color target))
                   && canPieceAttackSimple b piece (fst rc) (snd rc) row col
               | None => false
               end) squares.
Proof.
  intros T. apply existsb_ext_in. intros [r c] _. simpl.
  destruct (cell b r c) as [p |]; [| reflexivity].
  destruct (Color_eqb (color p) (opponent (color target))) eqn:E;
    [| reflexivity].
  simpl. apply Color_eqb_eq in E.
  apply (canPieceAttack_simple s b p target); [assumption |].
  rewrite E. destruct (color target); discriminate.
Qed.

(** X2.  The two check tests of the engine agree: [isInCheckOnBoard], used
    to validate moves and to end the game, answers on a board what
    [isInCheckSimple], used by [canCastle], answers on the state holding
    that board.  In particular [isInCheck] and [isInCheckSimple] are the
    same test. *)
Theorem isInCheckOnBoard_simple (s : State) (c : Color) (b : Board) :
  isInCheckOnBoard s c b = isInCheckSimple (set_board s b) c
  /\ isInCheck s c = isInCheckSimple s c.
Proof.
  assert (G : forall s b, isInCheckOnBoard s c b
                          = isInCheckSimple (set_board s b) c).
  { clear. intros s b. unfold isInCheckOnBoard, isInCheckSimple.
    cbn [board set_board].
    destruct (findKing b c) as [[r k] |] eqn:F; [| reflexivity].
    apply findKing_cell in F as (p & P & _ & <-).
    unfold isSquareUnderAttackSimple. cbn [board set_board].
    now apply attackers_agree. }
  split; [apply G |].
  unfold isInCheck. rewrite G. unfold isInCheckSimple, isSquareUnderAttackSimple.
  reflexivity.
Qed.

(** X3.  On a square that holds a piece of the defending colour the unused
    [isSquareUnderAttack] gives the answer of [isSquareUnderAttackSimple]. *)
Theorem isSquareUnderAttack_occupied (s : State) (row col : Z)
  (defenderColor : Color) (target : Piece) :
  cell (board s) row col = Some target ->
  color target = defenderColor ->
  isSquareUnderAttack s row col defenderColor
  = isSquareUnderAttackSimple s row col defenderColor.
Proof.
  intros T <-. unfold isSquareUnderAttack, isSquareUnderAttackSimple.
  now apply attackers_agree.
Qed.

(** Witness of [isSquareUnderAttack_occupied]: the white king on e1 of the
    starting position. *)
Lemma isSquareUnderAttack_occupied_witness :
  cell (board initialState) 7 4 = Some (mkPiece SymWK King White)
  /\ isSquareUnderAttack initialState 7 4 White
     = isSquareUnderAttackSimple initialState 7 4 White.
Proof.
  split; [reflexivity |].
  apply (isSquareUnderAttack_occupied initialState 7 4 White
           (mkPiece SymWK King White)); reflexivity.
Defined.

(** * The list of legal moves (X4) *)

(** X4.  [getAllLegalMovesForColor] lists exactly the moves that [isValidMove]
    accepts, and only when asked for the player to move: for the other colour
    the list is empty. *)
Theorem getAllLegalMovesForColor_spec (s : State) (c : Color)
  (fromRow fromCol toRow toCol : Z) :
  In ((fromRow, fromCol), (toRow, toCol)) (getAllLegalMovesForColor s c) <->
  c = currentPlayer s /\ isValidMove s fromRow fromCol toRow toCol = true.
Proof.
  unfold getAllLegalMovesForColor. rewrite in_flat_map. split.
  - intros ([fr fc] & _ & H). cbn [fst snd] in H.
    destruct (cell (board s) fr fc) as [piece |] eqn:P; [| destruct H].
    destruct (Color_eqb (color piece) c) eqn:E; [| destruct H].
    apply in_flat_map in H as ([tr tc] & _ & H). cbn [fst snd] in H.
    destruct (isValidMove s fr fc tr tc) eqn:V; [| destruct H].
    destruct H as [H | []]. inversion H; subst.
    split; [| assumption].
    apply isValidMove_inv in V as (_ & q & Q & Cq & _).
    apply Color_eqb_eq in E. congruence.
  - intros [-> V]. exists (fromRow, fromCol). cbn [fst snd].
    pose proof V as V'.
    apply isValidMove_inv in V' as (B & q & Q & Cq & _).
    apply inBounds_onBoard in B as [B1 B2].
    split; [now apply In_squares |].
    rewrite Q. rewrite <- Cq, Color_eqb_refl.
    apply in_flat_map. exists (toRow, toCol). cbn [fst snd].
    split; [now apply In_squares |].
    rewrite V. now left.
Qed.

Lemma getAllLegalMovesForColor_opponent (s : State) :
  getAllLegalMovesForColor s (opponent (currentPlayer s)) = [].
Proof.
  destruct (getAllLegalMovesForColor s (opponent (currentPlayer s)))
    as [| [[fr fc] [tr tc]] l] eqn:E; [reflexivity |].
  assert (H : In ((fr, fc), (tr, tc))
                 (getAllLegalMovesForColor s (opponent (currentPlayer s))))
    by (rewrite E; now left).
  apply getAllLegalMovesForColor_spec in H as [H _].
  destruct (currentPlayer s); discriminate.
Qed.

(** * The check mark of the recorded notation (X5) *)

Lemma cell_set_cell_None (b : Board) (r c : Z) :
  cell (set_cell b r c None) r c = None.
Proof.
  unfold set_cell, cell, row_at.
  destruct (r <? 0) eqn:Hr; [reflexivity |]. cbn [orb].
  destruct (c <? 0) eqn:Hc.
  - destruct (nth_error b (Z.to_nat r)); reflexivity.
  - destruct (nth_error b (Z.to_nat r)) as [row |] eqn:R.
    + rewrite (nth_error_list_set_same _ _ _ _ R).
      destruct (nth_error row (Z.to_nat c)) as [x |] eqn:X.
      * now rewrite (nth_error_list_set_same _ _ _ _ X).
      * assert (L : nth_error (list_set row (Z.to_nat c) None) (Z.to_nat c)
                    = None).
        { apply nth_error_None. rewrite list_set_length.
          now apply nth_error_None. }
        now rewrite L.
    + now rewrite R.
Qed.

Lemma isInCheck_board (s1 s2 : State) (c : Color) :
  board s1 = board s2 -> isInCheck s1 c = isInCheck s2 c.
Proof.
  intros B. unfold isInCheck. rewrite B. apply isInCheckOnBoard_state.
Qed.

Lemma string_app_nil_r (x : string) : (x ++ "")%string = x.
Proof. induction x as [| a x IH]; simpl; [reflexivity | now rewrite IH]. Qed.

Lemma includes_app (a b : string) (c : ascii) :
  includes (a ++ b) c = includes a c || includes b c.
Proof.
  induction a as [| x a IH]; [reflexivity |]. cbn [append includes].
  now rewrite IH, orb_assoc.
Qed.

Lemma file_text_no_mark (col : Z) (a : ascii) :
  0 <= col <= 7 -> codeOf a < 97 ->
  includes (fromCharCode (97 + col)) a = false.
Proof.
  intros B A.
  assert (N : forall k, (97 <= k <= 104)%Z ->
                includes (fromCharCode k) a = false).
  { intros k Bk. unfold fromCharCode. cbn [includes]. rewrite orb_false_r.
    apply Ascii.eqb_neq. intros <-. unfold codeOf in A.
    rewrite nat_ascii_embedding in A by lia. lia. }
  apply N. lia.
Qed.

Lemma rank_text_no_mark (row : Z) (a : ascii) :
  0 <= row <= 7 -> codeOf a < 48 ->
  includes (numToString (8 - row)) a = false.
Proof.
  intros B A.
  assert (D : forall c : ascii, 48 <= codeOf c -> Ascii.eqb c a = false).
  { intros c Hc. apply Ascii.eqb_neq. intros <-. lia. }
  assert (C : row = 0 \/ row = 1 \/ row = 2 \/ row = 3 \/ row = 4 \/ row = 5
              \/ row = 6 \/ row = 7) by lia.
  assert (E : exists c, numToString (8 - row) = String c "" /\
                        48 <= codeOf c).
  { destruct C as [-> | [-> | [-> | [-> | [-> | [-> | [-> | ->]]]]]]];
      eexists; (split; [vm_compute; reflexivity | vm_compute; discriminate]). }
  destruct E as (c & -> & Hc). cbn [includes]. rewrite orb_false_r.
  now apply D.
Qed.

Lemma pieceLetter_no_mark (t : PieceType) (a : ascii) :
  codeOf a < 48 -> includes (pieceLetter t) a = false.
Proof.
  intros A.
  assert (D : forall c : ascii, 48 <= codeOf c -> Ascii.eqb c a = false).
  { intros c Hc. apply Ascii.eqb_neq. intros <-. lia. }
  assert (E : exists c, pieceLetter t = String c "" /\ 48 <= codeOf c).
  { destruct t;
      eexists; (split; [vm_compute; reflexivity | vm_compute; discriminate]). }
  destruct E as (c & -> & Hc). cbn [includes]. rewrite orb_false_r.
  now apply D.
Qed.

Lemma getDisambiguation_no_mark (s : State) (piece : Piece)
  (fromRow fromCol toRow toCol : Z) (prevBoard : Board) (a : ascii) :
  0 <= fromRow <= 7 -> 0 <= fromCol <= 7 -> codeOf a < 48 ->
  includes (getDisambiguation s piece fromRow fromCol toRow toCol prevBoard) a
  = false.
Proof.
  intros Br Bc A. unfold getDisambiguation. cbv zeta.
  repeat match goal with
         | |- context [if ?c then _ else _] => destruct c
         end;
    rewrite ?includes_app, ?file_text_no_mark, ?rank_text_no_mark by lia;
    reflexivity.
Qed.

(** When the piece that moved belongs to the player whose turn it still
    is, a check is always given the mate mark: the list of the opponent's
    replies is computed while it is not the opponent's turn.  What stands
    before the mark holds neither ["+"] nor ["#"]. *)
Lemma getAlgebraicNotation_mate_mark (s : State) (piece : Piece)
  (fromRow fromCol toRow toCol : Z) (isCapture : bool)
  (prevBoard : Board) (isEnPassant : bool) :
  inBounds fromRow fromCol toRow toCol = true ->
  cell (board s) fromRow fromCol = None ->
  cell prevBoard fromRow fromCol = Some piece ->
  color piece = currentPlayer s ->
  exists n,
    getAlgebraicNotation s fromRow fromCol toRow toCol isCapture None
      prevBoard isEnPassant
    = (n ++ (if isInCheck s (opponent (currentPlayer s)) then "#" else ""))%string
    /\ includes n "+" = false /\ includes n "#" = false.
Proof.
  intros B E P C. apply inBounds_onBoard in B as [[B1 B2] [B3 B4]].
  unfold getAlgebraicNotation. rewrite E, P, C.
  rewrite getAllLegalMovesForColor_opponent. cbn [List.length Z.of_nat Z.eqb].
  cbv zeta.
  match goal with
  | |- exists n, (if _ then (?x ++ _)%string else _) = _ /\ _ =>
      set (notation := x)
  end.
  exists notation. split.
  { destruct (isInCheck s (opponent (currentPlayer s))); [reflexivity |].
    symmetry. apply string_app_nil_r. }
  assert (M : forall a : ascii, codeOf a < 48 ->
                includes "x" a = false -> includes " e.p." a = false ->
                includes notation a = false).
  { intros a A X1 X2. unfold notation.
    destruct (type piece), isCapture, isEnPassant; cbn [orb];
      rewrite ?includes_app, ?X1, ?X2, ?file_text_no_mark, ?rank_text_no_mark,
        ?pieceLetter_no_mark, ?getDisambiguation_no_mark by lia;
      reflexivity. }
  split; apply M; vm_compute; reflexivity.
Qed.

Lemma saveGameState_frame (s : State) :
  let s' := saveGameState s in
  board s' = board s /\ currentPlayer s' = currentPlayer s /\
  moveHistory s' = moveHistory s.
Proof. unfold saveGameState. repeat split. Qed.

(** X5.  A completed move that is not a castling adds one entry to the move
    history.  The entry is a text that holds neither ["+"] nor ["#"], followed
    by the mate mark ["#"] when the move leaves the opponent in check, whether
    or not the opponent has a reply, and by nothing otherwise: the mark ["+"]
    is never used. *)
Theorem check_is_recorded_as_mate (s : State) (piece : Piece)
  (fromRow fromCol toRow toCol : Z) (s' : State) :
  cell (board s) fromRow fromCol = Some piece ->
  isCastlingMove (Some piece) fromRow fromCol toRow toCol = false ->
  makeMove s fromRow fromCol toRow toCol = Returned (RTrue, s') ->
  exists n,
    moveHistory s'
    = (moveHistory s
       ++ [(n ++ (if isInCheck s' (currentPlayer s') then "#" else ""))%string])%list
    /\ includes n "+" = false /\ includes n "#" = false.
Proof.
  intros Hc C M.
  destruct (pendingPromotion s) as [pp |] eqn:Hp.
  { rewrite makeMove_blocked in M by (left; congruence). discriminate. }
  destruct (isGameOver s) eqn:Ho.
  { rewrite makeMove_blocked in M by (now right). discriminate. }
  destruct (makeMove_cases s fromRow fromCol toRow toCol Hp Ho)
    as [[_ E] | [(q & Hq & Cq & E) | [[_ E] | (q & Hq & Cq & V & E)]]];
    rewrite E in M; try discriminate.
  { rewrite Hc in Hq. inversion Hq; subst q. congruence. }
  rewrite Hc in Hq. inversion Hq; subst q. injection M as Ex.
  apply isValidMove_inv in V as (Bd & q & Hq' & Cp & _).
  rewrite Hc in Hq'. inversion Hq'; subst q.
  destruct (executeMove_regular s piece fromRow fromCol toRow toCol C)
    as (isEnPassant & isCapture & s3 & _ & _ & E3 & Er).
  destruct (isPawnPromotion s3 fromRow fromCol toRow toCol);
    [rewrite Er in Ex; discriminate |].
  cbv zeta in Er. rewrite Ex in Er. injection Er as Es.
  assert (P3 : currentPlayer s3 = currentPlayer s /\
               moveHistory s3 = moveHistory s).
  { rewrite E3. clear.
    unfold updateEnPassantTarget, handleEnPassant, updateCastlingRights.
    destruct (type piece), (color piece);
      repeat match goal with
             | |- context [if ?c then _ else _] => destruct c
             end;
      split; reflexivity. }
  destruct P3 as [P3 H3].
  set (s4 := set_board s3 (set_cell (set_cell (board s3) toRow toCol
                                       (Some piece)) fromRow fromCol None))
    in *.
  destruct (getAlgebraicNotation_mate_mark s4 piece fromRow fromCol toRow toCol
              (isCapture || isEnPassant)
              (deepCopyBoard (board (saveGameState s))) isEnPassant)
    as (n & Hn & N1 & N2).
  - exact Bd.
  - unfold s4. cbn [board set_board]. apply cell_set_cell_None.
  - rewrite deepCopyBoard_id. exact Hc.
  - unfold s4. cbn [currentPlayer set_board]. congruence.
  - exists n. split; [| split; assumption].
    match type of Es with
    | _ = snd (checkGameEndConditions ?x) =>
        destruct (checkGameEndConditions_frame x) as (Fb & Fc & Fm & _)
    end.
    rewrite <- Es in Fb, Fc, Fm.
    cbn [board currentPlayer moveHistory set_positionHistory set_currentPlayer
         set_moveHistory] in Fb, Fc, Fm.
    rewrite deepCopyBoard_id in Hn, Fm.
    change (board (saveGameState s)) with (board s) in Hn.
    fold s4 in Fb.
    replace (currentPlayer s3) with (currentPlayer s4) in Fc by reflexivity.
    rewrite Fm, Hn, Fc.
    rewrite (isInCheck_board s' s4 _ Fb).
    rewrite H3. reflexivity.
Qed.

(** Witness of [check_is_recorded_as_mate]: after 1. e4 f5 the check
    2. Qh5+, which black can parry, is recorded as ["Qh5#"]. *)
Lemma check_is_recorded_as_mate_witness :
  cell (board before_check) 7 3 = Some (mkPiece SymWQ Queen White) /\
  makeMove before_check 7 3 3 7 = Returned (RTrue, after_check) /\
  isInCheck after_check (currentPlayer after_check) = true /\
  getAllLegalMoves after_check <> [] /\
  moveHistory after_check = (moveHistory before_check ++ ["Qh5#"])%list /\
  exists n,
    moveHistory after_check
    = (moveHistory before_check
       ++ [(n ++ (if isInCheck after_check (currentPlayer after_check)
                  then "#" else ""))%string])%list
    /\ includes n "+" = false /\ includes n "#" = false.
Proof.
  split; [vm_compute; reflexivity |].
  split; [vm_compute; reflexivity |].
  split; [vm_compute; reflexivity |].
  split; [vm_compute; discriminate |].
  split; [vm_compute; reflexivity |].
  apply (check_is_recorded_as_mate before_check (mkPiece SymWQ Queen White)
           7 3 3 7 after_check); vm_compute; reflexivity.
Defined.

(** * The game-end test (X6, X7) *)

Lemma repetition_loop_count (current : string) (history : list string) :
  forall count, count < 3 ->
    repetition_loop current history count
    = (3 <=? count + Z.of_nat (count_occ string_dec history current)).
Proof.
  induction history as [| position rest IH]; intros count L.
  - simpl. rewrite Z.add_0_r. symmetry. apply Z.leb_gt. exact L.
  - cbn [repetition_loop count_occ].
    destruct (String.eqb position current) eqn:E.
    + apply String.eqb_eq in E.
      destruct (string_dec position current) as [_ | N]; [| contradiction].
      destruct (count + 1 >=? 3) eqn:G.
      * symmetry. apply Z.leb_le. lia.
      * rewrite IH by lia. f_equal. lia.
    + apply String.eqb_neq in E.
      destruct (string_dec position current) as [Y | _]; [contradiction |].
      now apply IH.
Qed.

(** X6.  [isThreefoldRepetition] answers [true] exactly when the key of the
    current position occurs at least three times in the position history. *)
Theorem isThreefoldRepetition_count (s : State) :
  isThreefoldRepetition s = true <->
  (3 <= count_occ string_dec (positionHistory s) (generatePositionKey s))%nat.
Proof.
  unfold isThreefoldRepetition. rewrite repetition_loop_count by lia.
  rewrite Z.leb_le. lia.
Qed.

Lemma checkGameEndConditions_gameOver_inputs (s : State) (w : Winner) :
  getAllLegalMoves (set_gameOver s w) = getAllLegalMoves s /\
  isInCheck (set_gameOver s w) (currentPlayer s) = isInCheck s (currentPlayer s)
  /\ isThreefoldRepetition (set_gameOver s w) = isThreefoldRepetition s.
Proof. destruct s. repeat split. Qed.

(** X7.  [checkGameEndConditions] is idempotent: called again on the state it
    returned it gives the same verdict and the same state, so the repeated
    calls made by the interface and the application after a move change
    nothing. *)
Theorem checkGameEndConditions_idempotent (s : State) :
  checkGameEndConditions (snd (checkGameEndConditions s))
  = checkGameEndConditions s.
Proof.
  unfold checkGameEndConditions at 2 3.
  destruct (Z.of_nat (List.length (getAllLegalMoves s)) =? 0) eqn:L.
  - destruct (isInCheck s (currentPlayer s)) eqn:K; cbn [snd];
      unfold checkGameEndConditions;
      destruct (checkGameEndConditions_gameOver_inputs s
                  (winnerOf (opponent (currentPlayer s)))) as (G1 & G2 & _);
      destruct (checkGameEndConditions_gameOver_inputs s WinnerDraw)
        as (D1 & D2 & _);
      change (currentPlayer (set_gameOver s ?w)) with (currentPlayer s);
      rewrite ?G1, ?G2, ?D1, ?D2, L, K; reflexivity.
  - destruct (halfmoveClock s >=? 100) eqn:H.
    + cbn [snd]. unfold checkGameEndConditions.
      destruct (checkGameEndConditions_gameOver_inputs s WinnerDraw)
        as (D1 & _ & _).
      rewrite D1, L.
      change (halfmoveClock (set_gameOver s WinnerDraw))
        with (halfmoveClock s).
      rewrite H. reflexivity.
    + destruct (isThreefoldRepetition s) eqn:T; cbn [snd].
      * unfold checkGameEndConditions.
        destruct (checkGameEndConditions_gameOver_inputs s WinnerDraw)
          as (D1 & _ & D3).
        rewrite D1, L.
        change (halfmoveClock (set_gameOver s WinnerDraw))
          with (halfmoveClock s).
        rewrite H, D3, T. reflexivity.
      * unfold checkGameEndConditions. rewrite L, H, T. reflexivity.
Qed.

(** * The pieces on the board (X8, X9) *)

Lemma cell_set_cell_cases (b : Board) (r c : Z) (v : option Piece)
  (r' c' : Z) :
  cell (set_cell b r c v) r' c' = v
  \/ cell (set_cell b r c v) r' c' = cell b r' c'.
Proof.
  destruct (Z.eq_dec r r') as [<- | Nr];
    [| right; apply cell_set_cell_other; now left].
  destruct (Z.eq_dec c c') as [<- | Nc];
    [| right; apply cell_set_cell_other; now right].
  unfold set_cell.
  destruct (r <? 0) eqn:Hr; [now right |]. cbn [orb].
  destruct (c <? 0) eqn:Hc; [now right |].
  destruct (nth_error b (Z.to_nat r)) as [row |] eqn:R; [| now right].
  unfold cell, row_at. rewrite Hr, Hc, R.
  rewrite (nth_error_list_set_same _ _ _ _ R).
  destruct (nth_error row (Z.to_nat c)) as [x |] eqn:X.
  - left. now rewrite (nth_error_list_set_same _ _ _ _ X).
  - right.
    assert (L : nth_error (list_set row (Z.to_nat c) v) (Z.to_nat c) = None).
    { apply nth_error_None. rewrite list_set_length.
      now apply nth_error_None. }
    now rewrite L.
Qed.

Ltac set_cell_cases H :=
  repeat match type of H with
         | cell (set_cell ?b ?r ?c ?v) ?r' ?c' = Some _ =>
             let E := fresh "E" in
             destruct (cell_set_cell_cases b r c v r' c') as [E | E];
             rewrite E in H; clear E
         end.

Lemma handleCastling_pieces (P : Piece -> Prop) (s : State) (side : Side) (prevBoard : Board) :
  allPieces P (board s) ->
  allPieces P (board (snd (handleCastling s side prevBoard))).
Proof.
  intros A. unfold handleCastling.
  destruct (negb (canCastle s (currentPlayer s) side)); [exact A |].
  destruct s as [b cp sq mh gh go gw pp cr fc ep hc ph].
  cbn [board] in A.
  destruct side, cp; cbn -[set_cell cell]; intros r c p H;
    set_cell_cases H;
    try discriminate; eapply A; exact H.
Qed.

Lemma executeMove_pieces (P : Piece -> Prop) (s : State) (piece : Piece)
  (fromRow fromCol toRow toCol : Z) :
  isCastlingMove (Some piece) fromRow fromCol toRow toCol = false ->
  P piece ->
  allPieces P (board s) ->
  allPieces P (board (snd (executeMove s piece fromRow fromCol toRow toCol))).
Proof.
  intros C Pp A.
  destruct (executeMove_regular s piece fromRow fromCol toRow toCol C)
    as (isEnPassant & isCapture & s3 & _ & _ & E3 & Er).
  assert (A3 : allPieces P (board s3)).
  { rewrite E3. cbn [board set_halfmoveClock].
    rewrite (proj1 (updateEnPassantTarget_frame _ piece fromRow fromCol
                      toRow toCol)).
    destruct (handleEnPassant_cases
                (updateCastlingRights (saveGameState s) piece fromRow fromCol)
                piece fromRow fromCol toRow toCol)
      as [E | (_ & _ & _ & _ & E)]; rewrite E; cbn [snd board set_board].
    - rewrite (proj1 (updateCastlingRights_frame _ piece fromRow fromCol)).
      exact A.
    - rewrite (proj1 (updateCastlingRights_frame _ piece fromRow fromCol)).
      intros r c p H. set_cell_cases H; try discriminate.
      eapply A; exact H. }
  rewrite Er.
  destruct (isPawnPromotion s3 fromRow fromCol toRow toCol).
  - exact A3.
  - cbv zeta. cbn [snd].
    match goal with
    | |- allPieces P (board (snd (checkGameEndConditions ?x))) =>
        rewrite (proj1 (checkGameEndConditions_frame x))
    end.
    cbn [board set_positionHistory set_currentPlayer set_moveHistory
         set_board].
    intros r c p H. set_cell_cases H; try discriminate.
    + inversion H; subst; exact Pp.
    + eapply A3; exact H.
Qed.

Lemma makeMove_pieces (P : Piece -> Prop) (s : State) (fromRow fromCol toRow toCol : Z)
  (r : MoveResult) (s' : State) :
  makeMove s fromRow fromCol toRow toCol = Returned (r, s') ->
  allPieces P (board s) -> allPieces P (board s').
Proof.
  intros M A.
  destruct (pendingPromotion s) as [pp |] eqn:Hp.
  { rewrite makeMove_blocked in M by (left; congruence).
    inversion M; subst; exact A. }
  destruct (isGameOver s) eqn:Ho.
  { rewrite makeMove_blocked in M by (now right).
    inversion M; subst; exact A. }
  destruct (makeMove_cases s fromRow fromCol toRow toCol Hp Ho)
    as [[_ E] | [(q & Hq & Cq & E) | [[_ E] | (q & Hq & Cq & V & E)]]];
    rewrite E in M; try discriminate.
  - destruct (canCastle s (color q) (sideOf toCol)).
    + inversion M; subst. now apply handleCastling_pieces.
    + inversion M; subst; exact A.
  - inversion M; subst; exact A.
  - inversion M as [Ex].
    replace s' with (snd (executeMove s q fromRow fromCol toRow toCol))
      by (now rewrite Ex).
    apply executeMove_pieces; [exact Cq | | exact A].
    eapply A; exact Hq.
Qed.

Lemma executePromotion_pieces (P : Piece -> Prop) (s : State) (choice : PromotionChoice)
  (s' : State) :
  (forall c, P (mkPiece (choiceSymbol choice c) (choiceType choice) c)) ->
  executePromotion s choice = Returned s' ->
  allPieces P (board s) -> allPieces P (board s').
Proof.
  intros Pn X A. unfold executePromotion in X.
  destruct (pendingPromotion s) as [promotion |];
    [| inversion X; subst; exact A].
  destruct (cell (board s) (fromRow promotion) (fromCol promotion))
    as [piece |]; [| discriminate].
  inversion X as [Ex]. clear X Ex.
  match goal with
  | |- allPieces P (board (snd (checkGameEndConditions ?x))) =>
      rewrite (proj1 (checkGameEndConditions_frame x))
  end.
  cbn [board set_pendingPromotion set_currentPlayer set_moveHistory
       set_board].
  intros r c p H. set_cell_cases H; try discriminate.
  - inversion H; subst. apply Pn.
  - eapply A; exact H.
Qed.

(** X8.  [makeMove] never puts a new piece on the board: whatever it
    returns, every piece on the board afterwards is one that stood on the
    board before. *)
Theorem makeMove_creates_no_piece (s : State)
  (fromRow fromCol toRow toCol : Z) (res : MoveResult) (s' : State)
  (r c : Z) (p : Piece) :
  makeMove s fromRow fromCol toRow toCol = Returned (res, s') ->
  cell (board s') r c = Some p ->
  exists r0 c0, cell (board s) r0 c0 = Some p.
Proof.
  intros M H.
  apply (makeMove_pieces
           (fun p => exists r0 c0, cell (board s) r0 c0 = Some p)
           s fromRow fromCol toRow toCol res s' M) with (r := r) (c := c);
    [| exact H].
  intros r0 c0 q Hq. now exists r0, c0.
Qed.

(** Witness of [makeMove_creates_no_piece]: the queen on h5 after
    1. e4 f5 2. Qh5. *)
Lemma makeMove_creates_no_piece_witness :
  makeMove before_check 7 3 3 7 = Returned (RTrue, after_check) /\
  cell (board after_check) 3 7 = Some (mkPiece SymWQ Queen White) /\
  exists r0 c0,
    cell (board before_check) r0 c0 = Some (mkPiece SymWQ Queen White).
Proof.
  split; [vm_compute; reflexivity |].
  split; [vm_compute; reflexivity |].
  apply (makeMove_creates_no_piece before_check 7 3 3 7 RTrue after_check
           3 7 (mkPiece SymWQ Queen White)); vm_compute; reflexivity.
Defined.

Lemma cell_In (b : Board) (r c : Z) (p : Piece) :
  cell b r c = Some p -> In (Some p) (List.concat b).
Proof.
  unfold cell, row_at. intros H.
  destruct (r <? 0); [discriminate |].
  destruct (nth_error b (Z.to_nat r)) as [row |] eqn:R; [| discriminate].
  destruct (c <? 0); [discriminate |].
  destruct (nth_error row (Z.to_nat c)) as [x |] eqn:X; [| discriminate].
  subst x. apply in_concat. exists row.
  split; eapply nth_error_In; eassumption.
Qed.

Lemma initialBoard_wellGlyphed : allPieces wellGlyphed initialBoard.
Proof.
  intros r c p H. apply cell_In in H. vm_compute in H.
  repeat (destruct H as [H | H];
          [try discriminate; inversion H; reflexivity |]).
  destruct H.
Qed.

Lemma reachable_wellGlyphed (s : State) :
  reachable s -> allPieces wellGlyphed (board s).
Proof.
  induction 1 as [| s fromRow fromCol toRow toCol r s' _ IH M
                  | s choice s' _ IH X | s _ IH | s side prevBoard _ IH].
  - exact initialBoard_wellGlyphed.
  - exact (makeMove_pieces _ _ _ _ _ _ _ _ M IH).
  - refine (executePromotion_pieces _ _ _ _ _ X IH).
    intros c. destruct choice, c; reflexivity.
  - now rewrite (proj1 (checkGameEndConditions_frame s)).
  - now apply handleCastling_pieces.
Qed.

Lemma pieceSymbols_type (c : Color) (t1 t2 : PieceType) :
  Symbol_eqb (pieceSymbols c t1) (pieceSymbols c t2) = true <-> t1 = t2.
Proof. destruct c, t1, t2; simpl; split; congruence. Qed.

(** X9.  In every state of a game each piece carries the glyph of its type and
    colour, promoted pieces included; hence the candidates that
    [findPieceForMove] collects by comparing glyphs are exactly the pieces of
    the requested type that belong to the player to move. *)
Theorem candidates_are_own_pieces_of_type (s : State) (pieceType : PieceType)
  (r c : Z) (p : Piece) :
  reachable s ->
  allPieces wellGlyphed (board s) /\
  (In (r, c, p) (candidatesFor s pieceType "") <->
   onBoard r c /\ cell (board s) r c = Some p /\
   color p = currentPlayer s /\ type p = pieceType).
Proof.
  intros R. pose proof (reachable_wellGlyphed s R) as G.
  split; [exact G |].
  unfold candidatesFor. cbn [String.eqb]. rewrite in_flat_map. split.
  - intros ([r0 c0] & Hin & H). unfold candidateAt in H. cbn [fst snd] in H.
    destruct (cell (board s) r0 c0) as [q |] eqn:Q; [| destruct H].
    destruct (Color_eqb (color q) (currentPlayer s)) eqn:C;
      [| destruct H]. cbn [andb] in H.
    destruct (Symbol_eqb (symbol q)
                (pieceSymbols (currentPlayer s) pieceType)) eqn:S;
      [| destruct H].
    destruct H as [H | []]. inversion H; subst r0 c0 q.
    apply Color_eqb_eq in C.
    split; [now apply In_squares |]. split; [exact Q |].
    split; [exact C |].
    rewrite (G r c p Q), C in S. now apply pieceSymbols_type in S.
  - intros (B & Q & C & T). exists (r, c).
    split; [now apply In_squares |].
    unfold candidateAt. cbn [fst snd]. rewrite Q, C, Color_eqb_refl.
    cbn [andb]. rewrite (G r c p Q), C, T.
    rewrite (proj2 (pieceSymbols_type (currentPlayer s) pieceType pieceType)
               eq_refl).
    now left.
Qed.

(** Witness of [candidates_are_own_pieces_of_type]: the knights of the
    starting position. *)
Lemma candidates_are_own_pieces_of_type_witness :
  allPieces wellGlyphed (board initialState) /\
  (In (7, 1, mkPiece SymWN Knight White)
      (candidatesFor initialState Knight "") <->
   onBoard 7 1 /\
   cell (board initialState) 7 1 = Some (mkPiece SymWN Knight White) /\
   color (mkPiece SymWN Knight White) = currentPlayer initialState /\
   type (mkPiece SymWN Knight White) = Knight).
Proof.
  exact (candidates_are_own_pieces_of_type initialState Knight 7 1
           (mkPiece SymWN Knight White) reachable_initial).
Defined.

(** * Instances of the general properties of [makeMove] *)

(** Witness of [makeMove_rejection_frame]: the pawn of e2 cannot go to
    e5. *)
Lemma makeMove_rejection_frame_witness :
  makeMove initialState 6 4 3 4 = Returned (RFalse, initialState) /\
  initialState = initialState.
Proof.
  split; [vm_compute; reflexivity |].
  apply (makeMove_rejection_frame initialState 6 4 3 4 initialState).
  vm_compute; reflexivity.
Defined.

(** Witness of [makeMove_throws_iff]: the starting position. *)
Lemma makeMove_throws_iff_witness :
  reachable initialState /\
  (makeMove initialState 8 0 0 0 = Threw <->
   pendingPromotion initialState = None /\ isGameOver initialState = false /\
   (8 < 0 \/ 7 < 8)).
Proof.
  split; [exact reachable_initial |].
  exact (makeMove_throws_iff initialState 8 0 0 0 reachable_initial).
Defined.

(** Witness of [castlingRights_sound]: the game [game_kingE2], in which
    the white king moves and the black king does not. *)
Lemma castlingRights_sound_witness :
  play initialState game_kingE2 = Some after_kingE2 /\
  king (rights_of (castlingRights after_kingE2) Black) = true /\
  ((king (rights_of (castlingRights after_kingE2) Black) = true ->
    forall sq, ~ In (Black, King, sq) (movesMade initialState game_kingE2)) /\
   (rookQueen (rights_of (castlingRights after_kingE2) Black) = true ->
    forall r, ~ In (Black, Rook, (r, 0)) (movesMade initialState game_kingE2))
   /\
   (rookKing (rights_of (castlingRights after_kingE2) Black) = true ->
    forall r, ~ In (Black, Rook, (r, 7)) (movesMade initialState game_kingE2))).
Proof.
  split; [vm_compute; reflexivity |].
  split; [vm_compute; reflexivity |].
  apply (castlingRights_sound game_kingE2 initialState after_kingE2 Black).
  vm_compute; reflexivity.
Defined.

(** Witness of [regular_move_keeps_king_safe]: 2. Qh5 after 1. e4 f5. *)
Lemma regular_move_keeps_king_safe_witness :
  makeMove before_check 7 3 3 7 = Returned (RTrue, after_check) /\
  board after_check
  = testBoard (board before_check) (mkPiece SymWQ Queen White) 7 3 3 7 /\
  isInCheck after_check (color (mkPiece SymWQ Queen White)) = false.
Proof.
  split; [vm_compute; reflexivity |].
  apply (regular_move_keeps_king_safe before_check
           (mkPiece SymWQ Queen White) 7 3 3 7 after_check);
    vm_compute; reflexivity.
Defined.

(** Witness of [regular_move_bookkeeping]: 2. Qh5 after 1. e4 f5. *)
Lemma regular_move_bookkeeping_witness :
  makeMove before_check 7 3 3 7 = Returned (RTrue, after_check) /\
  fenEnPassant after_check
  = (if PieceType_eqb (type (mkPiece SymWQ Queen White)) Pawn
        && (Z.abs (3 - 7) =? 2)
     then (fromCharCode (97 + 3) ++ numToString (8 - (7 + 3) / 2))%string
     else "-"%string) /\
  halfmoveClock after_check
  = (if PieceType_eqb (type (mkPiece SymWQ Queen White)) Pawn
        || match cell (board before_check) 3 7 with
           | Some target =>
               negb (Color_eqb (color target)
                       (color (mkPiece SymWQ Queen White)))
           | None => false
           end
        || fst (handleEnPassant before_check (mkPiece SymWQ Queen White)
                  7 3 3 7)
     then 0 else halfmoveClock before_check + 1) /\
  exists s7,
    after_check = snd (checkGameEndConditions s7) /\
    currentPlayer s7 = opponent (currentPlayer before_check) /\
    positionHistory s7
    = (positionHistory before_check ++ [generatePositionKey s7])%list.
Proof.
  split; [vm_compute; reflexivity |].
  apply (regular_move_bookkeeping before_check
           (mkPiece SymWQ Queen White) 7 3 3 7 after_check);
    vm_compute; reflexivity.
Defined.

(** Witness of [castling_bookkeeping]: white castles kingside after
    [game_italian]. *)
Lemma castling_bookkeeping_witness :
  makeMove after_italian 7 4 7 6 = Returned (RTrue, after_italianCastled) /\
  currentPlayer after_italianCastled = opponent (currentPlayer after_italian)
  /\ fenEnPassant after_italianCastled = fenEnPassant after_italian
  /\ halfmoveClock after_italianCastled = halfmoveClock after_italian
  /\ positionHistory after_italianCastled = positionHistory after_italian
  /\ isGameOver after_italianCastled = false
  /\ gameWinner after_italianCastled = gameWinner after_italian.
Proof.
  split; [vm_compute; reflexivity |].
  apply (castling_bookkeeping after_italian (mkPiece SymWK King White)
           7 4 7 6 after_italianCastled); vm_compute; reflexivity.
Defined.

(** * Completing a promotion (X10) *)

Lemma handleCastling_other_rows (s : State) (side : Side) (prevBoard : Board)
  (r c : Z) :
  r <> homeRow (currentPlayer s) ->
  cell (board (snd (handleCastling s side prevBoard))) r c
  = cell (board s) r c.
Proof.
  intros N. unfold handleCastling.
  destruct (negb (canCastle s (currentPlayer s) side)); [reflexivity |].
  destruct s as [b cp sq mh gh go gw pp cr fc ep hc ph].
  cbn [currentPlayer] in N.
  destruct side, cp; cbn -[set_cell cell] in *;
    rewrite !cell_set_cell_other by (left; congruence); reflexivity.
Qed.

Lemma executeMove_pending (s : State) (piece : Piece)
  (fromRow fromCol toRow toCol : Z) :
  isCastlingMove (Some piece) fromRow fromCol toRow toCol = false ->
  pendingPromotion s = None ->
  fst (executeMove s piece fromRow fromCol toRow toCol) = RTrue ->
  pendingPromotion (snd (executeMove s piece fromRow fromCol toRow toCol))
  = None.
Proof.
  intros C Hp T.
  destruct (executeMove_regular s piece fromRow fromCol toRow toCol C)
    as (isEnPassant & isCapture & s3 & _ & _ & E3 & Er).
  rewrite Er in T |- *.
  destruct (isPawnPromotion s3 fromRow fromCol toRow toCol);
    [discriminate |].
  cbv zeta. cbn [snd].
  match goal with
  | |- pendingPromotion (snd (checkGameEndConditions ?x)) = _ =>
      destruct (checkGameEndConditions_frame x) as (_ & _ & _ & F & _);
      rewrite F
  end.
  cbn [pendingPromotion set_positionHistory set_currentPlayer set_moveHistory
       set_board].
  rewrite E3. cbn [pendingPromotion set_halfmoveClock].
  rewrite (proj2 (proj2 (proj2 (proj2 (proj2
             (updateEnPassantTarget_frame _ piece fromRow fromCol
                toRow toCol)))))).
  rewrite (proj2 (proj2 (proj2 (proj2 (proj2
             (handleEnPassant_frame _ piece fromRow fromCol
                toRow toCol)))))).
  destruct (updateCastlingRights_frame (saveGameState s) piece
              fromRow fromCol) as (_ & _ & _ & _ & F' & _).
  rewrite F'. exact Hp.
Qed.

Lemma makeMove_pendingWellFormed (s : State)
  (fr fc tr tc : Z) (r : MoveResult) (s' : State) :
  pendingWellFormed s ->
  makeMove s fr fc tr tc = Returned (r, s') ->
  pendingWellFormed s'.
Proof.
  intros W M.
  destruct (pendingPromotion s) as [pp |] eqn:Hp.
  { rewrite makeMove_blocked in M by (left; congruence).
    inversion M; subst; exact W. }
  destruct (isGameOver s) eqn:Ho.
  { rewrite makeMove_blocked in M by (now right).
    inversion M; subst; exact W. }
  destruct (makeMove_cases s fr fc tr tc Hp Ho)
    as [[_ E] | [(q & Hq & Cq & E) | [[_ E] | (q & Hq & Cq & V & E)]]];
    rewrite E in M; try discriminate.
  - destruct (canCastle s (color q) (sideOf tc));
      [| inversion M; subst; exact W].
    inversion M as [[Er Es]]. unfold pendingWellFormed.
    destruct (handleCastling_cases s (sideOf tc) (deepCopyBoard (board s)))
      as [[_ H] | (_ & _ & H)].
    + rewrite H. cbn [snd]. exact W.
    + cbv zeta in H. destruct H as (_ & _ & _ & _ & _ & _ & H).
      rewrite H, Hp. exact I.
  - inversion M; subst; exact W.
  - inversion M as [Ex].
    destruct r.
    + pose proof (executeMove_not_rejected s q fr fc tr tc Cq)
        as N.
      rewrite Ex in N. now elim N.
    + pose proof (executeMove_pending s q fr fc tr tc Cq Hp)
        as N.
      rewrite Ex in N. cbn [fst snd] in N.
      unfold pendingWellFormed. now rewrite (N eq_refl).
    + destruct (executeMove_promotion s q fr fc tr tc s'
                  Cq Hq Ex) as (T & F & ->).
      unfold pendingWellFormed.
      cbn [pendingPromotion set_pendingPromotion fromRow
           fromCol board set_halfmoveClock].
      split.
      * apply isValidMove_inv in V as (_ & q' & Hq' & _ & Vp & _).
        rewrite Hq in Hq'. inversion Hq'; subst q'.
        unfold isValidPieceMove in Vp. rewrite T in Vp.
        apply isValidPawnMove_rows in Vp.
        unfold farRank in F. unfold direction, startRow in Vp.
        destruct (color q); lia.
      * exists q.
        rewrite (proj1 (updateEnPassantTarget_frame _ q fr fc
                          tr tc)).
        rewrite handleEnPassant_from. exact Hq.
Qed.

Lemma reachable_pendingWellFormed (s : State) :
  reachable s -> pendingWellFormed s.
Proof.
  induction 1 as [| s fromRow fromCol toRow toCol r s' _ IH M
                  | s choice s' _ IH X | s _ IH | s side prevBoard _ IH].
  - exact I.
  - exact (makeMove_pendingWellFormed _ _ _ _ _ _ _ IH M).
  - unfold executePromotion in X. unfold pendingWellFormed in *.
    destruct (pendingPromotion s) as [promotion |] eqn:Hp;
      [| inversion X; subst; now rewrite Hp].
    destruct (cell (board s) (fromRow promotion) (fromCol promotion))
      as [piece |]; [| discriminate].
    inversion X as [Ex]. clear X Ex.
    match goal with
    | |- match pendingPromotion (snd (checkGameEndConditions ?x)) with
         | _ => _ end =>
        destruct (checkGameEndConditions_frame x) as (_ & _ & _ & F & _);
        rewrite F
    end.
    exact I.
  - unfold pendingWellFormed in *.
    destruct (checkGameEndConditions_frame s) as (Fb & _ & _ & F & _).
    rewrite F, Fb. exact IH.
  - unfold pendingWellFormed in *.
    destruct (handleCastling_cases s side prevBoard)
      as [[_ H] | (_ & _ & H)].
    + rewrite H. exact IH.
    + cbv zeta in H. destruct H as (_ & _ & _ & _ & _ & _ & H).
      rewrite H.
      destruct (pendingPromotion s) as [promotion |]; [| exact I].
      destruct IH as [Hr [piece Hc]].
      split; [exact Hr |]. exists piece.
      rewrite handleCastling_other_rows; [exact Hc |].
      unfold homeRow. destruct (currentPlayer s); lia.
Qed.

(** X10.  In every state of a game [executePromotion] returns without a fault:
    when a promotion is pending the pawn still stands on the square it is
    promoted from, also after a castling requested in between; the state
    returned has no pending promotion. *)
Theorem executePromotion_never_throws (s : State) (choice : PromotionChoice) :
  reachable s ->
  exists s',
    executePromotion s choice = Returned s' /\ pendingPromotion s' = None.
Proof.
  intros R. pose proof (reachable_pendingWellFormed s R) as W.
  unfold pendingWellFormed in W. unfold executePromotion.
  destruct (pendingPromotion s) as [promotion |] eqn:Hp.
  - destruct W as [_ [piece Hc]]. rewrite Hc.
    eexists. split; [reflexivity |].
    match goal with
    | |- pendingPromotion (snd (checkGameEndConditions ?x)) = _ =>
        destruct (checkGameEndConditions_frame x) as (_ & _ & _ & F & _);
        rewrite F
    end.
    reflexivity.
  - exists s. split; [reflexivity | exact Hp].
Qed.

(** Witness of [executePromotion_never_throws]: the capture a7xb8 suspended
    after [game_promotion]. *)
Lemma executePromotion_never_throws_witness :
  exists s',
    executePromotion after_promotionPending ToKnight = Returned s' /\
    pendingPromotion s' = None.
Proof.
  apply (executePromotion_never_throws after_promotionPending ToKnight).
  apply (reachable_makeMove after_promotion 1 0 0 1 RPromotion).
  - apply (play_reachable game_promotion initialState);
      [exact reachable_initial | vm_compute; reflexivity].
  - vm_compute; reflexivity.
Defined.

(** * The two records of the castling rights (X11) *)

Lemma updateCastlingRights_consistent (s : State) (piece : Piece)
  (fromRow fromCol : Z) :
  castlingConsistent s ->
  castlingConsistent (updateCastlingRights s piece fromRow fromCol).
Proof.
  unfold castlingConsistent, updateCastlingRights, fenCastlingOf.
  destruct s as [b cp sq mh gh go gw pp [[wk wq wr] [bk bq br]] fc ep hc ph].
  cbn. intros ->.
  destruct (type piece), (color piece); cbn; try reflexivity;
    destruct (fromCol =? 0); cbn; rewrite ?andb_false_r; try reflexivity;
    destruct (fromCol =? 7); cbn; rewrite ?andb_false_r; reflexivity.
Qed.

Lemma handleCastling_consistent (s : State) (side : Side) (prevBoard : Board) :
  castlingConsistent s ->
  castlingConsistent (snd (handleCastling s side prevBoard)).
Proof.
  unfold castlingConsistent, handleCastling, fenCastlingOf.
  destruct (negb (canCastle s (currentPlayer s) side)); [trivial |].
  destruct s as [b cp sq mh gh go gw pp [[wk wq wr] [bk bq br]] fc ep hc ph].
  cbn -[set_cell cell]. intros ->.
  destruct side, cp; reflexivity.
Qed.

Lemma executeMove_fenCastling (s : State) (piece : Piece)
  (fromRow fromCol toRow toCol : Z) :
  isCastlingMove (Some piece) fromRow fromCol toRow toCol = false ->
  fenCastling (snd (executeMove s piece fromRow fromCol toRow toCol))
  = fenCastling (updateCastlingRights s piece fromRow fromCol).
Proof.
  intros C.
  destruct (executeMove_regular s piece fromRow fromCol toRow toCol C)
    as (isEnPassant & isCapture & s3 & _ & _ & E3 & Er).
  assert (F3 : fenCastling s3
               = fenCastling (updateCastlingRights s piece fromRow fromCol)).
  { rewrite E3. cbn [fenCastling set_halfmoveClock].
    destruct (updateEnPassantTarget_frame
                (snd (handleEnPassant
                        (updateCastlingRights (saveGameState s) piece
                           fromRow fromCol)
                        piece fromRow fromCol toRow toCol))
                piece fromRow fromCol toRow toCol) as (_ & _ & _ & F & _).
    rewrite F.
    destruct (handleEnPassant_frame
                (updateCastlingRights (saveGameState s) piece fromRow fromCol)
                piece fromRow fromCol toRow toCol) as (_ & _ & _ & F' & _).
    rewrite F'. clear.
    unfold updateCastlingRights, saveGameState.
    destruct (type piece), (color piece); cbn; try reflexivity;
      destruct (fromCol =? 0); try reflexivity;
      destruct (fromCol =? 7); reflexivity. }
  rewrite Er.
  destruct (isPawnPromotion s3 fromRow fromCol toRow toCol).
  - cbn [snd fenCastling set_pendingPromotion]. exact F3.
  - cbv zeta. cbn [snd].
    match goal with
    | |- fenCastling (snd (checkGameEndConditions ?x)) = _ =>
        destruct (checkGameEndConditions_frame x)
          as (_ & _ & _ & _ & _ & F & _);
        rewrite F
    end.
    cbn [fenCastling set_positionHistory set_currentPlayer set_moveHistory
         set_board].
    exact F3.
Qed.

Lemma makeMove_consistent (s : State) (fromRow fromCol toRow toCol : Z)
  (r : MoveResult) (s' : State) :
  castlingConsistent s ->
  makeMove s fromRow fromCol toRow toCol = Returned (r, s') ->
  castlingConsistent s'.
Proof.
  intros W M.
  destruct (pendingPromotion s) as [pp |] eqn:Hp.
  { rewrite makeMove_blocked in M by (left; congruence).
    inversion M; subst; exact W. }
  destruct (isGameOver s) eqn:Ho.
  { rewrite makeMove_blocked in M by (now right).
    inversion M; subst; exact W. }
  destruct (makeMove_cases s fromRow fromCol toRow toCol Hp Ho)
    as [[_ E] | [(q & Hq & Cq & E) | [[_ E] | (q & Hq & Cq & V & E)]]];
    rewrite E in M; try discriminate.
  - destruct (canCastle s (color q) (sideOf toCol));
      [| inversion M; subst; exact W].
    inversion M as [[Er Es]]. now apply handleCastling_consistent.
  - inversion M; subst; exact W.
  - inversion M as [Ex].
    pose proof (executeMove_fenCastling s q fromRow fromCol toRow toCol Cq)
      as F.
    pose proof (executeMove_castlingRights s q fromRow fromCol toRow toCol Cq)
      as G.
    rewrite Ex in F, G. cbn [snd] in F, G.
    unfold castlingConsistent. rewrite F, G.
    now apply updateCastlingRights_consistent.
Qed.

(** X11.  In every state of a game the castling letters [fenCastling], which
    enter the position key, agree with the flags [castlingRights], which
    [canCastle] reads: a letter is set exactly when the king and the rook of
    that side are both recorded as unmoved. *)
Theorem reachable_castlingConsistent (s : State) :
  reachable s -> fenCastling s = fenCastlingOf (castlingRights s).
Proof.
  induction 1 as [| s fromRow fromCol toRow toCol r s' _ IH M
                  | s choice s' _ IH X | s _ IH | s side prevBoard _ IH].
  - reflexivity.
  - exact (makeMove_consistent _ _ _ _ _ _ _ IH M).
  - unfold executePromotion in X.
    destruct (pendingPromotion s) as [promotion |];
      [| inversion X; subst; exact IH].
    destruct (cell (board s) (fromRow promotion) (fromCol promotion))
      as [piece |]; [| discriminate].
    inversion X as [Ex]. clear X Ex.
    match goal with
    | |- fenCastling (snd (checkGameEndConditions ?x)) = _ =>
        destruct (checkGameEndConditions_frame x)
          as (_ & _ & _ & _ & G & F & _);
        rewrite F, G
    end.
    exact IH.
  - destruct (checkGameEndConditions_frame s)
      as (_ & _ & _ & _ & G & F & _).
    rewrite F, G. exact IH.
  - now apply handleCastling_consistent.
Qed.

(** Witness of [reachable_castlingConsistent]: the position after
    [game_kingE2], where white has lost both letters and black none. *)
Lemma reachable_castlingConsistent_witness :
  fenCastling after_kingE2 = mkFenCastling false false true true /\
  fenCastling after_kingE2 = fenCastlingOf (castlingRights after_kingE2).
Proof.
  split; [vm_compute; reflexivity |].
  apply (reachable_castlingConsistent after_kingE2).
  apply (play_reachable game_kingE2 initialState);
    [exact reachable_initial | vm_compute; reflexivity].
Defined.

(** * The en-passant target (X12) *)

Lemma isEnPassantSquare_written (col m r c : Z) :
  0 <= col <= 7 -> m = 2 \/ m = 5 ->
  isEnPassantSquare (fromCharCode (97 + col) ++ numToString (8 - m)) r c
  = (c =? col) && (r =? m).
Proof.
  intros Hc Hm.
  assert (E : col = 0 \/ col = 1 \/ col = 2 \/ col = 3 \/ col = 4 \/ col = 5
              \/ col = 6 \/ col = 7) by lia.
  destruct Hm as [-> | ->];
    repeat (destruct E as [-> | E]; [reflexivity |]); subst; reflexivity.
Qed.

Lemma isEnPassantSquare_dash (r c : Z) : isEnPassantSquare "-" r c = false.
Proof. reflexivity. Qed.

(** X12.  After a completed move that is not a castling, the square that the
    engine reads back from its en-passant string is the square passed over
    when the move was a pawn's advance of two rows, and no square at all
    otherwise: the string written by [updateEnPassantTarget] is read back by
    [isValidPawnMove] and [handleEnPassant] as the square that was meant. *)
Theorem enPassant_target_round_trip (s : State) (piece : Piece)
  (fromRow fromCol toRow toCol : Z) (s' : State) (r c : Z) :
  cell (board s) fromRow fromCol = Some piece ->
  isCastlingMove (Some piece) fromRow fromCol toRow toCol = false ->
  makeMove s fromRow fromCol toRow toCol = Returned (RTrue, s') ->
  (isEnPassantSquare (fenEnPassant s') r c = true <->
   type piece = Pawn /\ Z.abs (toRow - fromRow) = 2 /\
   r = (fromRow + toRow) / 2 /\ c = fromCol).
Proof.
  intros Hc C M.
  destruct (pendingPromotion s) as [pp |] eqn:Hp.
  { rewrite makeMove_blocked in M by (left; congruence). discriminate. }
  destruct (isGameOver s) eqn:Ho.
  { rewrite makeMove_blocked in M by (now right). discriminate. }
  destruct (makeMove_cases s fromRow fromCol toRow toCol Hp Ho)
    as [[_ E] | [(q & Hq & Cq & E) | [[_ E] | (q & Hq & Cq & V & E)]]];
    rewrite E in M; try discriminate.
  { rewrite Hc in Hq. inversion Hq; subst q. congruence. }
  rewrite Hc in Hq. inversion Hq; subst q. injection M as Ex.
  pose proof (executeMove_fenEnPassant s piece fromRow fromCol toRow toCol C)
    as F.
  rewrite Ex in F. cbn [snd] in F. rewrite F. clear F.
  apply isValidMove_inv in V as (B & q & Hq' & _ & Vp & _).
  rewrite Hc in Hq'. inversion Hq'; subst q.
  apply inBounds_onBoard in B as [[B1 B2] [B3 B4]].
  destruct (PieceType_eqb (type piece) Pawn) eqn:T; cbn [andb].
  - apply PieceType_eqb_eq in T.
    destruct (Z.abs (toRow - fromRow) =? 2) eqn:D.
    + apply Z.eqb_eq in D.
      unfold isValidPieceMove in Vp. rewrite T in Vp.
      apply isValidPawnMove_rows in Vp.
      assert (M2 : (fromRow + toRow) / 2 = 2 \/ (fromRow + toRow) / 2 = 5).
      { unfold direction, startRow in Vp.
        destruct (color piece); destruct Vp as [Vp | [V1 V2]]; try lia.
        - right. assert (toRow = 4) as -> by lia. subst fromRow. reflexivity.
        - left. assert (toRow = 3) as -> by lia. subst fromRow. reflexivity. }
      rewrite isEnPassantSquare_written by (assumption || lia).
      rewrite andb_true_iff, !Z.eqb_eq. intuition.
    + rewrite isEnPassantSquare_dash. apply Z.eqb_neq in D.
      split; [discriminate | tauto].
  - rewrite isEnPassantSquare_dash.
    split; [discriminate |].
    intros [T' _]. rewrite T' in T. discriminate.
Qed.

(** Witness of [enPassant_target_round_trip]: 1. e4 from the starting
    position. *)
Lemma enPassant_target_round_trip_witness :
  makeMove initialState 6 4 4 4 = Returned (RTrue, after_e4) /\
  (isEnPassantSquare (fenEnPassant after_e4) 5 4 = true <->
   type (mkPiece SymWP Pawn White) = Pawn /\ Z.abs (4 - 6) = 2 /\
   5 = (6 + 4) / 2 /\ 4 = 4).
Proof.
  split; [vm_compute; reflexivity |].
  apply (enPassant_target_round_trip initialState
           (mkPiece SymWP Pawn White) 6 4 4 4 after_e4 5 4);
    vm_compute; reflexivity.
Defined.

(** * Whose king castles (X13) *)

Lemma handleCastling_accepted (s : State) (side : Side) (prevBoard : Board) :
  canCastle s (currentPlayer s) side = true ->
  let s' := snd (handleCastling s side prevBoard) in
  fst (handleCastling s side prevBoard) = true /\
  cell (board s') (homeRow (currentPlayer s)) 4 = None /\
  rights_of (castlingRights s') (currentPlayer s) = noRights /\
  currentPlayer s' = opponent (currentPlayer s).
Proof.
  intros Hc. unfold handleCastling. rewrite Hc. cbn [negb].
  destruct s as [b cp sq mh gh go gw pp cr fc ep hc ph].
  destruct side, cp; cbn -[set_cell cell]; repeat split;
    rewrite cell_set_cell_other by (right; lia);
    apply cell_set_cell_None.
Qed.

(** X13.  [makeMove] does not check whose turn it is before it handles a
    castling request.  Asked to castle with the king of the player who is not
    to move, it refuses unless both players may castle on that side, and then
    it castles the king of the player to move: the king named in the request
    stays where it is. *)
Theorem castling_request_with_the_other_king (s : State) (piece : Piece)
  (row toCol : Z) :
  pendingPromotion s = None ->
  isGameOver s = false ->
  cell (board s) row 4 = Some piece ->
  isCastlingMove (Some piece) row 4 row toCol = true ->
  color piece <> currentPlayer s ->
  (canCastle s (color piece) (sideOf toCol)
   && canCastle s (currentPlayer s) (sideOf toCol) = false ->
   makeMove s row 4 row toCol = Returned (RFalse, s)) /\
  (canCastle s (color piece) (sideOf toCol)
   && canCastle s (currentPlayer s) (sideOf toCol) = true ->
   exists s',
     makeMove s row 4 row toCol = Returned (RTrue, s') /\
     cell (board s') row 4 = Some piece /\
     cell (board s') (homeRow (currentPlayer s)) 4 = None /\
     rights_of (castlingRights s') (currentPlayer s) = noRights /\
     currentPlayer s' = color piece).
Proof.
  intros Hp Ho Hc C N.
  assert (Hrow : row <> homeRow (currentPlayer s)).
  { unfold isCastlingMove in C. unfold homeRow.
    destruct (color piece) eqn:Cp, (currentPlayer s) eqn:Cs;
      try (now elim N); cbn in C;
      rewrite ?andb_false_r, ?andb_true_r, ?orb_false_r in C;
      repeat (apply andb_true_iff in C as [C ?]); lia. }
  assert (Opp : opponent (currentPlayer s) = color piece).
  { destruct (color piece), (currentPlayer s); try reflexivity; now elim N. }
  assert (E : makeMove s row 4 row toCol
              = if canCastle s (color piece) (sideOf toCol)
                then Returned
                       (resultOf (fst (handleCastling s (sideOf toCol)
                                         (deepCopyBoard (board s)))),
                        snd (handleCastling s (sideOf toCol)
                               (deepCopyBoard (board s))))
                else Returned (RFalse, s)).
  { unfold makeMove. rewrite Hp, Ho. cbn [orb].
    destruct (cell_row_at _ _ _ _ Hc) as [r Hr]. rewrite Hr, Hc, C.
    reflexivity. }
  rewrite E. clear E.
  destruct (canCastle s (color piece) (sideOf toCol)); cbn [andb].
  - split.
    + intros F.
      destruct (handleCastling_cases s (sideOf toCol)
                  (deepCopyBoard (board s))) as [[_ H] | [H _]];
        [now rewrite H | congruence].
    + intros T.
      destruct (handleCastling_accepted s (sideOf toCol)
                  (deepCopyBoard (board s)) T) as (A1 & A2 & A3 & A4).
      exists (snd (handleCastling s (sideOf toCol)
                     (deepCopyBoard (board s)))).
      rewrite A1. split; [reflexivity |].
      split; [now rewrite handleCastling_other_rows |].
      split; [exact A2 |]. split; [exact A3 | congruence].
  - split; [reflexivity | discriminate].
Qed.

(** Witness of [castling_request_with_the_other_king]: in the position of
    [game_bothCanCastle], with white to move, the request e8-g8 puts the
    white king on g1 and leaves the black king on e8. *)
Lemma castling_request_with_the_other_king_witness :
  currentPlayer after_bothCanCastle = White /\
  cell (board after_bothCanCastle) 0 4 = Some (mkPiece SymBK King Black) /\
  exists s',
    makeMove after_bothCanCastle 0 4 0 6 = Returned (RTrue, s') /\
    cell (board s') 0 4 = Some (mkPiece SymBK King Black) /\
    cell (board s') (homeRow (currentPlayer after_bothCanCastle)) 4 = None /\
    rights_of (castlingRights s') (currentPlayer after_bothCanCastle)
    = noRights /\
    currentPlayer s' = color (mkPiece SymBK King Black).
Proof.
  split; [vm_compute; reflexivity |].
  split; [vm_compute; reflexivity |].
  apply (castling_request_with_the_other_king after_bothCanCastle
           (mkPiece SymBK King Black) 0 6);
    try (vm_compute; reflexivity).
  vm_compute; discriminate.
Defined.

(** * The move history and the turn (X14) *)

Lemma handleCastling_recorded (s : State) (side : Side) (prevBoard : Board) :
  recordedAs (resultOf (fst (handleCastling s side prevBoard))) s
             (snd (handleCastling s side prevBoard)).
Proof.
  unfold handleCastling.
  destruct (negb (canCastle s (currentPlayer s) side)); [now split |].
  destruct s as [b cp sq mh gh go gw pp cr fc ep hc ph].
  destruct side, cp; cbn -[set_cell cell]; split; try reflexivity;
    eexists; reflexivity.
Qed.

Lemma executeMove_recorded (s : State) (piece : Piece)
  (fromRow fromCol toRow toCol : Z) :
  isCastlingMove (Some piece) fromRow fromCol toRow toCol = false ->
  recordedAs (fst (executeMove s piece fromRow fromCol toRow toCol)) s
             (snd (executeMove s piece fromRow fromCol toRow toCol)).
Proof.
  intros C.
  destruct (executeMove_regular s piece fromRow fromCol toRow toCol C)
    as (isEnPassant & isCapture & s3 & _ & _ & E3 & Er).
  assert (P3 : currentPlayer s3 = currentPlayer s /\
               moveHistory s3 = moveHistory s).
  { rewrite E3. clear.
    unfold updateEnPassantTarget, handleEnPassant, updateCastlingRights.
    destruct (type piece), (color piece);
      repeat match goal with
             | |- context [if ?c then _ else _] => destruct c
             end;
      split; reflexivity. }
  destruct P3 as [P3 H3]. rewrite Er.
  destruct (isPawnPromotion s3 fromRow fromCol toRow toCol).
  - cbn [fst snd recordedAs moveHistory currentPlayer set_pendingPromotion].
    now split.
  - cbv zeta. cbn [fst snd recordedAs].
    match goal with
    | |- context [snd (checkGameEndConditions ?x)] =>
        destruct (checkGameEndConditions_frame x) as (_ & Fc & Fm & _);
        rewrite Fc, Fm
    end.
    cbn [moveHistory currentPlayer set_positionHistory set_currentPlayer
         set_moveHistory set_board].
    rewrite P3, H3. split; [eexists; reflexivity | reflexivity].
Qed.

Lemma makeMove_recorded (s : State) (fromRow fromCol toRow toCol : Z)
  (r : MoveResult) (s' : State) :
  makeMove s fromRow fromCol toRow toCol = Returned (r, s') ->
  recordedAs r s s'.
Proof.
  intros M.
  destruct (pendingPromotion s) as [pp |] eqn:Hp.
  { rewrite makeMove_blocked in M by (left; congruence).
    inversion M; subst; now split. }
  destruct (isGameOver s) eqn:Ho.
  { rewrite makeMove_blocked in M by (now right).
    inversion M; subst; now split. }
  destruct (makeMove_cases s fromRow fromCol toRow toCol Hp Ho)
    as [[_ E] | [(q & Hq & Cq & E) | [[_ E] | (q & Hq & Cq & V & E)]]];
    rewrite E in M; try discriminate.
  - destruct (canCastle s (color q) (sideOf toCol));
      [| inversion M; subst; now split].
    inversion M as [[Er Es]]. apply handleCastling_recorded.
  - inversion M; subst; now split.
  - inversion M as [Ex].
    pose proof (executeMove_recorded s q fromRow fromCol toRow toCol Cq) as H.
    now rewrite Ex in H.
Qed.

Lemma turnMatchesHistory_next (s s' : State) (notation : string) :
  turnMatchesHistory s ->
  moveHistory s' = (moveHistory s ++ [notation])%list ->
  currentPlayer s' = opponent (currentPlayer s) ->
  turnMatchesHistory s'.
Proof.
  unfold turnMatchesHistory. intros T Hm Hc.
  rewrite Hc, Hm, T, length_app. cbn [List.length].
  rewrite Nat.add_1_r, Nat.even_succ, <- Nat.negb_even.
  destruct (Nat.even (List.length (moveHistory s))); reflexivity.
Qed.

Lemma reachable_turnMatchesHistory (s : State) :
  reachable s -> turnMatchesHistory s.
Proof.
  induction 1 as [| s fromRow fromCol toRow toCol r s' _ IH M
                  | s choice s' _ IH X | s _ IH | s side prevBoard _ IH].
  - reflexivity.
  - apply makeMove_recorded in M.
    destruct r; cbn [recordedAs] in M.
    + destruct M as [Hm Hc]. unfold turnMatchesHistory.
      now rewrite Hm, Hc.
    + destruct M as [[n Hm] Hc]. exact (turnMatchesHistory_next _ _ _ IH Hm Hc).
    + destruct M as [Hm Hc]. unfold turnMatchesHistory.
      now rewrite Hm, Hc.
  - unfold executePromotion in X.
    destruct (pendingPromotion s) as [promotion |];
      [| inversion X; subst; exact IH].
    destruct (cell (board s) (fromRow promotion) (fromCol promotion))
      as [piece |]; [| discriminate].
    inversion X as [Ex]. clear X Ex.
    match goal with
    | |- turnMatchesHistory (snd (checkGameEndConditions ?x)) =>
        destruct (checkGameEndConditions_frame x) as (_ & Fc & Fm & _);
        refine (turnMatchesHistory_next s _ _ IH _ _);
        [rewrite Fm | rewrite Fc]; reflexivity
    end.
  - destruct (checkGameEndConditions_frame s) as (_ & Fc & Fm & _).
    unfold turnMatchesHistory. now rewrite Fc, Fm.
  - pose proof (handleCastling_recorded s side prevBoard) as H.
    destruct (fst (handleCastling s side prevBoard)); cbn [resultOf recordedAs] in H.
    + destruct H as [[n Hm] Hc]. exact (turnMatchesHistory_next _ _ _ IH Hm Hc).
    + destruct H as [Hm Hc]. unfold turnMatchesHistory. now rewrite Hm, Hc.
Qed.

(** X14.  The move history and the turn advance together.  A call of
    [makeMove] that answers [true] records exactly one move and passes the
    turn; one that answers [false] or ['promotion'] records nothing and leaves
    the turn where it was.  Hence, in every state of a game, white is to move
    exactly when the number of recorded moves is even. *)
Theorem history_and_turn (s : State) (fromRow fromCol toRow toCol : Z)
  (r : MoveResult) (s' : State) :
  reachable s ->
  makeMove s fromRow fromCol toRow toCol = Returned (r, s') ->
  recordedAs r s s' /\ turnMatchesHistory s /\ turnMatchesHistory s'.
Proof.
  intros R M. split; [exact (makeMove_recorded _ _ _ _ _ _ _ M) |].
  split; apply reachable_turnMatchesHistory; [exact R |].
  exact (reachable_makeMove _ _ _ _ _ _ _ R M).
Qed.

(** Witness of [history_and_turn]: 2. Qh5 after 1. e4 f5. *)
Lemma history_and_turn_witness :
  makeMove before_check 7 3 3 7 = Returned (RTrue, after_check) /\
  recordedAs RTrue before_check after_check /\
  turnMatchesHistory before_check /\ turnMatchesHistory after_check.
Proof.
  split; [vm_compute; reflexivity |].
  apply (history_and_turn before_check 7 3 3 7 RTrue after_check).
  - apply (play_reachable game_beforeCheck initialState);
      [exact reachable_initial | vm_compute; reflexivity].
  - vm_compute; reflexivity.
Defined.

(** * The text parser: characters and expressions *)

Lemma isPromotionChar_cases (a : ascii) :
  isPromotionChar a = true ->
  a = "q"%char \/ a = "r"%char \/ a = "b"%char \/ a = "n"%char.
Proof.
  unfold isPromotionChar. rewrite !orb_true_iff, !Ascii.eqb_eq. tauto.
Qed.

Lemma isPieceChar_cases (a : ascii) :
  isPieceChar a = true ->
  a = "k"%char \/ a = "q"%char \/ a = "r"%char \/ a = "b"%char
  \/ a = "n"%char.
Proof.
  unfold isPieceChar. rewrite orb_true_iff, Ascii.eqb_eq.
  intros [H | H]; [now left | right; now apply isPromotionChar_cases].
Qed.

Lemma isFileChar_code (a : ascii) :
  isFileChar a = true <-> 97 <= codeOf a <= 104.
Proof. unfold isFileChar. lia. Qed.

Lemma isRankChar_code (a : ascii) :
  isRankChar a = true <-> 49 <= codeOf a <= 56.
Proof. unfold isRankChar. lia. Qed.

Lemma eqb_code (a b : ascii) :
  codeOf a <> codeOf b -> Ascii.eqb a b = false.
Proof. intros N. apply Ascii.eqb_neq. intros ->. now apply N. Qed.

Lemma captureEnd_shape (rest : string) (m : SquareText * option ascii) :
  captureEnd rest = Some m ->
  isFileChar (fst (fst m)) = true /\ isRankChar (snd (fst m)) = true.
Proof.
  assert (S : forall r, squareEnd r = Some m ->
                        isFileChar (fst (fst m)) = true
                        /\ isRankChar (snd (fst m)) = true).
  { intros r H. unfold squareEnd in H.
    destruct r as [| f [| k r']]; try discriminate.
    destruct (isFileChar f) eqn:F; [| discriminate].
    destruct (isRankChar k) eqn:K; [| discriminate]. cbn [andb] in H.
    destruct (promotionEnd r'); [| discriminate].
    inversion H; subst. now split. }
  unfold captureEnd. intros H.
  destruct rest as [| x rest']; [discriminate |].
  destruct (Ascii.eqb x "x").
  - destruct (squareEnd rest') eqn:E; [inversion H; subst; eauto | eauto].
  - eauto.
Qed.

(** The second group of a piece move is absent, a file letter, a rank
    digit, or a file letter followed by a rank digit. *)
Lemma pieceMatch_shape (move : string) (p : ascii) (d : string)
  (sq : SquareText) (promotion : option ascii) :
  pieceMatch move = Some (p, d, sq, promotion) ->
  isPieceChar p = true /\
  (exists rest, move = String p rest) /\
  isFileChar (fst sq) = true /\ isRankChar (snd sq) = true /\
  (d = EmptyString
   \/ (exists f, isFileChar f = true /\ d = String f EmptyString)
   \/ (exists k, isRankChar k = true /\ d = String k EmptyString)
   \/ (exists f k, isFileChar f = true /\ isRankChar k = true /\
                   d = String f (String k EmptyString))).
Proof.
  unfold pieceMatch. destruct move as [| p0 rest]; [discriminate |].
  destruct (isPieceChar p0) eqn:P; [| discriminate].
  intros H.
  assert (G : forall d0 r x,
             match captureEnd r with
             | Some m => Some (p0, d0, fst m, snd m)
             | None => None
             end = Some x ->
             x = (p, d, sq, promotion) ->
             p = p0 /\ d = d0 /\ isFileChar (fst sq) = true
             /\ isRankChar (snd sq) = true).
  { intros d0 r x E X. subst x.
    destruct (captureEnd r) as [m |] eqn:C; [| discriminate].
    apply captureEnd_shape in C as [C1 C2].
    inversion E; subst. auto. }
  cbn [firstMatch] in H.
  repeat match type of H with
         | match ?a with Some _ => _ | None => _ end = _ =>
             let E := fresh "E" in destruct a eqn:E
         end; try discriminate; inversion H; subst.
  - destruct rest as [| f [| k rest']]; try discriminate.
    destruct (isFileChar f) eqn:F; [| discriminate].
    destruct (isRankChar k) eqn:K; [| discriminate]. cbn [andb] in E.
    destruct (G _ _ _ E eq_refl) as (-> & -> & S1 & S2).
    repeat split; eauto 10.
  - destruct rest as [| f rest']; try discriminate.
    destruct (isFileChar f) eqn:F; [| discriminate].
    destruct (G _ _ _ E0 eq_refl) as (-> & -> & S1 & S2).
    repeat split; eauto 10.
  - destruct rest as [| k rest']; try discriminate.
    destruct (isRankChar k) eqn:K; [| discriminate].
    destruct (G _ _ _ E1 eq_refl) as (-> & -> & S1 & S2).
    repeat split; eauto 10.
  - destruct (G _ _ _ E2 eq_refl) as (-> & -> & S1 & S2).
    repeat split; eauto 10.
Qed.

(** * Disambiguation by rank (X21) *)

Lemma candidates_on_board (s : State) (targetSymbol : Symbol)
  (x : Z * Z * Piece) :
  In x (flat_map (candidateAt s targetSymbol) squares) ->
  onBoard (fst (fst x)) (snd (fst x)).
Proof.
  intros H. apply in_flat_map in H as ([r c] & Hs & Hx).
  apply candidateAt_position in Hx. apply In_squares in Hs.
  destruct x as [[r' c'] p]. cbn [fst snd] in *. inversion Hx; subst.
  exact Hs.
Qed.

Lemma filter_none {A : Type} (f : A -> bool) (l : list A) :
  (forall x, In x l -> f x = false) -> filter f l = [].
Proof.
  induction l as [| a l IH]; intros H; [reflexivity |]. cbn [filter].
  rewrite (H a (or_introl eq_refl)). apply IH. intros x Hx. apply H.
  now right.
Qed.

Lemma findPieceForMove_rank (s : State) (pieceType : PieceType) (k : ascii)
  (toRow toCol : Z) :
  isRankChar k = true ->
  findPieceForMove s pieceType (String k EmptyString) toRow toCol = None.
Proof.
  intros K. apply isRankChar_code in K.
  unfold findPieceForMove, candidatesFor. cbn [String.eqb String.length].
  cbn [Z.of_nat Pos.of_succ_nat Z.eqb Pos.eqb charCodeAt0].
  rewrite filter_none; [reflexivity |].
  intros x Hx. apply candidates_on_board in Hx as [_ Hc].
  apply Z.eqb_neq. unfold codeOf in K. lia.
Qed.

Lemma findPieceForMove_square (s : State) (pieceType : PieceType)
  (f k : ascii) (toRow toCol : Z) :
  isFileChar f = true ->
  findPieceForMove s pieceType (String f (String k EmptyString)) toRow toCol
  = None.
Proof.
  intros F. apply isFileChar_code in F.
  unfold findPieceForMove, candidatesFor. cbn [String.eqb String.length].
  cbn [Z.of_nat Pos.of_succ_nat Pos.succ Z.eqb Pos.eqb].
  assert (P : parseInt (String f (String k EmptyString)) = None).
  { unfold parseInt. cbn [parseInt_digits]. unfold parseDigit.
    unfold codeOf in F.
    destruct ((48 <=? Z.of_nat (nat_of_ascii f))
              && (Z.of_nat (nat_of_ascii f) <=? 57)) eqn:E;
      [lia | reflexivity]. }
  rewrite P. rewrite filter_none; [reflexivity | reflexivity].
Qed.

Lemma set_gameEngine_same (u : UI.Manager) :
  UI.set_gameEngine u (UI.gameEngine u) = u.
Proof. now destruct u. Qed.

Lemma pieceMatch_not_castling (move : string) (p : ascii) (d : string)
  (sq : SquareText) (promotion : option ascii) :
  pieceMatch move = Some (p, d, sq, promotion) ->
  String.eqb move "o-o" || String.eqb move "0-0" = false /\
  String.eqb move "o-o-o" || String.eqb move "0-0-0" = false.
Proof.
  intros H. apply pieceMatch_shape in H as (P & [rest ->] & _).
  apply isPieceChar_cases in P.
  destruct P as [-> | [-> | [-> | [-> | ->]]]]; split; reflexivity.
Qed.

(** X21.  Only a file letter works as disambiguation of a piece move.  When
    the expression for piece moves captures a rank digit (as in R1a3) or a
    file and a rank (as in Nb1c3), [findPieceForMove] finds no candidate and
    the move is rejected, whatever the position. *)
Theorem disambiguation_by_rank_is_rejected (page : Page) (u : UI.Manager)
  (move : string) (p : ascii) (d : string) (sq : SquareText)
  (promotion : option ascii) :
  pieceMatch move = Some (p, d, sq, promotion) ->
  d <> EmptyString ->
  (forall f, isFileChar f = true -> d <> String f EmptyString) ->
  UI.parseAlgebraicNotation page u move = Returned (RFalse, u).
Proof.
  intros M N1 N2. unfold UI.parseAlgebraicNotation.
  destruct (pieceMatch_not_castling _ _ _ _ _ M) as [C1 C2].
  rewrite C1, C2, M.
  apply pieceMatch_shape in M as (_ & _ & _ & _ & D).
  unfold UI.handlePieceMove, handlePieceMove.
  destruct D as [-> | [(f & F & ->) | [(k & K & ->) | (f & k & F & K & ->)]]].
  - now elim N1.
  - now elim (N2 f F).
  - rewrite findPieceForMove_rank by exact K. cbn [UI.afterTextMove].
    now rewrite set_gameEngine_same.
  - rewrite findPieceForMove_square by exact F. cbn [UI.afterTextMove].
    now rewrite set_gameEngine_same.
Qed.

(** Witness of [disambiguation_by_rank_is_rejected]: the text r1a3. *)
Lemma disambiguation_by_rank_is_rejected_witness :
  pieceMatch "r1a3" = Some ("r"%char, "1", ("a"%char, "3"%char), None) /\
  UI.parseAlgebraicNotation (mkPage true true true)
    (UI.mkManager initialState None false) "r1a3"
  = Returned (RFalse, UI.mkManager initialState None false).
Proof.
  split; [reflexivity |].
  apply (disambiguation_by_rank_is_rejected (mkPage true true true)
           (UI.mkManager initialState None false) "r1a3"
           "r"%char "1" ("a"%char, "3"%char) None).
  - reflexivity.
  - discriminate.
  - intros f F E. inversion E; subst f. discriminate F.
Defined.

(** * Texts that name a square (X22, X23) *)

Lemma file_facts (f : ascii) :
  isFileChar f = true ->
  isRankChar f = false /\ Ascii.eqb f "x" = false /\
  Ascii.eqb f "=" = false /\ toLowerChar f = f /\ isWhiteSpace f = false.
Proof.
  intros F. apply isFileChar_code in F.
  split; [unfold isRankChar; lia |].
  split; [apply eqb_code; change (codeOf "x") with 120; lia |].
  split; [apply eqb_code; change (codeOf "=") with 61; lia |].
  split.
  - unfold toLowerChar.
    destruct ((65 <=? codeOf f) && (codeOf f <=? 90)
              || (192 <=? codeOf f) && (codeOf f <=? 222)
                 && negb (codeOf f =? 215)) eqn:E; [lia | reflexivity].
  - unfold isWhiteSpace. lia.
Qed.

Lemma rank_facts (r : ascii) :
  isRankChar r = true ->
  isFileChar r = false /\ Ascii.eqb r "x" = false /\
  Ascii.eqb r "=" = false /\ toLowerChar r = r /\ isWhiteSpace r = false /\
  isPieceChar r = false.
Proof.
  intros R. apply isRankChar_code in R.
  split; [unfold isFileChar; lia |].
  split; [apply eqb_code; change (codeOf "x") with 120; lia |].
  split; [apply eqb_code; change (codeOf "=") with 61; lia |].
  split.
  - unfold toLowerChar.
    destruct ((65 <=? codeOf r) && (codeOf r <=? 90)
              || (192 <=? codeOf r) && (codeOf r <=? 222)
                 && negb (codeOf r =? 215)) eqn:E; [lia | reflexivity].
  - split; [unfold isWhiteSpace; lia |].
    unfold isPieceChar, isPromotionChar.
    rewrite (eqb_code r "k") by (change (codeOf "k") with 107; lia).
    rewrite (eqb_code r "q") by (change (codeOf "q") with 113; lia).
    rewrite (eqb_code r "r") by (change (codeOf "r") with 114; lia).
    rewrite (eqb_code r "b") by (change (codeOf "b") with 98; lia).
    rewrite (eqb_code r "n") by (change (codeOf "n") with 110; lia).
    reflexivity.
Qed.

(** X22.  [handleSimplePawnMove] is never called: a text that consists of a
    square is already matched by the expression for pawn moves, so that
    [handlePawnMove] receives it, with no file and not as a capture. *)
Theorem square_text_goes_to_handlePawnMove (page : Page) (u : UI.Manager)
  (move : string) (sq : SquareText) :
  simplePawnMatch move = Some sq ->
  pawnMatch move = Some (None, sq, None) /\
  UI.parseAlgebraicNotation page u move
  = UI.handlePawnMove page u None sq false.
Proof.
  unfold simplePawnMatch. intros H.
  destruct move as [| f [| r [| x rest]]]; try discriminate.
  destruct (isFileChar f) eqn:F; [| discriminate].
  destruct (isRankChar r) eqn:R; [| discriminate].
  inversion H; subst sq. clear H.
  destruct (file_facts f F) as (F1 & F2 & F3 & _).
  destruct (rank_facts r R) as (R1 & R2 & R3 & _ & _ & R6).
  assert (P : pawnMatch (String f (String r EmptyString))
              = Some (None, (f, r), None)).
  { unfold pawnMatch, captureEnd, squareEnd, promotionEnd.
    rewrite ?F, ?R, ?R1, ?R2, ?F2. reflexivity. }
  split; [exact P |].
  unfold UI.parseAlgebraicNotation. rewrite P.
  assert (M : pieceMatch (String f (String r EmptyString)) = None).
  { unfold pieceMatch, captureEnd, squareEnd.
    rewrite ?R, ?R1, ?R2. destruct (isPieceChar f); reflexivity. }
  rewrite M. cbn [String.eqb includes]. rewrite F2, R2.
  destruct (Ascii.eqb f "o"), (Ascii.eqb f "0"), (Ascii.eqb r "-");
    reflexivity.
Qed.

(** Witness of [square_text_goes_to_handlePawnMove]: the text e4. *)
Lemma square_text_goes_to_handlePawnMove_witness :
  simplePawnMatch "e4" = Some ("e"%char, "4"%char) /\
  pawnMatch "e4" = Some (None, ("e"%char, "4"%char), None) /\
  UI.parseAlgebraicNotation (mkPage true true true)
    (UI.mkManager initialState None false) "e4"
  = UI.handlePawnMove (mkPage true true true)
      (UI.mkManager initialState None false) None ("e"%char, "4"%char) false.
Proof.
  split; [reflexivity |].
  apply (square_text_goes_to_handlePawnMove (mkPage true true true)
           (UI.mkManager initialState None false) "e4" ("e"%char, "4"%char)).
  reflexivity.
Defined.

Lemma trimEnd_kept (s : string) :
  allChars (fun a => negb (isWhiteSpace a)) s = true -> trimEnd s = s.
Proof.
  induction s as [| a rest IH]; [reflexivity |]. cbn [allChars trimEnd].
  intros H. apply andb_true_iff in H as [Ha Hr]. rewrite (IH Hr).
  apply negb_true_iff in Ha. rewrite Ha. now destruct rest.
Qed.

Lemma allChars_impl (p q : ascii -> bool) (s : string) :
  (forall a, p a = true -> q a = true) ->
  allChars p s = true -> allChars q s = true.
Proof.
  intros I. induction s as [| a rest IH]; [reflexivity |]. cbn [allChars].
  intros H. apply andb_true_iff in H as [Ha Hr].
  now rewrite (I a Ha), (IH Hr).
Qed.

Lemma trimEnd_plain (s : string) :
  allChars plainChar s = true -> trimEnd s = s.
Proof.
  intros H. apply trimEnd_kept. revert H. apply allChars_impl.
  intros a Ha. unfold plainChar in Ha. now apply andb_true_iff in Ha as [Ha _].
Qed.

Lemma trim_toLowerCase_plain (s : string) :
  allChars plainChar s = true -> toLowerCase (trim s) = s.
Proof.
  intros H. unfold trim.
  assert (T : trimStart s = s).
  { destruct s as [| a rest]; [reflexivity |]. cbn [allChars] in H.
    apply andb_true_iff in H as [Ha _]. unfold plainChar in Ha.
    apply andb_true_iff in Ha as [Ha _]. apply negb_true_iff in Ha.
    cbn [trimStart]. now rewrite Ha. }
  rewrite T, (trimEnd_plain s H). clear T.
  induction s as [| a rest IH]; [reflexivity |]. cbn [allChars] in H.
  apply andb_true_iff in H as [Ha Hr]. cbn [toLowerCase].
  rewrite (IH Hr). unfold plainChar in Ha.
  apply andb_true_iff in Ha as [_ Ha]. apply Ascii.eqb_eq in Ha.
  now rewrite Ha.
Qed.

Lemma plainChar_file (f : ascii) : isFileChar f = true -> plainChar f = true.
Proof.
  intros F. destruct (file_facts f F) as (_ & _ & _ & L & W).
  unfold plainChar. rewrite W, L, Ascii.eqb_refl. reflexivity.
Qed.

Lemma plainChar_rank (r : ascii) : isRankChar r = true -> plainChar r = true.
Proof.
  intros R. destruct (rank_facts r R) as (_ & _ & _ & L & W & _).
  unfold plainChar. rewrite W, L, Ascii.eqb_refl. reflexivity.
Qed.

(** X23.  A capture by a pawn of the b-file cannot be entered in algebraic
    notation: the text bx followed by a square, in either case of the first
    letter, is matched by the expression for piece moves, which is tried
    first, and is handed to [handlePieceMove] as a move of a bishop.  When no
    bishop of the player can go to the square the text is rejected. *)
Theorem b_file_capture_is_read_as_bishop_move (page : Page) (u : UI.Manager)
  (b f r : ascii) :
  b = "b"%char \/ b = "B"%char ->
  isFileChar f = true -> isRankChar r = true ->
  UI.parseAndExecuteMove page u
    (String b (String "x" (String f (String r EmptyString))))
  = UI.handlePieceMove page u "b" EmptyString (f, r) /\
  (findPieceForMove (UI.gameEngine u) Bishop EmptyString
     (rowOf (f, r)) (colOf (f, r)) = None ->
   UI.parseAndExecuteMove page u
     (String b (String "x" (String f (String r EmptyString))))
   = Returned (RFalse, u)).
Proof.
  intros B F R.
  assert (L : toLowerCase
                (trim (String b (String "x" (String f (String r EmptyString)))))
              = String "b" (String "x" (String f (String r EmptyString)))).
  { destruct B as [-> | ->].
    - apply trim_toLowerCase_plain. cbn [allChars].
      rewrite (plainChar_file f F), (plainChar_rank r R). reflexivity.
    - unfold trim. cbn [trimStart].
      change (isWhiteSpace "B") with false. cbv iota.
      rewrite trimEnd_kept.
      + cbn [toLowerCase].
        change (toLowerChar "B") with "b"%char.
        change (toLowerChar "x") with "x"%char.
        destruct (file_facts f F) as (_ & _ & _ & -> & _).
        destruct (rank_facts r R) as (_ & _ & _ & -> & _).
        reflexivity.
      + cbn [allChars].
        destruct (file_facts f F) as (_ & _ & _ & _ & ->).
        destruct (rank_facts r R) as (_ & _ & _ & _ & -> & _).
        reflexivity. }
  assert (E : UI.parseAndExecuteMove page u
                (String b (String "x" (String f (String r EmptyString))))
              = UI.handlePieceMove page u "b" EmptyString (f, r)).
  { unfold UI.parseAndExecuteMove. rewrite L.
    change (coordinateMatch
              (String "b" (String "x" (String f (String r EmptyString)))))
      with (@None (SquareText * SquareText * option ascii)).
    unfold UI.parseAlgebraicNotation.
    assert (M : pieceMatch
                  (String "b" (String "x" (String f (String r EmptyString))))
                = Some ("b"%char, EmptyString, (f, r), None)).
    { unfold pieceMatch.
      change (isPieceChar "b") with true. cbv iota.
      change (isFileChar "x") with false.
      change (isRankChar "x") with false. cbn [andb firstMatch].
      unfold captureEnd, squareEnd, promotionEnd.
      change (Ascii.eqb "x" "x") with true. cbv iota.
      rewrite F, R. reflexivity. }
    rewrite M. reflexivity. }
  split; [exact E |].
  intros N. rewrite E. unfold UI.handlePieceMove, handlePieceMove.
  change (pieceOfChar "b") with Bishop. rewrite N.
  cbn [UI.afterTextMove]. now rewrite set_gameEngine_same.
Qed.

(** Witness of [b_file_capture_is_read_as_bishop_move]: after 1. b4 a5 the
    capture b4xa5 is a move that the engine accepts, and the text bxa5 is
    rejected. *)
Lemma b_file_capture_is_read_as_bishop_move_witness :
  (exists s', makeMove after_b4a5 4 1 3 0 = Returned (RTrue, s')) /\
  UI.parseAndExecuteMove (mkPage true true true)
    (UI.mkManager after_b4a5 None false) "bxa5"
  = Returned (RFalse, UI.mkManager after_b4a5 None false).
Proof.
  split.
  - destruct (makeMove after_b4a5 4 1 3 0) as [| [res s']] eqn:M;
      [vm_compute in M; discriminate |].
    exists s'. f_equal. f_equal. vm_compute in M. congruence.
  - apply (b_file_capture_is_read_as_bishop_move (mkPage true true true)
             (UI.mkManager after_b4a5 None false) "b"%char "a"%char "5"%char).
    + now left.
    + reflexivity.
    + reflexivity.
    + vm_compute; reflexivity.
Defined.

(** * Texts that the parser does not understand (X24) *)

Lemma lastChar_cons (a : ascii) (rest : string) :
  rest <> EmptyString -> lastChar (String a rest) = lastChar rest.
Proof. destruct rest; [now intros [] | reflexivity]. Qed.

Lemma lastChar_some (s : string) (c : ascii) :
  lastChar s = Some c -> s <> EmptyString.
Proof. destruct s; [discriminate | discriminate]. Qed.

Lemma lastChar_app (n : string) (c : ascii) :
  lastChar (n ++ String c EmptyString) = Some c.
Proof.
  induction n as [| a n IH]; [reflexivity |].
  cbn [append]. rewrite lastChar_cons; [exact IH |].
  now destruct n.
Qed.

Lemma lastChar_trimStart (s : string) (c : ascii) :
  lastChar s = Some c -> isWhiteSpace c = false ->
  lastChar (trimStart s) = Some c.
Proof.
  induction s as [| a rest IH]; [discriminate |]. intros L W.
  cbn [trimStart]. destruct (isWhiteSpace a) eqn:Wa; [| exact L].
  destruct rest as [| b rest'].
  - cbn in L. inversion L; subst. congruence.
  - apply IH; [| exact W]. exact L.
Qed.

Lemma lastChar_trimEnd (s : string) (c : ascii) :
  lastChar s = Some c -> isWhiteSpace c = false ->
  lastChar (trimEnd s) = Some c.
Proof.
  induction s as [| a rest IH]; [discriminate |]. intros L W.
  cbn [trimEnd]. destruct rest as [| b rest'].
  - cbn in L. inversion L; subst. cbn [trimEnd]. now rewrite W.
  - assert (L' : lastChar (String b rest') = Some c) by exact L.
    specialize (IH L' W).
    destruct (trimEnd (String b rest')) as [| b' t] eqn:T;
      [discriminate |].
    rewrite lastChar_cons by discriminate. exact IH.
Qed.

Lemma lastChar_toLowerCase (s : string) :
  lastChar (toLowerCase s) = option_map toLowerChar (lastChar s).
Proof.
  induction s as [| a rest IH]; [reflexivity |].
  destruct rest as [| b rest']; [reflexivity |].
  cbn [toLowerCase] in *. rewrite lastChar_cons by discriminate.
  rewrite IH. reflexivity.
Qed.

Lemma promotionEnd_last (rest : string) (x : option ascii) :
  promotionEnd rest = Some x ->
  rest = EmptyString
  \/ exists c, lastChar rest = Some c /\ endsMove c = true.
Proof.
  unfold promotionEnd. destruct rest as [| e [| p [| q rest']]];
    try discriminate; [now left |].
  destruct (Ascii.eqb e "="); [| discriminate]. cbn [andb].
  destruct (isPromotionChar p) eqn:P; [| discriminate].
  intros _. right. exists p. split; [reflexivity |].
  unfold endsMove. rewrite P. now rewrite orb_true_r.
Qed.

Lemma squareEnd_last (rest : string) (m : SquareText * option ascii) :
  squareEnd rest = Some m ->
  exists c, lastChar rest = Some c /\ endsMove c = true.
Proof.
  unfold squareEnd. destruct rest as [| f [| r rest']]; try discriminate.
  destruct (isFileChar f); [| discriminate].
  destruct (isRankChar r) eqn:R; [| discriminate]. cbn [andb].
  destruct (promotionEnd rest') as [x |] eqn:E; [| discriminate].
  intros _. apply promotionEnd_last in E as [-> | (c & L & M)].
  - exists r. split; [reflexivity |]. unfold endsMove. now rewrite R.
  - exists c. split; [| exact M].
    rewrite !lastChar_cons; [exact L | | discriminate].
    now apply lastChar_some in L.
Qed.

Lemma captureEnd_last (rest : string) (m : SquareText * option ascii) :
  captureEnd rest = Some m ->
  exists c, lastChar rest = Some c /\ endsMove c = true.
Proof.
  unfold captureEnd. destruct rest as [| x rest']; [discriminate |].
  destruct (Ascii.eqb x "x").
  - destruct (squareEnd rest') as [m' |] eqn:E.
    + intros _. apply squareEnd_last in E as (c & L & M).
      exists c. split; [| exact M].
      rewrite lastChar_cons; [exact L |]. now apply lastChar_some in L.
    + apply squareEnd_last.
  - apply squareEnd_last.
Qed.

Lemma lastChar_suffix (t r : string) (c : ascii) :
  lastChar r = Some c -> lastChar (t ++ r) = Some c.
Proof.
  intros L. pose proof (lastChar_some _ _ L) as N.
  induction t as [| a t IH]; [exact L |]. cbn [append].
  rewrite lastChar_cons; [exact IH |].
  destruct t; [exact N | discriminate].
Qed.

Lemma captureEnd_suffix (t r : string) (m : SquareText * option ascii) :
  captureEnd r = Some m ->
  exists c, lastChar (t ++ r) = Some c /\ endsMove c = true.
Proof.
  intros H. apply captureEnd_last in H as (c & L & M). exists c.
  split; [now apply lastChar_suffix | exact M].
Qed.

Lemma firstMatch_In {A : Type} (alternatives : list (option A)) (m : A) :
  firstMatch alternatives = Some m -> In (Some m) alternatives.
Proof.
  induction alternatives as [| [a |] l IH]; cbn [firstMatch]; intros H.
  - discriminate.
  - left. exact H.
  - right. now apply IH.
Qed.

Lemma pieceMatch_last (move : string)
  (m : ascii * string * SquareText * option ascii) :
  pieceMatch move = Some m ->
  exists c, lastChar move = Some c /\ endsMove c = true.
Proof.
  unfold pieceMatch. destruct move as [| p rest]; [discriminate |].
  destruct (isPieceChar p); [| discriminate]. intros H.
  apply firstMatch_In in H.
  destruct H as [H | [H | [H | [H | []]]]].
  - destruct rest as [| f [| k rest']]; try discriminate.
    destruct (isFileChar f && isRankChar k); [| discriminate].
    destruct (captureEnd rest') as [m0 |] eqn:C; [| discriminate].
    exact (captureEnd_suffix (String p (String f (String k EmptyString)))
             rest' m0 C).
  - destruct rest as [| f rest']; try discriminate.
    destruct (isFileChar f); [| discriminate].
    destruct (captureEnd rest') as [m0 |] eqn:C; [| discriminate].
    exact (captureEnd_suffix (String p (String f EmptyString)) rest' m0 C).
  - destruct rest as [| k rest']; try discriminate.
    destruct (isRankChar k); [| discriminate].
    destruct (captureEnd rest') as [m0 |] eqn:C; [| discriminate].
    exact (captureEnd_suffix (String p (String k EmptyString)) rest' m0 C).
  - destruct (captureEnd rest) as [m0 |] eqn:C; [| discriminate].
    exact (captureEnd_suffix (String p EmptyString) rest m0 C).
Qed.

Lemma pawnMatch_last (move : string)
  (m : option ascii * SquareText * option ascii) :
  pawnMatch move = Some m ->
  exists c, lastChar move = Some c /\ endsMove c = true.
Proof.
  unfold pawnMatch. intros H. apply firstMatch_In in H.
  destruct H as [H | [H | []]].
  - destruct move as [| f rest]; try discriminate.
    destruct (isFileChar f); [| discriminate].
    destruct (captureEnd rest) as [m0 |] eqn:C; [| discriminate].
    exact (captureEnd_suffix (String f EmptyString) rest m0 C).
  - destruct (captureEnd move) as [m0 |] eqn:C; [| discriminate].
    exact (captureEnd_suffix EmptyString move m0 C).
Qed.

Lemma coordinateMatch_last (move : string)
  (m : SquareText * SquareText * option ascii) :
  coordinateMatch move = Some m ->
  exists c, lastChar move = Some c /\ endsMove c = true.
Proof.
  unfold coordinateMatch.
  destruct move as [| f1 [| r1 [| f2 [| r2 rest]]]]; try discriminate.
  destruct (isFileChar f1 && isRankChar r1 && isFileChar f2); cbn [andb];
    [| discriminate].
  destruct (isRankChar r2) eqn:R; [| discriminate].
  destruct rest as [| p [| q rest']]; try discriminate.
  - intros _. exists r2. split; [reflexivity |]. unfold endsMove.
    now rewrite R.
  - destruct (isPromotionChar p) eqn:P; [| discriminate].
    intros _. exists p. split; [reflexivity |]. unfold endsMove.
    rewrite P. now rewrite orb_true_r.
Qed.

Lemma simplePawnMatch_last (move : string) (m : SquareText) :
  simplePawnMatch move = Some m ->
  exists c, lastChar move = Some c /\ endsMove c = true.
Proof.
  unfold simplePawnMatch. destruct move as [| f [| r [| x rest]]];
    try discriminate.
  destruct (isFileChar f); [| discriminate].
  destruct (isRankChar r) eqn:R; [| discriminate].
  intros _. exists r. split; [reflexivity |]. unfold endsMove. now rewrite R.
Qed.

Lemma castling_text_last (move castling : string) (c : ascii) :
  lastChar move = Some c -> endsMove c = false ->
  In castling ["o-o"; "0-0"; "o-o-o"; "0-0-0"] ->
  String.eqb move castling = false.
Proof.
  intros L M I. apply String.eqb_neq. intros ->.
  destruct I as [<- | [<- | [<- | [<- | []]]]]; cbn in L; inversion L; subst;
    discriminate M.
Qed.

(** X24.  A text whose last character, once the white space around it is
    removed, is not a rank digit, a promotion letter, the letter o or the
    digit 0 is rejected and changes nothing.  In particular the marks + and #
    are not understood, so that the notation which the engine records for a
    move that gives check is never accepted back as input. *)
Theorem text_with_check_mark_is_rejected (page : Page) (u : UI.Manager)
  (notation : string) (c : ascii) :
  isWhiteSpace c = false ->
  endsMove (toLowerChar c) = false ->
  UI.parseAndExecuteMove page u (notation ++ String c EmptyString)
  = Returned (RFalse, u).
Proof.
  intros W M. unfold UI.parseAndExecuteMove.
  set (move := toLowerCase (trim (notation ++ String c EmptyString))).
  assert (L : lastChar move = Some (toLowerChar c)).
  { unfold move, trim. rewrite lastChar_toLowerCase.
    rewrite (lastChar_trimEnd _ c); [reflexivity | | exact W].
    apply lastChar_trimStart; [apply lastChar_app | exact W]. }
  assert (N : forall d, lastChar move = Some d -> endsMove d = true -> False).
  { intros d Ld Md. rewrite L in Ld. inversion Ld; subst d. congruence. }
  destruct (coordinateMatch move) as [m |] eqn:C.
  { apply coordinateMatch_last in C as (d & Ld & Md). now elim (N d). }
  unfold UI.parseAlgebraicNotation.
  rewrite !(castling_text_last move _ _ L M) by (cbn; tauto).
  cbn [orb].
  destruct (pieceMatch move) as [m |] eqn:P.
  { apply pieceMatch_last in P as (d & Ld & Md). now elim (N d). }
  destruct (pawnMatch move) as [m |] eqn:Q.
  { apply pawnMatch_last in Q as (d & Ld & Md). now elim (N d). }
  destruct (simplePawnMatch move) as [m |] eqn:S.
  { apply simplePawnMatch_last in S as (d & Ld & Md). now elim (N d). }
  reflexivity.
Qed.

(** Witness of [text_with_check_mark_is_rejected]: the text Qh5#, which is
    what the engine records for 2. Qh5 after 1. e4 f5. *)
Lemma text_with_check_mark_is_rejected_witness :
  last (moveHistory after_check) "" = ("Qh5" ++ "#")%string /\
  UI.parseAndExecuteMove (mkPage true true true)
    (UI.mkManager before_check None false) ("Qh5" ++ "#")
  = Returned (RFalse, UI.mkManager before_check None false).
Proof.
  split; [vm_compute; reflexivity |].
  apply (text_with_check_mark_is_rejected (mkPage true true true)
           (UI.mkManager before_check None false) "Qh5" "#"%char);
    reflexivity.
Defined.

(** * Promotion from the text field (X25) *)

Lemma makeMove_promotion_pending (s : State) (fromRow fromCol toRow toCol : Z)
  (s' : State) :
  makeMove s fromRow fromCol toRow toCol = Returned (RPromotion, s') ->
  pendingPromotion s' <> None.
Proof.
  intros M.
  destruct (pendingPromotion s) as [pp |] eqn:Hp.
  { rewrite makeMove_blocked in M by (left; congruence). discriminate. }
  destruct (isGameOver s) eqn:Ho.
  { rewrite makeMove_blocked in M by (now right). discriminate. }
  destruct (makeMove_cases s fromRow fromCol toRow toCol Hp Ho)
    as [[_ E] | [(q & Hq & Cq & E) | [[_ E] | (q & Hq & Cq & V & E)]]];
    rewrite E in M; try discriminate.
  - destruct (canCastle s (color q) (sideOf toCol)); [| discriminate].
    inversion M as [[Er Es]].
    destruct (fst (handleCastling s (sideOf toCol) (deepCopyBoard (board s))));
      discriminate.
  - inversion M as [Ex].
    destruct (executeMove_promotion s q fromRow fromCol toRow toCol s'
                Cq Hq Ex) as (_ & _ & ->).
    discriminate.
Qed.

Lemma afterTextMove_blocked (page : Page) (u : UI.Manager)
  (fromRow fromCol toRow toCol : Z) :
  pendingPromotion (UI.gameEngine u) <> None
  \/ isGameOver (UI.gameEngine u) = true ->
  UI.afterTextMove page u
    (makeMove (UI.gameEngine u) fromRow fromCol toRow toCol)
  = Returned (RFalse, u).
Proof.
  intros B. rewrite makeMove_blocked by exact B. cbn [UI.afterTextMove].
  now rewrite set_gameEngine_same.
Qed.

Lemma handlePawnMove_loop_blocked (page : Page) (u : UI.Manager)
  (rows : list Z) (fromCol toRow toCol : Z) (capture : bool) :
  pendingPromotion (UI.gameEngine u) <> None
  \/ isGameOver (UI.gameEngine u) = true ->
  UI.handlePawnMove_loop page u rows fromCol toRow toCol capture
  = Returned (RFalse, u).
Proof.
  intros B. induction rows as [| pawnRow rest IH]; [reflexivity |].
  cbn [UI.handlePawnMove_loop].
  match goal with |- (if ?c then _ else _) = _ => destruct c end;
    [| exact IH].
  destruct capture.
  - rewrite makeMove_blocked by exact B. now rewrite set_gameEngine_same.
  - now apply afterTextMove_blocked.
Qed.

(** While a promotion is pending, or once the game is over, every text is
    turned down. *)
Lemma parseAndExecuteMove_blocked (page : Page) (u : UI.Manager)
  (notation : string) :
  pendingPromotion (UI.gameEngine u) <> None
  \/ isGameOver (UI.gameEngine u) = true ->
  UI.parseAndExecuteMove page u notation = Returned (RFalse, u).
Proof.
  intros B. unfold UI.parseAndExecuteMove.
  destruct (coordinateMatch _) as [[[fromSquare toSquare] p] |].
  { rewrite makeMove_blocked by exact B. now rewrite set_gameEngine_same. }
  unfold UI.parseAlgebraicNotation.
  destruct (_ || _).
  { unfold UI.handleCastlingMove. now apply afterTextMove_blocked. }
  destruct (_ || _).
  { unfold UI.handleCastlingMove. now apply afterTextMove_blocked. }
  destruct (pieceMatch _) as [[[[p d] sq] promotion] |].
  { unfold UI.handlePieceMove, handlePieceMove.
    destruct (findPieceForMove _ _ _ _ _) as [piece |].
    - now apply afterTextMove_blocked.
    - cbn [UI.afterTextMove]. now rewrite set_gameEngine_same. }
  destruct (pawnMatch _) as [[[file sq] promotion] |].
  { unfold UI.handlePawnMove. now apply handlePawnMove_loop_blocked. }
  destruct (simplePawnMatch _) as [sq |]; [| reflexivity].
  unfold UI.handleSimplePawnMove.
  destruct (isValidMove _ _ _ _ _); [| reflexivity].
  now apply afterTextMove_blocked.
Qed.

Lemma afterTextMove_promotion (page : Page) (u : UI.Manager)
  (r : Outcome (MoveResult * State)) (u' : UI.Manager) :
  UI.afterTextMove page u r = Returned (RPromotion, u') ->
  UI.promotionModalShown u' = UI.promotionModalShown u /\
  exists s', r = Returned (RPromotion, s') /\ UI.gameEngine u' = s'.
Proof.
  destruct r as [| [[| |] s']]; cbn [UI.afterTextMove]; intros H;
    try discriminate.
  inversion H; subst. split; [reflexivity |]. now exists s'.
Qed.

Lemma handlePawnMove_loop_promotion (page : Page) (u : UI.Manager)
  (rows : list Z) (fromCol toRow toCol : Z) (u' : UI.Manager) :
  UI.handlePawnMove_loop page u rows fromCol toRow toCol false
  = Returned (RPromotion, u') ->
  UI.promotionModalShown u' = UI.promotionModalShown u /\
  pendingPromotion (UI.gameEngine u') <> None.
Proof.
  induction rows as [| pawnRow rest IH]; [discriminate |].
  cbn [UI.handlePawnMove_loop].
  match goal with |- (if ?c then _ else _) = _ -> _ => destruct c end;
    [| exact IH].
  intros H. apply afterTextMove_promotion in H as (Hm & s' & M & ->).
  split; [exact Hm |]. now apply makeMove_promotion_pending in M.
Qed.

Lemma includes_trimStart (s : string) (a : ascii) :
  includes (trimStart s) a = true -> includes s a = true.
Proof.
  induction s as [| b rest IH]; [discriminate |]. cbn [trimStart includes].
  destruct (isWhiteSpace b); [| trivial].
  intros H. rewrite (IH H). apply orb_true_r.
Qed.

Lemma includes_trimEnd (s : string) (a : ascii) :
  includes (trimEnd s) a = true -> includes s a = true.
Proof.
  induction s as [| b rest IH]; [discriminate |]. cbn [trimEnd includes].
  destruct (trimEnd rest) as [| c t].
  - destruct (isWhiteSpace b); [discriminate |]. cbn [includes].
    rewrite orb_false_r. intros ->. reflexivity.
  - cbn [includes] in *. intros H. apply orb_true_iff in H as [H | H].
    + now rewrite H.
    + rewrite (IH H). apply orb_true_r.
Qed.

Lemma toLowerChar_x (a : ascii) :
  toLowerChar a = "x"%char -> a = "x"%char \/ a = "X"%char.
Proof.
  destruct a as [[] [] [] [] [] [] [] []]; vm_compute; intros H;
    try discriminate; auto.
Qed.

Lemma includes_toLowerCase_x (s : string) :
  includes (toLowerCase s) "x" = true ->
  includes s "x" = true \/ includes s "X" = true.
Proof.
  induction s as [| b rest IH]; [discriminate |].
  cbn [toLowerCase includes]. intros H.
  apply orb_true_iff in H as [H | H].
  - apply Ascii.eqb_eq in H. apply toLowerChar_x in H as [-> | ->];
      [left | right]; reflexivity.
  - destruct (IH H) as [E | E]; rewrite E; [left | right];
      apply orb_true_r.
Qed.

(** X25.  A promotion entered in the text field without the letter x (a
    pawn's advance such as a8, or coordinates such as a7b8) suspends the
    move like any other promotion, but the dialog in which the piece is
    chosen is not opened; and as long as the promotion is pending every text
    is turned down. *)
Theorem text_promotion_opens_no_dialog (page : Page) (u : UI.Manager)
  (notation : string) (u' : UI.Manager) :
  includes notation "x" = false -> includes notation "X" = false ->
  UI.parseAndExecuteMove page u notation = Returned (RPromotion, u') ->
  UI.promotionModalShown u' = UI.promotionModalShown u /\
  pendingPromotion (UI.gameEngine u') <> None /\
  forall page' notation',
    UI.parseAndExecuteMove page' u' notation' = Returned (RFalse, u').
Proof.
  intros X1 X2 H.
  assert (X : includes (toLowerCase (trim notation)) "x" = false).
  { destruct (includes (toLowerCase (trim notation)) "x") eqn:E;
      [| reflexivity].
    apply includes_toLowerCase_x in E as [E | E]; unfold trim in E;
      apply includes_trimEnd, includes_trimStart in E; congruence. }
  assert (G : UI.promotionModalShown u' = UI.promotionModalShown u /\
              pendingPromotion (UI.gameEngine u') <> None).
  { unfold UI.parseAndExecuteMove in H.
    set (move := toLowerCase (trim notation)) in *.
    destruct (coordinateMatch move) as [[[fromSquare toSquare] p] |].
    { destruct (makeMove _ _ _ _ _) as [| [r s']] eqn:M; [discriminate |].
      inversion H; subst. split; [reflexivity |].
      now apply makeMove_promotion_pending in M. }
    unfold UI.parseAlgebraicNotation in H.
    destruct (_ || _).
    { unfold UI.handleCastlingMove in H.
      destruct (afterTextMove_promotion page u _ u' H) as (Hm & s' & M & ->).
      split; [exact Hm |]. now apply makeMove_promotion_pending in M. }
    destruct (_ || _).
    { unfold UI.handleCastlingMove in H.
      destruct (afterTextMove_promotion page u _ u' H) as (Hm & s' & M & ->).
      split; [exact Hm |]. now apply makeMove_promotion_pending in M. }
    destruct (pieceMatch move) as [[[[p d] sq] promotion] |].
    { unfold UI.handlePieceMove in H.
      destruct (afterTextMove_promotion page u _ u' H) as (Hm & s' & M & ->).
      split; [exact Hm |]. unfold handlePieceMove in M.
      destruct (findPieceForMove _ _ _ _ _); [| discriminate].
      now apply makeMove_promotion_pending in M. }
    destruct (pawnMatch move) as [[[file sq] promotion] |].
    { unfold UI.handlePawnMove in H. rewrite X in H.
      now apply handlePawnMove_loop_promotion in H. }
    destruct (simplePawnMatch move) as [sq |]; [| discriminate].
    unfold UI.handleSimplePawnMove in H.
    destruct (isValidMove _ _ _ _ _); [| discriminate].
    destruct (afterTextMove_promotion page u _ u' H) as (Hm & s' & M & ->).
    split; [exact Hm |]. now apply makeMove_promotion_pending in M. }
  destruct G as [G1 G2]. split; [exact G1 |]. split; [exact G2 |].
  intros page' notation'. apply parseAndExecuteMove_blocked. now left.
Qed.

(** Witness of [text_promotion_opens_no_dialog]: the text a7b8 after
    [game_promotion]. *)
Lemma text_promotion_opens_no_dialog_witness :
  UI.parseAndExecuteMove (mkPage true true true)
    (UI.mkManager after_promotion None false) "a7b8"
  = Returned (RPromotion, UI.mkManager after_promotionPending None false) /\
  UI.promotionModalShown (UI.mkManager after_promotionPending None false)
  = UI.promotionModalShown (UI.mkManager after_promotion None false) /\
  pendingPromotion
    (UI.gameEngine (UI.mkManager after_promotionPending None false))
  <> None /\
  forall page' notation',
    UI.parseAndExecuteMove page'
      (UI.mkManager after_promotionPending None false) notation'
    = Returned (RFalse, UI.mkManager after_promotionPending None false).
Proof.
  split; [vm_compute; reflexivity |].
  apply (text_promotion_opens_no_dialog (mkPage true true true)
           (UI.mkManager after_promotion None false) "a7b8");
    vm_compute; reflexivity.
Defined.

(** * Clicks on the board (X26, X27) *)

(** X26.  While the game is running and no promotion is pending, the squares
    highlighted for a piece of the player to move are exactly the destinations
    with which [makeMove] completes or suspends a move from the square of that
    piece. *)
Theorem highlighted_squares_are_the_accepted_moves (u : UI.Manager)
  (piece : Piece) (row col toRow toCol : Z) :
  pendingPromotion (UI.gameEngine u) = None ->
  isGameOver (UI.gameEngine u) = false ->
  cell (board (UI.gameEngine u)) row col = Some piece ->
  color piece = currentPlayer (UI.gameEngine u) ->
  (In (toRow, toCol) (UI.highlightLegalMoves u row col) <->
   exists result s',
     makeMove (UI.gameEngine u) row col toRow toCol = Returned (result, s')
     /\ result <> RFalse).
Proof.
  intros Hp Ho Hc Cp. set (s := UI.gameEngine u) in *.
  unfold UI.highlightLegalMoves. fold s. rewrite Hc.
  rewrite filter_In. cbn [fst snd].
  destruct (cell_row_at _ _ _ _ Hc) as [r0 Hr0].
  destruct (isCastlingMove (Some piece) row col toRow toCol) eqn:C.
  - assert (E : makeMove s row col toRow toCol
                = if canCastle s (color piece) (sideOf toCol)
                  then Returned
                         (resultOf (fst (handleCastling s (sideOf toCol)
                                           (deepCopyBoard (board s)))),
                          snd (handleCastling s (sideOf toCol)
                                 (deepCopyBoard (board s))))
                  else Returned (RFalse, s)).
    { unfold makeMove. rewrite Hp, Ho. cbn [orb]. rewrite Hr0, Hc, C.
      reflexivity. }
    rewrite E, Cp. clear E.
    assert (B : In (toRow, toCol) squares).
    { apply In_squares. unfold isCastlingMove in C.
      repeat (apply andb_true_iff in C as [C ?]).
      unfold onBoard.
      destruct (color piece); cbn in *;
        rewrite ?andb_false_r, ?orb_false_r in *; lia. }
    destruct (handleCastling_cases s (sideOf toCol) (deepCopyBoard (board s)))
      as [[Cf H] | (Ct & H & _)].
    + rewrite Cf. split; [intros [_ F]; discriminate |].
      intros (r & s' & M & N). inversion M; subst. now elim N.
    + rewrite Ct. split; [| intros _; now split].
      intros _. rewrite H. cbn [resultOf]. eexists. eexists.
      split; [reflexivity | discriminate].
  - destruct (isValidMove s row col toRow toCol) eqn:V.
    + assert (E : makeMove s row col toRow toCol
                  = Returned (executeMove s piece row col toRow toCol)).
      { unfold makeMove. rewrite Hp, Ho. cbn [orb]. rewrite Hr0, Hc, C, V.
        reflexivity. }
      rewrite E. split; [| intros _; split; [| reflexivity]].
      * intros _. destruct (executeMove s piece row col toRow toCol)
          as [r s'] eqn:X.
        exists r, s'. split; [reflexivity |].
        pose proof (executeMove_not_rejected s piece row col toRow toCol C)
          as N.
        now rewrite X in N.
      * apply isValidMove_inv in V as [B _].
        apply inBounds_onBoard in B as [_ B]. now apply In_squares.
    + assert (E : makeMove s row col toRow toCol = Returned (RFalse, s)).
      { unfold makeMove. rewrite Hp, Ho. cbn [orb]. rewrite Hr0, Hc, C, V.
        reflexivity. }
      rewrite E. split; [intros [_ F]; discriminate |].
      intros (r & s' & M & N). inversion M; subst. now elim N.
Qed.

(** Witness of [highlighted_squares_are_the_accepted_moves]: the knight of
    g1 in the starting position and the square f3. *)
Lemma highlighted_squares_are_the_accepted_moves_witness :
  In (5, 5) (UI.highlightLegalMoves (UI.mkManager initialState None false)
               7 6) <->
  exists result s',
    makeMove (UI.gameEngine (UI.mkManager initialState None false)) 7 6 5 5
    = Returned (result, s')
    /\ result <> RFalse.
Proof.
  apply (highlighted_squares_are_the_accepted_moves
           (UI.mkManager initialState None false)
           (mkPiece SymWN Knight White) 7 6 5 5); reflexivity.
Defined.


Lemma status_updates_frame (page : Page) (u : UI.Manager) :
  let u' := UI.moveComplete page (UI.updateLocalGameStatus page u) in
  UI.selectedSquare u' = UI.selectedSquare u /\
  UI.promotionModalShown u' = UI.promotionModalShown u /\
  board (UI.gameEngine u') = board (UI.gameEngine u) /\
  pendingPromotion (UI.gameEngine u') = pendingPromotion (UI.gameEngine u) /\
  (reachable (UI.gameEngine u) -> reachable (UI.gameEngine u')).
Proof.
  unfold UI.moveComplete, UI.updateLocalGameStatus.
  destruct (localGameStatusEl page), (onMoveComplete page);
    cbn [UI.gameEngine UI.set_gameEngine UI.selectedSquare
         UI.promotionModalShown];
    repeat match goal with
           | |- context [snd (checkGameEndConditions ?x)] =>
               let F := fresh "F" in
               pose proof (checkGameEndConditions_frame x) as F;
               cbv zeta in F;
               destruct F as (-> & _ & _ & -> & _)
           end;
    repeat split; auto using reachable_checkGameEnd.
Qed.

Lemma makeMove_from_empty_square (s : State) (fromRow fromCol toRow toCol : Z) :
  List.length (board s) = 8%nat ->
  0 <= fromRow <= 7 ->
  cell (board s) fromRow fromCol = None ->
  makeMove s fromRow fromCol toRow toCol = Returned (RFalse, s).
Proof.
  intros L B Hc. unfold makeMove.
  destruct ((match pendingPromotion s with Some _ => true | None => false end)
            || isGameOver s); [reflexivity |].
  destruct (row_at (board s) fromRow) as [r0 |] eqn:R.
  - rewrite Hc. unfold isValidMove. rewrite Hc.
    destruct (negb (inBounds fromRow fromCol toRow toCol)); reflexivity.
  - apply (row_at_None _ _ L) in R. lia.
Qed.

(** X27.  After a promotion made with clicks the selection is stale.  The
    click that starts the promotion leaves the pawn's square selected, and
    completing the promotion in the dialog does not clear it although the
    square is then empty; so the next click on the board, wherever it falls,
    selects nothing and moves nothing: it only clears the selection. *)
Theorem first_click_after_promotion_is_lost (page : Page) (u : UI.Manager)
  (pawnRow pawnCol toRow toCol : Z) (s1 : State) (choice : PromotionChoice) :
  reachable (UI.gameEngine u) ->
  UI.selectedSquare u = Some (pawnRow, pawnCol) ->
  makeMove (UI.gameEngine u) pawnRow pawnCol toRow toCol
  = Returned (RPromotion, s1) ->
  UI.handleSquareClick page u toRow toCol
  = Returned (UI.showPromotionModal page (UI.set_gameEngine u s1)) /\
  exists u2,
    UI.executePromotion page
      (UI.showPromotionModal page (UI.set_gameEngine u s1)) choice
    = Returned u2 /\
    UI.selectedSquare u2 = Some (pawnRow, pawnCol) /\
    cell (board (UI.gameEngine u2)) pawnRow pawnCol = None /\
    forall row col, 0 <= row <= 7 ->
      exists u3,
        UI.handleSquareClick page u2 row col = Returned u3 /\
        UI.gameEngine u3 = UI.gameEngine u2 /\
        UI.selectedSquare u3 = None.
Proof.
  intros R Hsel M. set (s := UI.gameEngine u) in *.
  destruct (pendingPromotion s) as [pp |] eqn:Hp.
  { rewrite makeMove_blocked in M by (left; congruence). discriminate. }
  destruct (isGameOver s) eqn:Ho.
  { rewrite makeMove_blocked in M by (now right). discriminate. }
  destruct (makeMove_cases s pawnRow pawnCol toRow toCol Hp Ho)
    as [[_ E] | [(q & Hq & Cq & E) | [[_ E] | (q & Hq & Cq & V & E)]]];
    rewrite E in M; try discriminate.
  { destruct (canCastle s (color q) (sideOf toCol)); [| discriminate].
    inversion M as [[Er Es]].
    destruct (fst (handleCastling s (sideOf toCol) (deepCopyBoard (board s))));
      discriminate. }
  inversion M as [Ex]. rewrite <- E in M.
  destruct (executeMove_promotion s q pawnRow pawnCol toRow toCol s1 Cq Hq Ex)
    as (T & F & Es1).
  pose proof V as V'.
  apply isValidMove_inv in V' as (B & q' & Hq' & _ & Vp & _).
  rewrite Hq in Hq'. inversion Hq'; subst q'.
  apply inBounds_onBoard in B as [[B1 B2] [B3 B4]].
  unfold isValidPieceMove in Vp. rewrite T in Vp.
  apply isValidPawnMove_rows in Vp.
  assert (Nrow : pawnRow <> toRow).
  { unfold direction in Vp. destruct (color q); lia. }
  pose proof (reachable_board_length s R) as L.
  assert (R1 : reachable s1) by exact (reachable_makeMove _ _ _ _ _ _ _ R M).
  assert (P1 : pendingPromotion s1
               = Some (mkPromotion pawnRow pawnCol toRow toCol (color q))).
  { rewrite Es1. reflexivity. }
  assert (C1 : cell (board s1) pawnRow pawnCol = Some q).
  { rewrite Es1. cbn [board set_pendingPromotion set_halfmoveClock].
    rewrite (proj1 (updateEnPassantTarget_frame _ q pawnRow pawnCol
                      toRow toCol)).
    now rewrite handleEnPassant_from. }
  split.
  { unfold UI.handleSquareClick. fold s.
    destruct (row_at (board s) toRow) as [r0 |] eqn:Rt.
    - rewrite Hsel. cbn [fst snd].
      replace (pawnRow =? toRow) with false by (symmetry; now apply Z.eqb_neq).
      cbn [andb]. rewrite M. reflexivity.
    - apply (row_at_None _ _ L) in Rt. lia. }
  destruct (executePromotion_board s1 _ q choice P1 C1) as (s2 & X & Bs2).
  destruct (executePromotion_checks_game_end s1 _ q choice P1 C1)
    as (s7 & X' & _ & P7 & _).
  assert (R2 : reachable s2) by exact (reachable_promotion _ _ _ R1 X).
  assert (P2 : pendingPromotion s2 = None).
  { rewrite X in X'. inversion X' as [E2]. 
    destruct (checkGameEndConditions_frame s7) as (_ & _ & _ & Fp & _).
    now rewrite Fp. }
  assert (C2 : cell (board s2) pawnRow pawnCol = None).
  { rewrite Bs2. cbn [fromRow fromCol].
    apply cell_set_cell_None. }
  set (u1 := UI.showPromotionModal page (UI.set_gameEngine u s1)).
  assert (G1 : UI.gameEngine u1 = s1 /\
               UI.selectedSquare u1 = Some (pawnRow, pawnCol)).
  { unfold u1, UI.showPromotionModal.
    destruct (promotionModalEl page); split; try reflexivity; exact Hsel. }
  destruct G1 as [G1 S1].
  set (u1' := UI.hidePromotionModal page (UI.set_gameEngine u1 s2)).
  assert (G1' : UI.gameEngine u1' = s2 /\
                UI.selectedSquare u1' = Some (pawnRow, pawnCol)).
  { unfold u1', UI.hidePromotionModal.
    destruct (promotionModalEl page); split; try reflexivity; exact S1. }
  destruct G1' as [G1' S1'].
  destruct (status_updates_frame page u1') as (Fs & _ & Fb & Fp & Fr).
  cbv zeta in Fs, Fb, Fp, Fr.
  set (u2 := UI.moveComplete page (UI.updateLocalGameStatus page u1')) in *.
  exists u2. split.
  { unfold UI.executePromotion. rewrite G1, P1, X. reflexivity. }
  rewrite G1' in Fb, Fp, Fr.
  split; [congruence |]. split; [now rewrite Fb |].
  intros row col Brow.
  pose proof (reachable_board_length _ (Fr R2)) as L2.
  unfold UI.handleSquareClick.
  destruct (row_at (board (UI.gameEngine u2)) row) as [r0 |] eqn:Rt;
    [| apply (row_at_None _ _ L2) in Rt; lia].
  rewrite Fs, S1'. cbn [fst snd].
  destruct ((pawnRow =? row) && (pawnCol =? col)).
  - eexists. split; [reflexivity |]. split; reflexivity.
  - rewrite makeMove_from_empty_square;
      [| exact L2 | lia | now rewrite Fb].
    eexists. split; [reflexivity |]. split; reflexivity.
Qed.

(** Witness of [first_click_after_promotion_is_lost]: the capture a7xb8
    made with two clicks after [game_promotion]. *)
Lemma first_click_after_promotion_is_lost_witness :
  makeMove after_promotion 1 0 0 1 = Returned (RPromotion, after_promotionPending)
  /\
  UI.handleSquareClick (mkPage true true true)
    (UI.mkManager after_promotion (Some (1, 0)) false) 0 1
  = Returned (UI.showPromotionModal (mkPage true true true)
                (UI.set_gameEngine
                   (UI.mkManager after_promotion (Some (1, 0)) false)
                   after_promotionPending)) /\
  exists u2,
    UI.executePromotion (mkPage true true true)
      (UI.showPromotionModal (mkPage true true true)
         (UI.set_gameEngine
            (UI.mkManager after_promotion (Some (1, 0)) false)
            after_promotionPending)) ToQueen
    = Returned u2 /\
    UI.selectedSquare u2 = Some (1, 0) /\
    cell (board (UI.gameEngine u2)) 1 0 = None /\
    forall row col, 0 <= row <= 7 ->
      exists u3,
        UI.handleSquareClick (mkPage true true true) u2 row col
        = Returned u3 /\
        UI.gameEngine u3 = UI.gameEngine u2 /\
        UI.selectedSquare u3 = None.
Proof.
  split; [vm_compute; reflexivity |].
  apply (first_click_after_promotion_is_lost (mkPage true true true)
           (UI.mkManager after_promotion (Some (1, 0)) false)
           1 0 0 1 after_promotionPending ToQueen).
  - apply (play_reachable game_promotion initialState);
      [exact reachable_initial | vm_compute; reflexivity].
  - reflexivity.
  - vm_compute; reflexivity.
Defined.

(** * The position sent to the chess program (X28) *)

Lemma string_app_assoc (a b c : string) :
  ((a ++ b) ++ c)%string = (a ++ (b ++ c))%string.
Proof. induction a as [| x a IH]; [reflexivity |]. cbn. now rewrite IH. Qed.

Lemma fenSquare_fold (b : Board) (row : Z) (cols : list Z) :
  forall (fen : string) (n : Z),
    (let (fen', n') := fold_left (ChessApp.fenSquare b row) cols (fen, n) in
     if n' >? 0 then (fen' ++ numToString n')%string else fen')
    = (fen ++ rankText (map (cell b row) cols) n)%string.
Proof.
  induction cols as [| col cols IH]; intros fen n.
  - cbn. destruct (n >? 0); [reflexivity |]. now rewrite string_app_nil_r.
  - cbn [fold_left map rankText]. unfold ChessApp.fenSquare at 2.
    destruct (cell b row col) as [piece |].
    + rewrite IH. destruct (n >? 0).
      * now rewrite !string_app_assoc.
      * now rewrite string_app_assoc.
    + now rewrite IH.
Qed.

Lemma fenRow_text (b : Board) (fen : string) (row : Z) :
  ChessApp.fenRow b fen row
  = (fen ++ rankText (map (cell b row) range8) 0
         ++ (if (row <? 7)%Z then "/" else ""))%string.
Proof.
  unfold ChessApp.fenRow.
  pose proof (fenSquare_fold b row range8 fen 0) as H.
  destruct (fold_left (ChessApp.fenSquare b row) range8 (fen, 0))
    as [fen' n'].
  rewrite H. destruct (row <? 7).
  - now rewrite string_app_assoc.
  - now rewrite string_app_nil_r.
Qed.

Lemma readFenRank_app (a b : string) :
  readFenRank (a ++ b) = (readFenRank a ++ readFenRank b)%list.
Proof.
  induction a as [| x a IH]; [reflexivity |]. cbn [append readFenRank].
  now rewrite IH, app_assoc.
Qed.

Lemma emptyCount_text (n : Z) :
  0 <= n <= 8 ->
  readFenRank (if n >? 0 then numToString n else EmptyString)
  = repeat None (Z.to_nat n) /\
  includes (if n >? 0 then numToString n else EmptyString) "/" = false.
Proof.
  intros H.
  assert (E : n = 0 \/ n = 1 \/ n = 2 \/ n = 3 \/ n = 4 \/ n = 5 \/ n = 6
              \/ n = 7 \/ n = 8) by lia.
  repeat (destruct E as [-> | E]; [split; reflexivity |]).
  subst. split; reflexivity.
Qed.

Lemma fenSymbol_text (piece : Piece) :
  readFenRank (ChessApp.fenSymbol piece) = [Some (color piece, type piece)]
  /\ includes (ChessApp.fenSymbol piece) "/" = false.
Proof.
  unfold ChessApp.fenSymbol.
  destruct (color piece), (type piece); split; reflexivity.
Qed.

Lemma repeat_shift {A : Type} (x : A) (k : nat) (l : list A) :
  (repeat x k ++ x :: l = x :: repeat x k ++ l)%list.
Proof. induction k as [| k IH]; [reflexivity |]. cbn. now rewrite IH. Qed.

Lemma rankText_read (cells : list (option Piece)) :
  forall n, 0 <= n -> n + Z.of_nat (List.length cells) <= 8 ->
    readFenRank (rankText cells n)
    = (repeat None (Z.to_nat n)
       ++ map (fun c => match c with
                        | Some piece => Some (color piece, type piece)
                        | None => None
                        end) cells)%list
    /\ includes (rankText cells n) "/" = false.
Proof.
  induction cells as [| [piece |] cells IH]; intros n H0 H8;
    cbn [List.length] in H8.
  - cbn [rankText map]. rewrite app_nil_r. apply emptyCount_text. lia.
  - cbn [rankText map].
    destruct (emptyCount_text n ltac:(lia)) as [E1 E2].
    destruct (fenSymbol_text piece) as [S1 S2].
    destruct (IH 0 ltac:(lia) ltac:(lia)) as [I1 I2].
    split.
    + rewrite !readFenRank_app, E1, S1, I1. reflexivity.
    + rewrite !includes_app, E2, S2, I2. reflexivity.
  - cbn [rankText map].
    destruct (IH (n + 1) ltac:(lia) ltac:(lia)) as [I1 I2].
    split; [| exact I2].
    rewrite I1. replace (Z.to_nat (n + 1)) with (S (Z.to_nat n)) by lia.
    cbn [repeat]. now rewrite repeat_shift.
Qed.

Lemma splitRanks_single (r : string) :
  includes r "/" = false -> splitRanks r = [r].
Proof.
  induction r as [| a r IH]; [reflexivity |]. cbn [includes splitRanks].
  intros H. apply orb_false_iff in H as [Ha Hr].
  now rewrite Ha, (IH Hr).
Qed.

Lemma splitRanks_app (r rest : string) :
  includes r "/" = false ->
  splitRanks (r ++ String "/" rest) = r :: splitRanks rest.
Proof.
  induction r as [| a r IH]; [reflexivity |].
  cbn [includes append splitRanks].
  intros H. apply orb_false_iff in H as [Ha Hr].
  now rewrite Ha, (IH Hr).
Qed.

(** X28.  The record that [generateFEN] builds consists of the placement of
    the pieces, the letter of the player to move and the constant text KQkq -
    0 1; and the placement read back by the rules of the FEN standard gives
    the eight ranks of the board, square by square.  The castling rights, the
    en-passant target and the clocks of the engine do not enter the record. *)
Theorem generateFEN_round_trip (s : State) :
  ChessApp.generateFEN s
  = (ChessApp.fenPlacement (board s) ++ " "
     ++ match currentPlayer s with White => "w" | Black => "b" end
     ++ " KQkq - 0 1")%string
  /\ readFenPlacement (ChessApp.fenPlacement (board s))
     = squareContents (board s).
Proof.
  split.
  - unfold ChessApp.generateFEN. cbv zeta.
    rewrite !string_app_assoc. destruct (currentPlayer s); reflexivity.
  - set (b := board s). unfold ChessApp.fenPlacement, readFenPlacement.
    cbn [fold_left range8]. rewrite !fenRow_text.
    change (0 <? 7) with true. change (1 <? 7) with true.
    change (2 <? 7) with true. change (3 <? 7) with true.
    change (4 <? 7) with true. change (5 <? 7) with true.
    change (6 <? 7) with true. change (7 <? 7) with false.
    cbv iota. rewrite !string_app_assoc. cbn [append].
    rewrite string_app_nil_r.
    set (r := fun row => rankText (map (cell b row) range8) 0).
    change (rankText (map (cell b 0) range8) 0) with (r 0).
    change (rankText (map (cell b 1) range8) 0) with (r 1).
    change (rankText (map (cell b 2) range8) 0) with (r 2).
    change (rankText (map (cell b 3) range8) 0) with (r 3).
    change (rankText (map (cell b 4) range8) 0) with (r 4).
    change (rankText (map (cell b 5) range8) 0) with (r 5).
    change (rankText (map (cell b 6) range8) 0) with (r 6).
    change (rankText (map (cell b 7) range8) 0) with (r 7).
    assert (R : forall row,
               readFenRank (r row)
               = map (fun col => match cell b row col with
                                 | Some piece => Some (color piece, type piece)
                                 | None => None
                                 end) range8
               /\ includes (r row) "/" = false).
    { intros row. unfold r.
      destruct (rankText_read (map (cell b row) range8) 0 ltac:(lia))
        as [R1 R2]; [cbn; lia |].
      split; [| exact R2]. rewrite R1. cbn [Z.to_nat repeat app].
      now rewrite map_map. }
    clearbody r.
    rewrite !splitRanks_app by apply R.
    rewrite splitRanks_single by apply R.
    cbn [map].
    rewrite !(proj1 (R _)). reflexivity.
Qed.

(** * The shape of the board *)

Lemma Forall_list_set {A : Type} (P : A -> Prop) (l : list A) (n : nat)
  (v : A) :
  Forall P l -> P v -> Forall P (list_set l n v).
Proof.
  intros H Hv. revert n. induction H as [| x l Hx Hl IH]; intros n.
  - constructor.
  - destruct n; cbn [list_set]; constructor; auto.
Qed.

Lemma set_cell_wellShaped (b : Board) (r c : Z) (v : option Piece) :
  wellShaped b -> wellShaped (set_cell b r c v).
Proof.
  intros [L F]. split; [now rewrite set_cell_length |].
  unfold set_cell. destruct ((r <? 0) || (c <? 0)); [exact F |].
  destruct (nth_error b (Z.to_nat r)) as [row |] eqn:R; [| exact F].
  apply Forall_list_set; [exact F |]. rewrite list_set_length.
  apply nth_error_In in R. rewrite Forall_forall in F. now apply F.
Qed.

Lemma cell_set_cell_same (b : Board) (r c : Z) (v : option Piece) :
  wellShaped b -> onBoard r c -> cell (set_cell b r c v) r c = v.
Proof.
  intros [L F] [Hr Hc]. unfold set_cell.
  replace (r <? 0) with false by lia. replace (c <? 0) with false by lia.
  cbn [orb].
  destruct (nth_error b (Z.to_nat r)) as [row |] eqn:R.
  - unfold cell, row_at.
    replace (r <? 0) with false by lia. replace (c <? 0) with false by lia.
    rewrite (nth_error_list_set_same _ _ _ _ R).
    assert (Lr : List.length row = 8%nat).
    { apply nth_error_In in R. rewrite Forall_forall in F. now apply F. }
    destruct (nth_error row (Z.to_nat c)) as [x |] eqn:X.
    + now rewrite (nth_error_list_set_same _ _ _ _ X).
    + apply nth_error_None in X. lia.
  - apply nth_error_None in R. lia.
Qed.

(** A property of boards that every assignment to a square preserves is
    preserved by the engine. *)
Lemma handleCastling_board_inv (Q : Board -> Prop) (s : State) (side : Side)
  (prevBoard : Board) :
  (forall b r c v, Q b -> Q (set_cell b r c v)) ->
  Q (board s) -> Q (board (snd (handleCastling s side prevBoard))).
Proof.
  intros HQ A. unfold handleCastling.
  destruct (negb (canCastle s (currentPlayer s) side)); [exact A |].
  destruct s as [b cp sq mh gh go gw pp cr fc ep hc ph].
  cbn [board] in A.
  destruct side, cp; cbn -[set_cell cell]; auto.
Qed.

Lemma executeMove_board_inv (Q : Board -> Prop) (s : State) (piece : Piece)
  (fromRow fromCol toRow toCol : Z) :
  (forall b r c v, Q b -> Q (set_cell b r c v)) ->
  isCastlingMove (Some piece) fromRow fromCol toRow toCol = false ->
  Q (board s) ->
  Q (board (snd (executeMove s piece fromRow fromCol toRow toCol))).
Proof.
  intros HQ C A.
  destruct (executeMove_regular s piece fromRow fromCol toRow toCol C)
    as (isEnPassant & isCapture & s3 & _ & _ & E3 & Er).
  assert (A3 : Q (board s3)).
  { rewrite E3. cbn [board set_halfmoveClock].
    rewrite (proj1 (updateEnPassantTarget_frame _ piece fromRow fromCol
                      toRow toCol)).
    destruct (handleEnPassant_cases
                (updateCastlingRights (saveGameState s) piece fromRow fromCol)
                piece fromRow fromCol toRow toCol)
      as [E | (_ & _ & _ & _ & E)]; rewrite E; cbn [snd board set_board];
      rewrite (proj1 (updateCastlingRights_frame _ piece fromRow fromCol));
      auto. }
  rewrite Er.
  destruct (isPawnPromotion s3 fromRow fromCol toRow toCol).
  - exact A3.
  - cbv zeta. cbn [snd].
    match goal with
    | |- Q (board (snd (checkGameEndConditions ?x))) =>
        rewrite (proj1 (checkGameEndConditions_frame x))
    end.
    cbn [board set_positionHistory set_currentPlayer set_moveHistory
         set_board].
    auto.
Qed.

Lemma reachable_board_inv (Q : Board -> Prop) (s : State) :
  (forall b r c v, Q b -> Q (set_cell b r c v)) ->
  Q initialBoard -> reachable s -> Q (board s).
Proof.
  intros HQ Q0.
  induction 1 as [| s fr fc tr tc r s' _ IH M
                  | s choice s' _ IH X | s _ IH | s side prevBoard _ IH].
  - exact Q0.
  - destruct (pendingPromotion s) as [pp |] eqn:Hp.
    { rewrite makeMove_blocked in M by (left; congruence).
      inversion M; subst; exact IH. }
    destruct (isGameOver s) eqn:Ho.
    { rewrite makeMove_blocked in M by (now right).
      inversion M; subst; exact IH. }
    destruct (makeMove_cases s fr fc tr tc Hp Ho)
      as [[_ E] | [(q & Hq & Cq & E) | [[_ E] | (q & Hq & Cq & V & E)]]];
      rewrite E in M; try discriminate.
    + destruct (canCastle s (color q) (sideOf tc)).
      * inversion M; subst. now apply handleCastling_board_inv.
      * inversion M; subst; exact IH.
    + inversion M; subst; exact IH.
    + inversion M as [Ex].
      replace s' with (snd (executeMove s q fr fc tr tc)) by (now rewrite Ex).
      now apply executeMove_board_inv.
  - unfold executePromotion in X.
    destruct (pendingPromotion s) as [promotion |];
      [| inversion X; subst; exact IH].
    destruct (cell (board s) (fromRow promotion) (fromCol promotion))
      as [piece |]; [| discriminate].
    inversion X as [Ex]. clear X Ex.
    match goal with
    | |- Q (board (snd (checkGameEndConditions ?x))) =>
        rewrite (proj1 (checkGameEndConditions_frame x))
    end.
    cbn [board set_pendingPromotion set_currentPlayer set_moveHistory
         set_board].
    auto.
  - now rewrite (proj1 (checkGameEndConditions_frame s)).
  - now apply handleCastling_board_inv.
Qed.

Lemma reachable_wellShaped (s : State) :
  reachable s -> wellShaped (board s).
Proof.
  intros R. apply (reachable_board_inv wellShaped s); [| | exact R].
  - intros b r c v. apply set_cell_wellShaped.
  - split; [reflexivity |]. vm_compute. repeat constructor.
Qed.

(** * Moves of the chess program (X29, X30) *)

Lemma makeMove_castling_no_promotion (s : State) (piece : Piece)
  (row1 col1 row2 col2 : Z) (s1 : State) :
  cell (board s) row1 col1 = Some piece ->
  isCastlingMove (Some piece) row1 col1 row2 col2 = true ->
  makeMove s row1 col1 row2 col2 <> Returned (RPromotion, s1).
Proof.
  intros Hc C M. unfold makeMove in M.
  destruct ((match pendingPromotion s with Some _ => true | None => false end)
            || isGameOver s); [discriminate |].
  destruct (cell_row_at _ _ _ _ Hc) as [r0 Hr0].
  rewrite Hr0, Hc, C in M.
  destruct (canCastle s (color piece) (sideOf col2)); [| discriminate].
  destruct (fst (handleCastling s (sideOf col2) (deepCopyBoard (board s))));
    discriminate.
Qed.

Lemma playStockfishMove_spec (page : Page) (u : UI.Manager)
  (row1 col1 row2 col2 : Z) (promotionPiece : option ascii) :
  reachable (UI.gameEngine u) ->
  exists u',
    ChessApp.playStockfishMove page u row1 col1 row2 col2 promotionPiece
    = Returned u' /\
    (pendingPromotion (UI.gameEngine u) = None ->
     pendingPromotion (UI.gameEngine u') = None) /\
    (forall s1,
        makeMove (UI.gameEngine u) row1 col1 row2 col2
        = Returned (RPromotion, s1) ->
        exists p,
          cell (board (UI.gameEngine u')) row2 col2 = Some p /\
          type p = choiceType (ChessApp.promotionChoiceOf promotionPiece) /\
          color p = currentPlayer (UI.gameEngine u)).
Proof.
  intros R. set (s := UI.gameEngine u) in *.
  unfold ChessApp.playStockfishMove. fold s.
  destruct (isValidMove s row1 col1 row2 col2) eqn:V; cbn [negb].
  2:{ exists u. split; [reflexivity |]. split; [trivial |].
      intros s1 M. exfalso.
      destruct (pendingPromotion s) as [pp |] eqn:Hp.
      { rewrite makeMove_blocked in M by (left; congruence). discriminate. }
      destruct (isGameOver s) eqn:Ho.
      { rewrite makeMove_blocked in M by (now right). discriminate. }
      destruct (makeMove_cases s row1 col1 row2 col2 Hp Ho)
        as [[_ E] | [(q & Hq & Cq & E) | [[_ E] | (q & Hq & Cq & V' & E)]]];
        try congruence.
      exact (makeMove_castling_no_promotion s q _ _ _ _ s1 Hq Cq M). }
  pose proof V as V'.
  apply isValidMove_inv in V' as (B & q & Hq & Cq & Vp & _).
  apply inBounds_onBoard in B as [B1 B2].
  destruct (pendingPromotion s) as [pp |] eqn:Hp.
  { rewrite makeMove_blocked by (left; congruence).
    exists (UI.set_gameEngine u s). split; [reflexivity |].
    split; [intros N; discriminate N | intros s1 M; discriminate M]. }
  destruct (isGameOver s) eqn:Ho.
  { rewrite makeMove_blocked by (now right).
    exists (UI.set_gameEngine u s). split; [reflexivity |].
    split; [intros _; exact Hp | intros s1 M; discriminate M]. }
  destruct (makeMove s row1 col1 row2 col2) as [| [res s1]] eqn:M.
  { exfalso.
    destruct (makeMove_cases s row1 col1 row2 col2 Hp Ho)
      as [[Hr E] | [(q' & Hq' & Cq' & E) | [[V' E] | (q' & Hq' & Cq' & _ & E)]]];
      try congruence.
    - destruct (cell_row_at _ _ _ _ Hq) as [r0 Hr0]. congruence.
    - rewrite E in M.
      destruct (canCastle s (color q') (sideOf col2)); discriminate. }
  assert (R1 : reachable s1) by exact (reachable_makeMove _ _ _ _ _ _ _ R M).
  destruct res.
  - exists (UI.set_gameEngine u s1). split; [reflexivity |].
    split; [| intros s1' M'; discriminate M'].
    intros _. cbn [UI.gameEngine UI.set_gameEngine].
    destruct (makeMove_cases s row1 col1 row2 col2 Hp Ho)
      as [[_ E] | [(q' & Hq' & Cq' & E) | [[_ E] | (q' & Hq' & Cq' & _ & E)]]];
      rewrite E in M; try discriminate.
    + destruct (canCastle s (color q') (sideOf col2));
        [| inversion M; subst; exact Hp].
      inversion M as [[Er Es]].
      destruct (handleCastling_cases s (sideOf col2) (deepCopyBoard (board s)))
        as [[_ H] | (_ & _ & H)].
      * rewrite H. exact Hp.
      * cbv zeta in H. destruct H as (_ & _ & _ & _ & _ & _ & H).
        now rewrite H.
    + inversion M; subst; exact Hp.
    + inversion M as [Ex].
      pose proof (executeMove_not_rejected s q' row1 col1 row2 col2 Cq') as N.
      rewrite Ex in N. now elim N.
  - exists (UI.set_gameEngine u s1). split; [reflexivity |].
    split; [| intros s1' M'; discriminate M'].
    intros _. cbn [UI.gameEngine UI.set_gameEngine].
    destruct (makeMove_cases s row1 col1 row2 col2 Hp Ho)
      as [[_ E] | [(q' & Hq' & Cq' & E) | [[_ E] | (q' & Hq' & Cq' & _ & E)]]];
      rewrite E in M; try discriminate.
    + destruct (canCastle s (color q') (sideOf col2)); [| discriminate].
      inversion M as [[Er Es]].
      destruct (handleCastling_cases s (sideOf col2) (deepCopyBoard (board s)))
        as [[_ H] | (_ & _ & H)].
      * rewrite H. exact Hp.
      * cbv zeta in H. destruct H as (_ & _ & _ & _ & _ & _ & H).
        now rewrite H.
    + inversion M as [Ex].
      pose proof (executeMove_pending s q' row1 col1 row2 col2 Cq' Hp) as N.
      rewrite Ex in N. now apply N.
  - destruct (makeMove_cases s row1 col1 row2 col2 Hp Ho)
      as [[_ E] | [(q' & Hq' & Cq' & E) | [[_ E] | (q' & Hq' & Cq' & _ & E)]]];
      try congruence.
    { exfalso.
      exact (makeMove_castling_no_promotion s q' _ _ _ _ s1 Hq' Cq' M). }
    rewrite Hq in Hq'. inversion Hq'; subst q'.
    rewrite E in M. inversion M as [Ex].
    destruct (executeMove_promotion s q row1 col1 row2 col2 s1 Cq' Hq Ex)
      as (T & F & Es1).
    unfold isValidPieceMove in Vp. rewrite T in Vp.
    apply isValidPawnMove_rows in Vp.
    assert (Nrow : row2 <> row1).
    { unfold direction in Vp. destruct (color q); lia. }
    assert (P1 : pendingPromotion s1
                 = Some (mkPromotion row1 col1 row2 col2 (color q))).
    { rewrite Es1. reflexivity. }
    assert (C1 : cell (board s1) row1 col1 = Some q).
    { rewrite Es1. cbn [board set_pendingPromotion set_halfmoveClock].
      rewrite (proj1 (updateEnPassantTarget_frame _ q row1 col1 row2 col2)).
      now rewrite handleEnPassant_from. }
    set (choice := ChessApp.promotionChoiceOf promotionPiece).
    destruct (executePromotion_board s1 _ q choice P1 C1) as (s2 & X & Bs2).
    destruct (executePromotion_checks_game_end s1 _ q choice P1 C1)
      as (s7 & X' & _ & P7 & _).
    assert (P2 : pendingPromotion s2 = None).
    { rewrite X in X'. inversion X' as [E2].
      destruct (checkGameEndConditions_frame s7) as (_ & _ & _ & Fp & _).
      now rewrite Fp. }
    set (u1 := UI.hidePromotionModal page
                 (UI.set_gameEngine (UI.set_gameEngine u s1) s2)).
    assert (G1 : UI.gameEngine u1 = s2).
    { unfold u1, UI.hidePromotionModal.
      destruct (promotionModalEl page); reflexivity. }
    destruct (status_updates_frame page u1) as (_ & _ & Fb & Fp & _).
    cbv zeta in Fb, Fp. rewrite G1 in Fb, Fp.
    exists (UI.moveComplete page (UI.updateLocalGameStatus page u1)).
    split.
    { unfold UI.executePromotion.
      cbn [UI.gameEngine UI.set_gameEngine]. rewrite P1, X. reflexivity. }
    split; [intros _; now rewrite Fp |].
    intros s1' _. eexists. split; [| split].
    + rewrite Fb, Bs2. cbn [fromRow fromCol toRow toCol].
      rewrite cell_set_cell_other by (left; exact (not_eq_sym Nrow)).
      apply cell_set_cell_same; [| exact B2].
      now apply reachable_wellShaped.
    + reflexivity.
    + exact Cq.
Qed.

Lemma executeStockfishMoveAt_spec (page : Page) (u : UI.Manager)
  (row1 col1 row2 col2 : Z) (promotionPiece : option ascii) :
  reachable (UI.gameEngine u) ->
  exists u',
    ChessApp.executeStockfishMoveAt page u row1 col1 row2 col2 promotionPiece
    = Returned u' /\
    (pendingPromotion (UI.gameEngine u) = None ->
     pendingPromotion (UI.gameEngine u') = None) /\
    (forall s1,
        makeMove (UI.gameEngine u) row1 col1 row2 col2
        = Returned (RPromotion, s1) ->
        exists p,
          cell (board (UI.gameEngine u')) row2 col2 = Some p /\
          type p = choiceType (ChessApp.promotionChoiceOf promotionPiece) /\
          color p = currentPlayer (UI.gameEngine u)).
Proof.
  intros R. set (s := UI.gameEngine u) in *.
  unfold ChessApp.executeStockfishMoveAt. fold s.
  destruct (isCastlingMove (cell (board s) row1 col1) row1 col1 row2 col2)
    eqn:C.
  - destruct (cell (board s) row1 col1) as [q |] eqn:Hq; [| discriminate C].
    destruct (handleCastling_cases s (sideOf col2) (deepCopyBoard (board s)))
      as [[Cf H] | (Ct & H1 & H)].
    + rewrite Cf. exists u. split; [reflexivity |]. split; [trivial |].
      intros s1 M.
      now elim (makeMove_castling_no_promotion s q _ _ _ _ s1 Hq C).
    + rewrite Ct, H1. eexists. split; [reflexivity |].
      split.
      * cbv zeta in H. destruct H as (_ & _ & _ & _ & _ & _ & H).
        cbn [UI.gameEngine UI.set_gameEngine]. now rewrite H.
      * intros s1 M.
        now elim (makeMove_castling_no_promotion s q _ _ _ _ s1 Hq C).
  - now apply playStockfishMove_spec.
Qed.

Lemma cell_Some_bounds (b : Board) (r c : Z) (p : Piece) :
  wellShaped b -> cell b r c = Some p -> 0 <= r <= 7 /\ 0 <= c <= 7.
Proof.
  intros [L F] H. unfold cell in H.
  destruct (row_at b r) as [row |] eqn:Hr; [| discriminate].
  assert (Br : 0 <= r <= 7).
  { destruct (Z_lt_dec r 0) as [N | N];
      [assert (X : row_at b r = None) by (apply row_at_None; [exact L | lia]);
       congruence |].
    destruct (Z_lt_dec 7 r) as [N' | N'];
      [assert (X : row_at b r = None) by (apply row_at_None; [exact L | lia]);
       congruence |].
    lia. }
  split; [exact Br |].
  unfold row_at in Hr. destruct (r <? 0); [discriminate |].
  apply nth_error_In in Hr.
  rewrite Forall_forall in F. specialize (F row Hr).
  destruct (c <? 0) eqn:N; [discriminate |]. apply Z.ltb_ge in N.
  destruct (nth_error row (Z.to_nat c)) as [x |] eqn:Hx; [| discriminate].
  assert (Hl : (Z.to_nat c < List.length row)%nat)
    by (apply nth_error_Some; congruence).
  lia.
Qed.

Lemma parseDigit_rank (a : ascii) :
  isRankChar a = true <->
  exists n, parseDigit a = Some n /\ 1 <= n <= 8.
Proof.
  rewrite isRankChar_code. unfold parseDigit, codeOf.
  set (k := Z.of_nat (nat_of_ascii a)).
  destruct ((48 <=? k) && (k <=? 57)) eqn:D.
  - split.
    + intros H. exists (k - 48). split; [reflexivity | lia].
    + intros (n & E & B). inversion E. lia.
  - split.
    + intros H. lia.
    + intros (n & E & _). discriminate.
Qed.

(** X29.  A move of the chess program never waits for the promotion dialog.
    In a state of a game, for a move whose second character is a rank digit
    from 1 to 8 and whose fourth character is a digit, [executeStockfishMove]
    returns without a fault; when no promotion was pending before, none is
    pending after; and when the move is a promotion it is completed at once,
    the square of arrival holding a piece of the player of the kind named by
    the fifth character of the move, a queen when there is none or when it
    names nothing. *)
Theorem stockfish_move_completes_promotion (page : Page) (u : UI.Manager)
  (fromFile fromRank toFile toRank : ascii) (rest : string)
  (fromDigit toDigit : Z) :
  reachable (UI.gameEngine u) ->
  parseDigit fromRank = Some fromDigit ->
  1 <= fromDigit <= 8 ->
  parseDigit toRank = Some toDigit ->
  exists u',
    ChessApp.executeStockfishMove page u
      (String fromFile (String fromRank (String toFile (String toRank rest))))
    = Returned u' /\
    (pendingPromotion (UI.gameEngine u) = None ->
     pendingPromotion (UI.gameEngine u') = None) /\
    (forall s1,
        makeMove (UI.gameEngine u) (8 - fromDigit) (codeOf fromFile - 97)
                 (8 - toDigit) (codeOf toFile - 97)
        = Returned (RPromotion, s1) ->
        exists p,
          cell (board (UI.gameEngine u')) (8 - toDigit) (codeOf toFile - 97)
          = Some p /\
          type p
          = choiceType
              (ChessApp.promotionChoiceOf (ChessApp.promotionPieceOf rest)) /\
          color p = currentPlayer (UI.gameEngine u)).
Proof.
  intros R K1 B1 K2.
  unfold ChessApp.executeStockfishMove. rewrite K1, K2. cbv zeta.
  pose proof (reachable_board_length (UI.gameEngine u) R) as L.
  destruct (row_at (board (UI.gameEngine u)) (8 - fromDigit)) as [r0 |] eqn:Hr.
  2:{ apply (row_at_None _ _ L) in Hr. lia. }
  now apply executeStockfishMoveAt_spec.
Qed.

(** Witness of [stockfish_move_completes_promotion]: the move a7b8n after
    [game_promotion] puts a white knight on b8. *)
Lemma stockfish_move_completes_promotion_witness :
  makeMove after_promotion 1 0 0 1
  = Returned (RPromotion, after_promotionPending) /\
  parseDigit "7" = Some 7 /\
  1 <= 7 <= 8 /\
  parseDigit "8" = Some 8 /\
  exists u',
    ChessApp.executeStockfishMove (mkPage true true true)
      (UI.mkManager after_promotion None false)
      (String "a" (String "7" (String "b" (String "8" "n"))))
    = Returned u' /\
    (pendingPromotion
       (UI.gameEngine (UI.mkManager after_promotion None false)) = None ->
     pendingPromotion (UI.gameEngine u') = None) /\
    (forall s1,
        makeMove (UI.gameEngine (UI.mkManager after_promotion None false))
                 (8 - 7) (codeOf "a" - 97) (8 - 8) (codeOf "b" - 97)
        = Returned (RPromotion, s1) ->
        exists p,
          cell (board (UI.gameEngine u')) (8 - 8) (codeOf "b" - 97)
          = Some p /\
          type p
          = choiceType
              (ChessApp.promotionChoiceOf (ChessApp.promotionPieceOf "n")) /\
          color p
          = currentPlayer
              (UI.gameEngine (UI.mkManager after_promotion None false))).
Proof.
  split; [vm_compute; reflexivity |].
  split; [reflexivity |]. split; [lia |]. split; [reflexivity |].
  apply (stockfish_move_completes_promotion (mkPage true true true)
           (UI.mkManager after_promotion None false)
           "a"%char "7"%char "b"%char "8"%char "n" 7 8).
  - apply (play_reachable game_promotion initialState);
      [exact reachable_initial | vm_compute; reflexivity].
  - reflexivity.
  - lia.
  - reflexivity.
Defined.

(** X30.  The faults of [executeStockfishMove].  In a state of a game, a move
    of four characters or more makes it throw in two cases and in no other:
    the second character is no rank digit from 1 to 8, or the fourth character
    is no digit while the third is a file letter and the first two name a
    square that holds a piece of the player to move. *)
Theorem stockfish_move_throws_iff (page : Page) (u : UI.Manager)
  (fromFile fromRank toFile toRank : ascii) (rest : string) :
  reachable (UI.gameEngine u) ->
  ChessApp.executeStockfishMove page u
    (String fromFile (String fromRank (String toFile (String toRank rest))))
  = Threw
  <->
  isRankChar fromRank = false \/
  (parseDigit toRank = None /\
   isFileChar toFile = true /\
   exists fromDigit piece,
     parseDigit fromRank = Some fromDigit /\
     cell (board (UI.gameEngine u)) (8 - fromDigit) (codeOf fromFile - 97)
     = Some piece /\
     color piece = currentPlayer (UI.gameEngine u)).
Proof.
  intros R. set (s := UI.gameEngine u) in *.
  pose proof (reachable_board_length s R) as L.
  pose proof (reachable_wellShaped s R) as W.
  unfold ChessApp.executeStockfishMove. fold s. cbv zeta.
  destruct (isRankChar fromRank) eqn:K.
  - apply parseDigit_rank in K as (n & K1 & B1). rewrite K1.
    destruct (row_at (board s) (8 - n)) as [r0 |] eqn:Hr.
    2:{ apply (row_at_None _ _ L) in Hr. lia. }
    destruct (parseDigit toRank) as [m |] eqn:K2.
    + split.
      * intros T.
        destruct (executeStockfishMoveAt_spec page u (8 - n)
                    (codeOf fromFile - 97) (8 - m) (codeOf toFile - 97)
                    (ChessApp.promotionPieceOf rest) R) as (u' & E & _).
        fold s in E. congruence.
      * intros [F | (F & _)]; discriminate F.
    + unfold ChessApp.executeStockfishMoveNaN. fold s.
      split.
      * intros T. right. split; [reflexivity |].
        destruct ((8 - n <? 0) || (8 - n >? 7)
                  || (codeOf fromFile - 97 <? 0)
                  || (codeOf fromFile - 97 >? 7)
                  || (codeOf toFile - 97 <? 0)
                  || (codeOf toFile - 97 >? 7)) eqn:Bd; [discriminate T |].
        split; [apply isFileChar_code; lia |].
        destruct (cell (board s) (8 - n) (codeOf fromFile - 97))
          as [piece |] eqn:Hc; [| discriminate T].
        destruct (Color_eqb (color piece) (currentPlayer s)) eqn:Cc;
          [| discriminate T].
        exists n, piece. split; [first [reflexivity | exact K1] |].
        split; [exact Hc |]. now apply Color_eqb_eq.
      * intros [F | (_ & Ft & n' & piece & E & Hc & Cc)]; [discriminate F |].
        inversion E; subst n'.
        destruct (cell_Some_bounds _ _ _ _ W Hc) as [_ Bc].
        apply isFileChar_code in Ft.
        replace ((8 - n <? 0) || (8 - n >? 7)
                 || (codeOf fromFile - 97 <? 0)
                 || (codeOf fromFile - 97 >? 7)
                 || (codeOf toFile - 97 <? 0)
                 || (codeOf toFile - 97 >? 7)) with false by (symmetry; lia).
        rewrite Hc. apply Color_eqb_eq in Cc. now rewrite Cc.
  - split; [intros _; now left |]. intros _.
    destruct (parseDigit fromRank) as [n |] eqn:K1; [| reflexivity].
    assert (Bn : ~ 1 <= n <= 8).
    { intros B. assert (X : isRankChar fromRank = true)
        by (apply parseDigit_rank; now exists n). congruence. }
    assert (Bn' : 0 <= n <= 9).
    { unfold parseDigit in K1.
      destruct ((48 <=? Z.of_nat (nat_of_ascii fromRank))
                && (Z.of_nat (nat_of_ascii fromRank) <=? 57)) eqn:D;
        [| discriminate].
      inversion K1. lia. }
    assert (Hr : row_at (board s) (8 - n) = None)
      by (apply (row_at_None _ _ L); lia).
    now rewrite Hr.
Qed.

(** Witness of [stockfish_move_throws_iff]: at the start of a game the move
    e2ex throws. *)
Lemma stockfish_move_throws_iff_witness :
  ChessApp.executeStockfishMove (mkPage true true true)
    (UI.mkManager initialState None false)
    (String "e" (String "2" (String "e" (String "x" ""))))
  = Threw /\
  (ChessApp.executeStockfishMove (mkPage true true true)
     (UI.mkManager initialState None false)
     (String "e" (String "2" (String "e" (String "x" ""))))
   = Threw
   <->
   isRankChar "2" = false \/
   (parseDigit "x" = None /\
    isFileChar "e" = true /\
    exists fromDigit piece,
      parseDigit "2" = Some fromDigit /\
      cell (board (UI.gameEngine (UI.mkManager initialState None false)))
           (8 - fromDigit) (codeOf "e" - 97)
      = Some piece /\
      color piece
      = currentPlayer
          (UI.gameEngine (UI.mkManager initialState None false)))).
Proof.
  split; [vm_compute; reflexivity |].
  apply (stockfish_move_throws_iff (mkPage true true true)
           (UI.mkManager initialState None false)
           "e"%char "2"%char "e"%char "x"%char "").
  exact reachable_initial.
Defined.

(** * The candidates of a piece move (C9) *)





